(** * Hand-tracking fluid demo: coordinate mapper, hand proxies, recolouring
      and the tracking life cycle

    Shallow embedding of the repository's own logic:

    - [Mapper]: the landmark-to-viewport arithmetic of the [onResults]
      callback of [HandTracking];
    - [Sim]: the [LiquidSimulation] class (hand proxies, recolouring);
    - [Tracking]: the effect of [HandTracking] as an event-loop machine.

    JavaScript numbers are IEEE-754 binary64.  The mapper is embedded twice:
    [Mapper64] is the arithmetic as the program runs it, every operation
    rounded to nearest, with infinities, NaN and signed zeros; [Mapper] is
    the same sequence of operations over the rationals [Q], where nothing is
    rounded.  Order and range properties, which rounding keeps, are proved on
    [Mapper]; what depends on the last bits is stated on [Mapper64].  In [Q]
    a division is only meaningful with a non-zero divisor, which the theorems
    state as a hypothesis on the canvas size.  The simulation, which needs a
    square root, is written over the reals [R]. *)

From Stdlib Require Import String ZArith QArith Qminmax Qfield Reals Lra Lia List Bool.
From Stdlib Require Lqa Sorted Floats.
From stdpp Require Import base option gmap.
Import ListNotations.

(* ================================================================== *)
(** ** Coordinate mapper (HandTracking, [hands.onResults] callback)     *)
(* ================================================================== *)

(** The operations of the callback over [Q]: exact, where the program rounds
    each of them ([Mapper64] below). *)
Module Mapper.
Local Open Scope Q_scope.

(** [window.innerWidth] / [window.innerHeight]. *)
Record Window := { innerWidth : Q; innerHeight : Q }.

(** The [width] and [height] attributes of the overlay canvas. *)
Record Canvas := { width : Q; height : Q }.

(** One normalized landmark of the detector ([x], [y]; [z] is never read). *)
Module Landmark.
Record t := { x : Q; y : Q }.
End Landmark.

(** [window.innerWidth < 768] *)
Definition isMobile (w : Window) : bool :=
  if Qlt_le_dec (innerWidth w) 768 then true else false.

(** [const CANVAS_DIMENSIONS = { width: ... ? 320 : 640, height: ... ? 480 : 480 }] *)
Definition CANVAS_DIMENSIONS (w : Window) : Canvas :=
  {| width := if isMobile w then 320 else 640;
     height := if isMobile w then 480 else 480 |}.

(** [Math.max] and [Math.min] on finite numbers. *)
Definition Math_max (a b : Q) : Q := Qmax a b.
Definition Math_min (a b : Q) : Q := Qmin a b.

Section Mapping.
Variable window : Window.
Variable canvas : Canvas.
Variable handPoint : Landmark.t.

(** [const scaleX = (window.innerWidth * 2.0) / canvas.width;] *)
Definition scaleX : Q := (innerWidth window * 2.0) / width canvas.
(** [const scaleY = (window.innerHeight * 2.0) / canvas.height;] *)
Definition scaleY : Q := (innerHeight window * 2.0) / height canvas.

(** [const offsetX = window.innerWidth * 0.5;] *)
Definition offsetX : Q := innerWidth window * 0.5.
(** [const offsetY = window.innerHeight * 0.5;] *)
Definition offsetY : Q := innerHeight window * 0.5.

(** [const mirroredX =
      window.innerWidth - (handPoint.x * canvas.width * scaleX - offsetX);] *)
Definition mirroredX : Q :=
  innerWidth window - (Landmark.x handPoint * width canvas * scaleX - offsetX).

(** The argument of the clamp on the y axis:
    [handPoint.y * canvas.height * scaleY - offsetY]. *)
Definition unclampedY : Q :=
  Landmark.y handPoint * height canvas * scaleY - offsetY.

(** [const x = Math.max(0, Math.min(window.innerWidth, mirroredX));] *)
Definition mappedX : Q := Math_max 0 (Math_min (innerWidth window) mirroredX).

(** [const y = Math.max(0, Math.min(window.innerHeight,
               handPoint.y * canvas.height * scaleY - offsetY));] *)
Definition mappedY : Q := Math_max 0 (Math_min (innerHeight window) unclampedY).
End Mapping.

(** What one iteration of
    [results.multiHandLandmarks.forEach((landmarks, index) => ...)] passes to
    the callback: [onHandUpdate(index, x, y)], or nothing when the chosen
    landmark is absent ([if (handPoint)]). *)
Record HandUpdate := { handIndex : Z; targetX : Q; targetY : Q }.

(** [const handPoint = window.innerWidth < 768 ? landmarks[9] : landmarks[8];] *)
Definition selectHandPoint (w : Window) (landmarks : list Landmark.t)
  : option Landmark.t :=
  if isMobile w then nth_error landmarks 9 else nth_error landmarks 8.

Definition mapHand (w : Window) (c : Canvas) (index : nat)
    (landmarks : list Landmark.t) : option HandUpdate :=
  match selectHandPoint w landmarks with
  | Some handPoint =>
      Some {| handIndex := Z.of_nat index;
              targetX := mappedX w c handPoint;
              targetY := mappedY w c handPoint |}
  | None => None
  end.

(** The [forEach] over the detected hands, in detection order. *)
Fixpoint forEachHand (w : Window) (c : Canvas) (index : nat)
    (hands : list (list Landmark.t)) : list HandUpdate :=
  match hands with
  | [] => []
  | landmarks :: rest =>
      match mapHand w c index landmarks with
      | Some u => u :: forEachHand w c (S index) rest
      | None => forEachHand w c (S index) rest
      end
  end.

(** [if (results.multiHandLandmarks) { ....forEach(...) }] *)
Definition handUpdates (w : Window) (c : Canvas)
    (multiHandLandmarks : option (list (list Landmark.t))) : list HandUpdate :=
  match multiHandLandmarks with
  | Some hands => forEachHand w c 0 hands
  | None => []
  end.

(** The rectangle [0, W] x [0, H] of the viewport. *)
Definition withinViewport (w : Window) (u : HandUpdate) : Prop :=
  (0 <= targetX u <= innerWidth w) /\ (0 <= targetY u <= innerHeight w).

End Mapper.

(* ================================================================== *)
(** ** The coordinate mapper in binary64                                *)
(* ================================================================== *)

(** The same lines of the [onResults] callback, operation by operation, on
    binary64 numbers: [*], [/] and [-] round to nearest, ties to even, as in
    JavaScript; a literal is the binary64 number nearest to it. *)
Module Mapper64.
Import PrimFloat.
Local Open Scope float_scope.
#[local] Set Warnings "-inexact-float".

Record Window := { innerWidth : float; innerHeight : float }.

Record Canvas := { width : float; height : float }.

Module Landmark.
Record t := { x : float; y : float }.
End Landmark.

(** [window.innerWidth < 768] *)
Definition isMobile (w : Window) : bool := innerWidth w <? 768.

(** [const CANVAS_DIMENSIONS = { width: ... ? 320 : 640, height: ... ? 480 : 480 }] *)
Definition CANVAS_DIMENSIONS (w : Window) : Canvas :=
  {| width := if isMobile w then 320 else 640;
     height := if isMobile w then 480 else 480 |}.

(** [Math.min] and [Math.max] of two numbers: NaN if one of them is NaN, and
    [-0] counts as less than [+0]. *)
Definition Math_min (a b : float) : float :=
  if is_nan a || is_nan b then nan
  else if a <? b then a
  else if b <? a then b
  else if get_sign a then a else b.

Definition Math_max (a b : float) : float :=
  if is_nan a || is_nan b then nan
  else if b <? a then a
  else if a <? b then b
  else if get_sign a then b else a.

Section Mapping.
Variable window : Window.
Variable canvas : Canvas.
Variable handPoint : Landmark.t.

(** [const scaleX = (window.innerWidth * 2.0) / canvas.width;] *)
Definition scaleX : float := (innerWidth window * 2.0) / width canvas.
(** [const scaleY = (window.innerHeight * 2.0) / canvas.height;] *)
Definition scaleY : float := (innerHeight window * 2.0) / height canvas.

(** [const offsetX = window.innerWidth * 0.5;] *)
Definition offsetX : float := innerWidth window * 0.5.
(** [const offsetY = window.innerHeight * 0.5;] *)
Definition offsetY : float := innerHeight window * 0.5.

(** [const mirroredX =
      window.innerWidth - (handPoint.x * canvas.width * scaleX - offsetX);] *)
Definition mirroredX : float :=
  innerWidth window - (Landmark.x handPoint * width canvas * scaleX - offsetX).

(** The argument of the clamp on the y axis:
    [handPoint.y * canvas.height * scaleY - offsetY]. *)
Definition unclampedY : float :=
  Landmark.y handPoint * height canvas * scaleY - offsetY.

(** [const x = Math.max(0, Math.min(window.innerWidth, mirroredX));] *)
Definition mappedX : float := Math_max 0 (Math_min (innerWidth window) mirroredX).

(** [const y = Math.max(0, Math.min(window.innerHeight,
               handPoint.y * canvas.height * scaleY - offsetY));] *)
Definition mappedY : float := Math_max 0 (Math_min (innerHeight window) unclampedY).
End Mapping.

End Mapper64.

(* ================================================================== *)
(** ** The simulation driver ([class LiquidSimulation])                 *)
(* ================================================================== *)

Module Sim.
Local Open Scope R_scope.

(** [Matter.Vector]: a plain [{x, y}] object. *)
Module Vector.
Record t := { x : R; y : R }.
Definition zero : t := {| x := 0; y := 0 |}.
End Vector.

(** A canvas style string.  The literal styles of the source are kept as
    strings; the template literal [`hsl(${hue}, ${saturation}%, ${lightness}%)`]
    is kept as its three numbers (the decimal printing of a number is not
    modelled). *)
Inductive Style :=
  | Literal (css : String.string)
  | Hsl (hue saturation lightness : R).

(** [body.render]: the fields this class reads or writes. *)
Record Render := {
  fillStyle : Style;
  strokeStyle : Style;
  lineWidth : R;
  opacity : R }.

Record CollisionFilter := { category : Z; mask : Z }.

Inductive Shape :=
  | Circle (radius : R)
  | Rectangle (w h : R)
  | FromVertices (vertices : list Vector.t).

(** [Matter.Body]: the fields this class sets, reads or passes as options.
    [render] is optional because [updateParticleColors] and [animateFadeIn]
    test it before use. *)
Record Body := {
  position : Vector.t;
  velocity : Vector.t;
  force : Vector.t;
  torque : R;
  isStatic : bool;
  shape : Shape;
  render : option Render;
  collisionFilter : CollisionFilter }.

(** *** The three calls into the physics engine made by [updateHandPosition]

    Matter.js is an external library; these follow its API documentation:
    [applyForce] adds the force to the body's accumulated force (and the moment
    of the force about the body's position to its torque), [setVelocity] "sets
    the linear velocity of the body instantly; position, angle, force etc. are
    unchanged", [setPosition] "sets the position of the body instantly;
    velocity, angle, force etc. are unchanged". *)
Definition Body_applyForce (body : Body) (from force' : Vector.t) : Body :=
  {| position := position body;
     velocity := velocity body;
     force := {| Vector.x := Vector.x (force body) + Vector.x force';
                 Vector.y := Vector.y (force body) + Vector.y force' |};
     torque := torque body
               + ((Vector.x from - Vector.x (position body)) * Vector.y force'
                  - (Vector.y from - Vector.y (position body)) * Vector.x force');
     isStatic := isStatic body;
     shape := shape body;
     render := render body;
     collisionFilter := collisionFilter body |}.

Definition Body_setVelocity (body : Body) (v : Vector.t) : Body :=
  {| position := position body;
     velocity := v;
     force := force body;
     torque := torque body;
     isStatic := isStatic body;
     shape := shape body;
     render := render body;
     collisionFilter := collisionFilter body |}.

Definition Body_setPosition (body : Body) (p : Vector.t) : Body :=
  {| position := p;
     velocity := velocity body;
     force := force body;
     torque := torque body;
     isStatic := isStatic body;
     shape := shape body;
     render := render body;
     collisionFilter := collisionFilter body |}.

(** Assignment to [body.render.strokeStyle] and [body.render.opacity]. *)
Definition Render_setStrokeStyle (r : Render) (s : Style) : Render :=
  {| fillStyle := fillStyle r; strokeStyle := s;
     lineWidth := lineWidth r; opacity := opacity r |}.

Definition Render_setOpacity (r : Render) (o : R) : Render :=
  {| fillStyle := fillStyle r; strokeStyle := strokeStyle r;
     lineWidth := lineWidth r; opacity := o |}.

Definition Body_setRender (body : Body) (r : option Render) : Body :=
  {| position := position body;
     velocity := velocity body;
     force := force body;
     torque := torque body;
     isStatic := isStatic body;
     shape := shape body;
     render := r;
     collisionFilter := collisionFilter body |}.

(** *** The object

    Bodies are JavaScript objects shared between the fields of the class and
    the engine's world, so the model keeps one store of bodies, keyed by the
    identity of the object, and the fields hold identities. *)
Abbreviation BodyRef := nat.

Record Window := { innerWidth : R; innerHeight : R; devicePixelRatio : R }.

Record LiquidSimulation := {
  bodies : gmap BodyRef Body;      (* the body objects *)
  nextId : BodyRef;                (* first identity not yet given out *)
  world : list BodyRef;            (* bodies of [this.engine.world] *)
  particles : list BodyRef;        (* [this.particles] *)
  draggableObjects : list BodyRef; (* [this.draggableObjects] *)
  leftHandBody : BodyRef;          (* [this.leftHandBody] *)
  rightHandBody : BodyRef;         (* [this.rightHandBody] *)
  particleOpacity : R;
  fadeInStartTime : R;
  maxVelocity : R;
  renderOptions : R * R;           (* [this.render.options.width / height] *)
  canvasSize : R * R;              (* [this.render.canvas.width / height] *)
  running : bool                   (* runner and renderer started, not stopped *)
}.

(** Applying a mutation to the object a reference points to. *)
Definition mutate (ref : BodyRef) (f : Body -> Body) (s : LiquidSimulation)
  : LiquidSimulation :=
  {| bodies := alter f ref (bodies s);
     nextId := nextId s;
     world := world s;
     particles := particles s;
     draggableObjects := draggableObjects s;
     leftHandBody := leftHandBody s;
     rightHandBody := rightHandBody s;
     particleOpacity := particleOpacity s;
     fadeInStartTime := fadeInStartTime s;
     maxVelocity := maxVelocity s;
     renderOptions := renderOptions s;
     canvasSize := canvasSize s;
     running := running s |}.

(** *** [updateHandPosition(handIndex, x, y)]

    [rnd1] and [rnd2] are the two results of [Math.random()], in the order of
    the calls. *)
Definition moveHandBody (x y rnd1 rnd2 : R) (handBody : Body) : Body :=
  (* Matter.Body.applyForce(handBody, handBody.position, {...}) *)
  let handBody1 :=
    Body_applyForce handBody (position handBody)
      {| Vector.x := (rnd1 - 0.5) * 0.0001;
         Vector.y := (rnd2 - 0.5) * 0.0001 |} in
  let currentPos := position handBody1 in
  let dx := x - Vector.x currentPos in
  let dy := y - Vector.y currentPos in
  (* Matter.Body.setVelocity(handBody, { x: dx * 1.2, y: dy * 1.2 }) *)
  let handBody2 :=
    Body_setVelocity handBody1
      {| Vector.x := dx * 1.2; Vector.y := dy * 1.2 |} in
  (* Matter.Body.setPosition(handBody, { x: x, y: y }) *)
  Body_setPosition handBody2 {| Vector.x := x; Vector.y := y |}.

(** [const handBody = handIndex === 0 ? this.leftHandBody : this.rightHandBody;] *)
Definition selectHandBody (s : LiquidSimulation) (handIndex : Z) : BodyRef :=
  if (handIndex =? 0)%Z then leftHandBody s else rightHandBody s.

Definition updateHandPosition (handIndex : Z) (x y rnd1 rnd2 : R)
    (s : LiquidSimulation) : LiquidSimulation :=
  mutate (selectHandBody s handIndex) (moveHandBody x y rnd1 rnd2) s.

(** *** [updateParticleColors]: the handler of the engine's [afterUpdate] *)
Definition recolor (maxVelocity : R) (particle : Body) : Body :=
  match render particle with
  | None => particle                       (* if (!particle.render) return; *)
  | Some r =>
      let velocity :=
        sqrt (Vector.x (velocity particle) * Vector.x (velocity particle)
              + Vector.y (velocity particle) * Vector.y (velocity particle)) in
      let normalizedVelocity := Rmin (velocity / maxVelocity) 1 in
      let hue := (1 - normalizedVelocity) * 180 in
      let saturation := 100 in
      let lightness := 50 + normalizedVelocity * 20 in
      Body_setRender particle
        (Some (Render_setStrokeStyle r (Hsl hue saturation lightness)))
  end.

(** [this.particles.forEach(particle => ...)] over the shared bodies. *)
Definition forEachParticle (f : Body -> Body) (s : LiquidSimulation)
  : LiquidSimulation :=
  fold_left (fun acc particle => mutate particle f acc) (particles s) s.

Definition updateParticleColors (s : LiquidSimulation) : LiquidSimulation :=
  forEachParticle (recolor (maxVelocity s)) s.

(** *** [animateFadeIn]; [now] is the result of [Date.now()].  The boolean
    tells whether the method asks for another animation frame. *)
Definition fade (particleOpacity : R) (particle : Body) : Body :=
  match render particle with
  | Some r => Body_setRender particle (Some (Render_setOpacity r particleOpacity))
  | None => particle
  end.

Definition setParticleOpacity (o : R) (s : LiquidSimulation) : LiquidSimulation :=
  {| bodies := bodies s;
     nextId := nextId s;
     world := world s;
     particles := particles s;
     draggableObjects := draggableObjects s;
     leftHandBody := leftHandBody s;
     rightHandBody := rightHandBody s;
     particleOpacity := o;
     fadeInStartTime := fadeInStartTime s;
     maxVelocity := maxVelocity s;
     renderOptions := renderOptions s;
     canvasSize := canvasSize s;
     running := running s |}.

Definition animateFadeIn (now : R) (s : LiquidSimulation)
  : LiquidSimulation * bool :=
  let elapsed := now - fadeInStartTime s in
  let duration := 4000 in
  let s1 := setParticleOpacity (Rmin 1 (elapsed / duration)) s in
  let s2 := forEachParticle (fade (particleOpacity s1)) s1 in
  (s2, if Rlt_dec (particleOpacity s2) 1 then true else false).

(** *** [handleResize] and [destroy]

    [Matter.Render.setPixelRatio(render, pixelRatio)] sets the size of the
    canvas from the options of the renderer, whatever it was:
    [canvas.width = options.width * pixelRatio;
     canvas.height = options.height * pixelRatio;]. *)
Definition Render_setPixelRatio (options : R * R) (pixelRatio : R) (canvas : R * R)
  : R * R :=
  (fst options * pixelRatio, snd options * pixelRatio).

Definition handleResize (w : Window) (s : LiquidSimulation) : LiquidSimulation :=
  (* this.render.canvas.width = window.innerWidth;
     this.render.canvas.height = window.innerHeight; *)
  let canvas := (innerWidth w, innerHeight w) in
  {| bodies := bodies s;
     nextId := nextId s;
     world := world s;
     particles := particles s;
     draggableObjects := draggableObjects s;
     leftHandBody := leftHandBody s;
     rightHandBody := rightHandBody s;
     particleOpacity := particleOpacity s;
     fadeInStartTime := fadeInStartTime s;
     maxVelocity := maxVelocity s;
     renderOptions := renderOptions s;
     (* Matter.Render.setPixelRatio(this.render, window.devicePixelRatio); *)
     canvasSize := Render_setPixelRatio (renderOptions s) (devicePixelRatio w) canvas;
     running := running s |}.

(** [Matter.Composite.clear(this.engine.world, false)] empties the world, static
    bodies included; the renderer and the runner are stopped. *)
Definition destroy (s : LiquidSimulation) : LiquidSimulation :=
  {| bodies := bodies s;
     nextId := nextId s;
     world := [];
     particles := particles s;
     draggableObjects := draggableObjects s;
     leftHandBody := leftHandBody s;
     rightHandBody := rightHandBody s;
     particleOpacity := particleOpacity s;
     fadeInStartTime := fadeInStartTime s;
     maxVelocity := maxVelocity s;
     renderOptions := renderOptions s;
     canvasSize := canvasSize s;
     running := false |}.

(** *** The constructor

    [window.innerWidth < 768] *)
Definition isMobile (w : Window) : bool :=
  if Rlt_dec (innerWidth w) 768 then true else false.

(** A [for (let i = 0; i < count; i++) body] loop that threads a state;
    [for_ count 0 body] runs [body 0], ..., [body (count - 1)] in order. *)
Fixpoint for_ {St : Type} (count i : nat) (body : nat -> St -> St) (st : St) : St :=
  match count with
  | O => st
  | S count' => for_ count' (S i) body (body i st)
  end.

(** A body object comes into being with an identity of its own. *)
Definition newBody (b : Body) (s : LiquidSimulation) : BodyRef * LiquidSimulation :=
  (nextId s,
   {| bodies := <[nextId s := b]> (bodies s);
      nextId := S (nextId s);
      world := world s;
      particles := particles s;
      draggableObjects := draggableObjects s;
      leftHandBody := leftHandBody s;
      rightHandBody := rightHandBody s;
      particleOpacity := particleOpacity s;
      fadeInStartTime := fadeInStartTime s;
      maxVelocity := maxVelocity s;
      renderOptions := renderOptions s;
      canvasSize := canvasSize s;
      running := running s |}).

(** [Matter.Composite.add(this.engine.world, refs)] *)
Definition Composite_add (refs : list BodyRef) (s : LiquidSimulation)
  : LiquidSimulation :=
  {| bodies := bodies s;
     nextId := nextId s;
     world := world s ++ refs;
     particles := particles s;
     draggableObjects := draggableObjects s;
     leftHandBody := leftHandBody s;
     rightHandBody := rightHandBody s;
     particleOpacity := particleOpacity s;
     fadeInStartTime := fadeInStartTime s;
     maxVelocity := maxVelocity s;
     renderOptions := renderOptions s;
     canvasSize := canvasSize s;
     running := running s |}.

(** [this.particles.push(particle)] *)
Definition pushParticle (particle : BodyRef) (s : LiquidSimulation)
  : LiquidSimulation :=
  {| bodies := bodies s;
     nextId := nextId s;
     world := world s;
     particles := particles s ++ [particle];
     draggableObjects := draggableObjects s;
     leftHandBody := leftHandBody s;
     rightHandBody := rightHandBody s;
     particleOpacity := particleOpacity s;
     fadeInStartTime := fadeInStartTime s;
     maxVelocity := maxVelocity s;
     renderOptions := renderOptions s;
     canvasSize := canvasSize s;
     running := running s |}.

(** The engine's defaults for the options the source leaves out. *)
Definition defaultFilter : CollisionFilter := {| category := 0x0001; mask := 0xFFFFFFFF |}.

Definition staticRender : Render :=
  {| fillStyle := Literal "#14151f"; strokeStyle := Literal "#555";
     lineWidth := 1; opacity := 1 |}.

(** [Matter.Bodies.circle(0, 0, 50, { isStatic: true, ..., render: {...},
      collisionFilter: { category: 0x0002, mask: 0x0001 } })] *)
Definition handBody (fill stroke : String.string) (width : R) : Body :=
  {| position := {| Vector.x := 0; Vector.y := 0 |};
     velocity := Vector.zero;
     force := Vector.zero;
     torque := 0;
     isStatic := true;
     shape := Circle 50;
     render := Some {| fillStyle := Literal fill; strokeStyle := Literal stroke;
                       lineWidth := width; opacity := 1 |};
     collisionFilter := {| category := 0x0002; mask := 0x0001 |} |}.

Definition leftHand : Body := handBody "rgba(0, 255, 0, 0.3)" "#00FF00" 2.

Definition rightHand (w : Window) : Body :=
  handBody (if isMobile w then "transparent" else "rgba(0, 255, 0, 0.3)")
           (if isMobile w then "transparent" else "#00FF00")
           (if isMobile w then 0 else 2).

(** [Matter.Bodies.rectangle(x, y, width, height, { isStatic: true })] *)
Definition wall (x y width height : R) : Body :=
  {| position := {| Vector.x := x; Vector.y := y |};
     velocity := Vector.zero;
     force := Vector.zero;
     torque := 0;
     isStatic := true;
     shape := Rectangle width height;
     render := Some staticRender;
     collisionFilter := defaultFilter |}.

Definition createBoundaries (w : Window) (s : LiquidSimulation) : LiquidSimulation :=
  let '(bottom, s1) :=
    newBody (wall (innerWidth w / 2) (innerHeight w + 50) (innerWidth w) 100) s in
  let '(leftWall, s2) :=
    newBody (wall (-50) (innerHeight w / 2) 100 (innerHeight w)) s1 in
  let '(rightWall, s3) :=
    newBody (wall (innerWidth w + 50) (innerHeight w / 2) 100 (innerHeight w)) s2 in
  Composite_add [bottom; leftWall; rightWall] s3.

Definition hexagonRadius : R := 16.

Definition hexagonVertices : list Vector.t :=
  map (fun i => let angle := (PI / 3) * INR i in
                {| Vector.x := hexagonRadius * cos angle;
                   Vector.y := hexagonRadius * sin angle |})
      (seq 0 6).

(** [Matter.Bodies.fromVertices(x, y, hexagonVertices, particleOptions)] *)
Definition particleBody (x y : R) : Body :=
  {| position := {| Vector.x := x; Vector.y := y |};
     velocity := Vector.zero;
     force := Vector.zero;
     torque := 0;
     isStatic := false;
     shape := FromVertices hexagonVertices;
     render := Some {| fillStyle := Literal "transparent";
                       strokeStyle := Literal "#ffffff";
                       lineWidth := 2;
                       opacity := 0 |};
     collisionFilter := {| category := 0x0001; mask := 0x0003 |} |}.

(** The state of [createParticles]: the object, and how many results of
    [Math.random()] have been used; [random k] is the k-th result. *)
Definition Build : Type := LiquidSimulation * nat.

Section CreateParticles.
Variable w : Window.
Variable random : nat -> R.

Definition spacing : R := 45.

(** The body of the inner loop over [col]. *)
Definition gridParticle (cols row col : nat) (st : Build) : Build :=
  let '(s, k) := st in
  let x := (innerWidth w / 2 - (INR cols * spacing) / 2) + INR col * spacing in
  let y := 50 + INR row * spacing in
  let jitter := random k * 2 - 1 in
  let '(particle, s1) := newBody (particleBody (x + jitter) (y + jitter)) s in
  (pushParticle particle s1, S k).

(** The body of the loop that adds the random particles. *)
Definition randomParticle (i : nat) (st : Build) : Build :=
  let '(s, k) := st in
  let '(particle, s1) :=
    newBody (particleBody (innerWidth w / 2 + random k * 300 - 150)
                          (50 + random (S k) * 100)) s in
  (pushParticle particle s1, S (S k)).

Definition createParticles (s : LiquidSimulation) : LiquidSimulation :=
  let rows := if isMobile w then 12%nat else 30%nat in
  let cols := if isMobile w then 15%nat else 40%nat in
  let st1 :=
    for_ rows 0 (fun row => for_ cols 0 (fun col => gridParticle cols row col))
         (s, 0%nat) in
  let st2 := for_ (if isMobile w then 50%nat else 200%nat) 0 randomParticle st1 in
  Composite_add (particles (fst st2)) (fst st2).
End CreateParticles.

(** [createDraggableObjects] has an empty body. *)
Definition createDraggableObjects (s : LiquidSimulation) : LiquidSimulation := s.

Definition start (now : R) (s : LiquidSimulation) : LiquidSimulation :=
  {| bodies := bodies s;
     nextId := nextId s;
     world := world s;
     particles := particles s;
     draggableObjects := draggableObjects s;
     leftHandBody := leftHandBody s;
     rightHandBody := rightHandBody s;
     particleOpacity := particleOpacity s;
     fadeInStartTime := now;
     maxVelocity := maxVelocity s;
     renderOptions := renderOptions s;
     canvasSize := canvasSize s;
     running := true |}.

(** [new LiquidSimulation(container)].  [firstId] is the first unused body
    identity, [random] the results of [Math.random()], [now] and [now'] the
    results of the two calls of [Date.now()].

    The field initialisers and the part of the constructor up to the two hand
    bodies: *)
Definition createHandBodies (w : Window) (firstId : BodyRef) : LiquidSimulation :=
  let leftRef := firstId in
  let rightRef := S firstId in
  {| bodies := <[rightRef := rightHand w]> (<[leftRef := leftHand]> ∅);
     nextId := S (S firstId);
     (* Matter.Composite.add(this.engine.world,
                             [this.leftHandBody, this.rightHandBody]); *)
     world := [leftRef; rightRef];
     particles := [];
     draggableObjects := [];
     leftHandBody := leftRef;
     rightHandBody := rightRef;
     particleOpacity := 0;
     fadeInStartTime := 0;
     maxVelocity := 15;
     (* Matter.Render.create({ ..., options: { width: window.innerWidth,
          height: window.innerHeight,
          pixelRatio: Math.min(window.devicePixelRatio, 2), ... } }):
        the canvas is made [options.width] by [options.height] and then sized
        by [setPixelRatio]. *)
     renderOptions := (innerWidth w, innerHeight w);
     canvasSize := Render_setPixelRatio (innerWidth w, innerHeight w)
                     (Rmin (devicePixelRatio w) 2)
                     (innerWidth w, innerHeight w);
     running := false |}.

Definition new (w : Window) (firstId : BodyRef) (random : nat -> R)
    (now now' : R) : LiquidSimulation :=
  let s0 := createHandBodies w firstId in
  let s1 := createBoundaries w s0 in
  let s2 := createParticles w random s1 in
  let s3 := createDraggableObjects s2 in
  let s4 := start now s3 in
  fst (animateFadeIn now' s4).

(** *** A session: the calls that reach the object after construction

    [EngineUpdate] stands for one step of the external engine, which may move
    any body and clears the accumulated forces; it is followed by the
    [afterUpdate] handler. *)
Record Motion := { toPosition : Vector.t; toVelocity : Vector.t }.

Definition integrate (m : Motion) (body : Body) : Body :=
  {| position := toPosition m;
     velocity := toVelocity m;
     force := Vector.zero;
     torque := 0;
     isStatic := isStatic body;
     shape := shape body;
     render := render body;
     collisionFilter := collisionFilter body |}.

Definition engineUpdate (physics : BodyRef -> Body -> Motion)
    (s : LiquidSimulation) : LiquidSimulation :=
  fold_left (fun acc ref => mutate ref (fun body => integrate (physics ref body) body) acc)
            (world s) s.

Inductive Call :=
  | UpdateHandPosition (handIndex : Z) (x y rnd1 rnd2 : R)
  | EngineUpdate (physics : BodyRef -> Body -> Motion)
  | AnimateFadeIn (now : R)
  | HandleResize (w : Window)
  | Destroy.

Definition call (c : Call) (s : LiquidSimulation) : LiquidSimulation :=
  match c with
  | UpdateHandPosition handIndex x y rnd1 rnd2 =>
      updateHandPosition handIndex x y rnd1 rnd2 s
  | EngineUpdate physics => updateParticleColors (engineUpdate physics s)
  | AnimateFadeIn now => fst (animateFadeIn now s)
  | HandleResize w => handleResize w s
  | Destroy => destroy s
  end.

Definition session (calls : list Call) (s : LiquidSimulation) : LiquidSimulation :=
  fold_left (fun acc c => call c acc) calls s.

(** The hand proxies of the world: the bodies of collision category [0x0002]
    (the particles' mask comment: "hands (0x0002)"). *)
Definition isHandProxy (s : LiquidSimulation) (ref : BodyRef) : bool :=
  match bodies s !! ref with
  | Some body => (category (collisionFilter body) =? 0x0002)%Z
  | None => false
  end.

Definition handProxies (s : LiquidSimulation) : list BodyRef :=
  List.filter (isHandProxy s) (world s).

Definition isDestroy (c : Call) : bool :=
  match c with
  | Destroy => true
  | _ => false
  end.

(** What the renderer reads of a body: its speed, and the hue of its stroke
    when the stroke is an [hsl(...)] colour. *)
Definition speedOf (s : LiquidSimulation) (ref : BodyRef) : R :=
  match bodies s !! ref with
  | Some body =>
      sqrt (Vector.x (velocity body) * Vector.x (velocity body)
            + Vector.y (velocity body) * Vector.y (velocity body))
  | None => 0
  end.

Definition strokeOf (s : LiquidSimulation) (ref : BodyRef) : option Style :=
  match bodies s !! ref with
  | Some body =>
      match render body with
      | Some r => Some (strokeStyle r)
      | None => None
      end
  | None => None
  end.

Definition hueOf (s : LiquidSimulation) (ref : BodyRef) : option R :=
  match strokeOf s ref with
  | Some (Hsl hue _ _) => Some hue
  | _ => None
  end.

(** *** Invariants of the object

    A mutation is gentle when it keeps the collision filter of the body and
    does not take its [render] away. *)
Definition gentle (f : Body -> Body) : Prop :=
  forall body,
    collisionFilter (f body) = collisionFilter body
    /\ (is_Some (render body) -> is_Some (render (f body))).

Definition hasRender (s : LiquidSimulation) (ref : BodyRef) : Prop :=
  exists body, bodies s !! ref = Some body /\ is_Some (render body).

(** [benign s s']: from [s] to [s'] the fields that hold references and the
    speed cap are the same, every body has kept its collision category and
    every body that had a [render] still has one. *)
Definition benign (s s' : LiquidSimulation) : Prop :=
  leftHandBody s' = leftHandBody s
  /\ rightHandBody s' = rightHandBody s
  /\ particles s' = particles s
  /\ maxVelocity s' = maxVelocity s
  /\ nextId s' = nextId s
  /\ (forall ref, isHandProxy s' ref = isHandProxy s ref)
  /\ (forall ref, hasRender s ref -> hasRender s' ref).

(** The two hand proxies of the object whose first body has identity
    [firstId]. *)
Definition handsInv (firstId : BodyRef) (s : LiquidSimulation) : Prop :=
  leftHandBody s = firstId
  /\ rightHandBody s = S firstId
  /\ isHandProxy s firstId = true
  /\ isHandProxy s (S firstId) = true
  /\ (forall ref, (S firstId < ref)%nat -> isHandProxy s ref = false)
  /\ maxVelocity s = 15
  /\ Forall (hasRender s) (particles s)
  /\ Forall (lt (S firstId)) (particles s)
  /\ (S firstId < nextId s)%nat.

(** The world holds the two proxies first, then bodies created after them. *)
Definition worldInv (firstId : BodyRef) (s : LiquidSimulation) : Prop :=
  exists rest,
    world s = firstId :: S firstId :: rest /\ Forall (lt (S firstId)) rest.

Definition buildInv (firstId : BodyRef) (s : LiquidSimulation) : Prop :=
  handsInv firstId s /\ worldInv firstId s.

(** *** The colour rule as the specification words it

    Speed [s = sqrt(vx^2 + vy^2)], normalized [n = min(s/15, 1)],
    hue [(1 - n)*180], lightness [50 + 20*n] percent, saturation 100 percent. *)
Module ColourSpec.
Definition speed (v : Vector.t) : R := sqrt (Vector.x v ^ 2 + Vector.y v ^ 2).
Definition normalized (s : R) : R := Rmin (s / 15) 1.
Definition hue (n : R) : R := (1 - n) * 180.
Definition lightness (n : R) : R := 50 + 20 * n.
Definition colour (v : Vector.t) : Style :=
  Hsl (hue (normalized (speed v))) 100 (lightness (normalized (speed v))).
End ColourSpec.

End Sim.

(* ================================================================== *)
(** ** The tracking effect of [HandTracking] as an event-loop machine   *)
(* ================================================================== *)

(** The body of [useEffect] runs on one thread: every callback and every
    stretch of [initializeTracking] between two [await]s runs to its end
    before the next one starts.  The machine below has one input per such
    stretch; the environment (timers, the script loader, the camera, the
    detector, the animation clock, React) chooses which input comes next. *)
Module Tracking.

(** *** Normal and abrupt completion of a stretch of code *)
Inductive Completion (A : Type) :=
  | Normal (a : A)
  | Throw (message : String.string).
Arguments Normal {A} a.
Arguments Throw {A} message%_string.

Definition bind {A B} (c : Completion A) (k : A -> Completion B) : Completion B :=
  match c with
  | Normal a => k a
  | Throw m => Throw m
  end.

Notation "x <- c ;; k" := (bind c (fun x => k))
  (at level 100, c at next level, right associativity).

(** [if (ref.current)]: an object is truthy, [null] is not. *)
Definition truthy {A} (current : option A) : bool :=
  match current with
  | Some _ => true
  | None => false
  end.

(** Reading a member of [ref.current]: a [TypeError] when it is [null]. *)
Definition deref {A} (current : option A) : Completion A :=
  match current with
  | Some a => Normal a
  | None => Throw "TypeError: Cannot read properties of null"
  end.

(** *** The objects the effect holds *)
Definition Track := nat.

(** A [MediaStream], by the tracks [getTracks()] returns. *)
Definition MediaStream := list Track.

(** The [<video>] element behind [videoRef]. *)
Record Video := { srcObject : option MediaStream }.

(** The [<canvas>] element behind [canvasRef]; [context2d] tells whether
    [getContext('2d')] returns a context. *)
Record CanvasElement := { size : Mapper.Canvas; context2d : bool }.

(** The detector object [hands]: whether a results callback has been given to
    it, and whether it has been closed. *)
Record Hands := { listening : bool; closed : bool }.

(** The three messages given to [setError]. *)
Inductive ErrorMessage :=
  | FailedToLoadLibrary
  | CameraAccessFailed (reason : String.string)
  | HandTrackingFailed (reason : String.string).

(** Where [initializeTracking] is suspended. *)
Inductive Pc :=
  | NotCalled
  | AwaitLoadScript                        (* await loadMediaPipeScript() *)
  | AwaitGetUserMedia                      (* await getUserMedia(...) in setupCamera *)
  | AwaitLoadedData (stream : MediaStream) (* the promise of setupCamera *)
  | AwaitInitialize (hands : Hands)        (* await hands.initialize() *)
  | Returned.

(** The variables of one run of the effect. *)
Record Closure := {
  mounted : bool;
  initTimeout : bool;        (* the timer of [setTimeout] is armed *)
  pc : Pc;
  frameRequests : nat;       (* pending [requestAnimationFrame(processFrame)] *)
  sendsInFlight : nat        (* pending [await handsRef.current.send(...)] *)
}.

Record Refs := {
  videoRef : option Video;
  canvasRef : option CanvasElement;
  handsRef : option Hands;
  streamRef : option MediaStream }.

Record Ui := {
  error : option ErrorMessage;
  isLoading : bool;
  isCameraReady : bool }.

Record State := {
  closure : Closure;
  refs : Refs;
  ui : Ui;
  window : Mapper.Window;
  liveTracks : list Track    (* camera tracks handed out and not stopped *)
}.

(** What a stretch of code does to the outside, in order. *)
Inductive Action :=
  | LoadScript
  | GetUserMedia
  | InitializeHands
  | RequestFrame
  | SendFrame
  | DrawImage
  | OnHandUpdate (update : Mapper.HandUpdate)
  | ClearTimeout
  | StopTrack (track : Track)
  | CloseHands.

(** *** Assignments *)
Definition setClosure (c : Closure) (s : State) : State :=
  {| closure := c; refs := refs s; ui := ui s;
     window := window s; liveTracks := liveTracks s |}.

Definition setRefs (r : Refs) (s : State) : State :=
  {| closure := closure s; refs := r; ui := ui s;
     window := window s; liveTracks := liveTracks s |}.

Definition setUi (u : Ui) (s : State) : State :=
  {| closure := closure s; refs := refs s; ui := u;
     window := window s; liveTracks := liveTracks s |}.

Definition setWindow (w : Mapper.Window) (s : State) : State :=
  {| closure := closure s; refs := refs s; ui := ui s;
     window := w; liveTracks := liveTracks s |}.

Definition setLiveTracks (l : list Track) (s : State) : State :=
  {| closure := closure s; refs := refs s; ui := ui s;
     window := window s; liveTracks := l |}.

Definition setMounted (b : bool) (s : State) : State :=
  setClosure {| mounted := b;
                initTimeout := initTimeout (closure s);
                pc := pc (closure s);
                frameRequests := frameRequests (closure s);
                sendsInFlight := sendsInFlight (closure s) |} s.

Definition setInitTimeout (b : bool) (s : State) : State :=
  setClosure {| mounted := mounted (closure s);
                initTimeout := b;
                pc := pc (closure s);
                frameRequests := frameRequests (closure s);
                sendsInFlight := sendsInFlight (closure s) |} s.

Definition setPc (p : Pc) (s : State) : State :=
  setClosure {| mounted := mounted (closure s);
                initTimeout := initTimeout (closure s);
                pc := p;
                frameRequests := frameRequests (closure s);
                sendsInFlight := sendsInFlight (closure s) |} s.

Definition setFrameRequests (n : nat) (s : State) : State :=
  setClosure {| mounted := mounted (closure s);
                initTimeout := initTimeout (closure s);
                pc := pc (closure s);
                frameRequests := n;
                sendsInFlight := sendsInFlight (closure s) |} s.

Definition setSendsInFlight (n : nat) (s : State) : State :=
  setClosure {| mounted := mounted (closure s);
                initTimeout := initTimeout (closure s);
                pc := pc (closure s);
                frameRequests := frameRequests (closure s);
                sendsInFlight := n |} s.

Definition setVideoRef (v : option Video) (s : State) : State :=
  setRefs {| videoRef := v;
             canvasRef := canvasRef (refs s);
             handsRef := handsRef (refs s);
             streamRef := streamRef (refs s) |} s.

Definition setCanvasRef (c : option CanvasElement) (s : State) : State :=
  setRefs {| videoRef := videoRef (refs s);
             canvasRef := c;
             handsRef := handsRef (refs s);
             streamRef := streamRef (refs s) |} s.

Definition setHandsRef (h : option Hands) (s : State) : State :=
  setRefs {| videoRef := videoRef (refs s);
             canvasRef := canvasRef (refs s);
             handsRef := h;
             streamRef := streamRef (refs s) |} s.

Definition setStreamRef (m : option MediaStream) (s : State) : State :=
  setRefs {| videoRef := videoRef (refs s);
             canvasRef := canvasRef (refs s);
             handsRef := handsRef (refs s);
             streamRef := m |} s.

Definition setError (e : ErrorMessage) (s : State) : State :=
  setUi {| error := Some e;
           isLoading := isLoading (ui s);
           isCameraReady := isCameraReady (ui s) |} s.

Definition setIsLoading (b : bool) (s : State) : State :=
  setUi {| error := error (ui s);
           isLoading := b;
           isCameraReady := isCameraReady (ui s) |} s.

Definition setIsCameraReady (b : bool) (s : State) : State :=
  setUi {| error := error (ui s);
           isLoading := isLoading (ui s);
           isCameraReady := b |} s.

(** *** [setupCamera], from the point where [getUserMedia] has given the stream *)
Definition setupCamera_resume (stream : MediaStream) (s : State) : Completion State :=
  (* if (!videoRef.current) throw new Error('Video element not found'); *)
  match videoRef (refs s) with
  | None => Throw "Video element not found"
  | Some _ =>
      (* videoRef.current.srcObject = stream; *)
      let s1 := setVideoRef (Some {| srcObject := Some stream |}) s in
      (* return new Promise((resolve) => {
           if (!videoRef.current) throw new Error('Video element not found');
           videoRef.current.onloadeddata = () => resolve(stream); }); *)
      match videoRef (refs s1) with
      | None => Throw "Video element not found"
      | Some _ => Normal (setPc (AwaitLoadedData stream) s1)
      end
  end.

(** *** The three [catch] blocks of [initializeTracking] *)
Definition scriptFailed (s : State) : State :=
  setPc Returned (setIsLoading false (setError FailedToLoadLibrary s)).

Definition cameraFailed (reason : String.string) (s : State) : State :=
  setPc Returned (setIsLoading false (setError (CameraAccessFailed reason) s)).

Definition trackingFailed (reason : String.string) (s : State) : State :=
  setPc Returned (setIsLoading false (setError (HandTrackingFailed reason) s)).

(** *** [initializeTracking], one definition per stretch between [await]s *)

(** From the call to [await loadMediaPipeScript()]. *)
Definition initializeTracking (s : State) : State * list Action :=
  (setPc AwaitLoadScript (setIsLoading true s), [LoadScript]).

(** The script has loaded: [setupCamera(videoRef)] is called and awaits
    [getUserMedia]. *)
Definition afterLoadScript (s : State) : State * list Action :=
  (setPc AwaitGetUserMedia s, [GetUserMedia]).

(** [getUserMedia] has given [stream]: the rest of [setupCamera], inside the
    second [try]. *)
Definition afterGetUserMedia (stream : MediaStream) (s : State) : State * list Action :=
  let s1 := setLiveTracks (liveTracks s ++ stream) s in
  match setupCamera_resume stream s1 with
  | Normal s2 => (s2, [])
  | Throw reason => (cameraFailed reason s1, [])
  end.

(** The promise of [setupCamera] has resolved.  [constructorError] is the
    message of the exception of [new HandsConstructor(...)] or
    [hands.setOptions(...)], if they throw. *)
Definition afterSetupCamera (stream : MediaStream)
    (constructorError : option String.string) (s : State) : State * list Action :=
  if negb (mounted (closure s)) then (setPc Returned s, [])  (* if (!mounted) return; *)
  else
    (* streamRef.current = stream; setIsCameraReady(true); *)
    let s1 := setIsCameraReady true (setStreamRef (Some stream) s) in
    match constructorError with
    | Some reason => (trackingFailed reason s1, [])
    | None =>
        (* await hands.initialize(); *)
        (setPc (AwaitInitialize {| listening := false; closed := false |}) s1,
         [InitializeHands])
    end.

(** [hands.initialize()] has resolved. *)
Definition afterInitialize (hands : Hands) (s : State) : State * list Action :=
  (* hands.onResults((results) => {...}); handsRef.current = hands; *)
  let s1 := setHandsRef (Some {| listening := true; closed := closed hands |}) s in
  match videoRef (refs s1) with
  | None => (setPc Returned s1, [])                (* if (!videoRef.current) return; *)
  | Some _ =>
      (* requestAnimationFrame(processFrame); setIsLoading(false); *)
      (setPc Returned
         (setIsLoading false
            (setFrameRequests (S (frameRequests (closure s1))) s1)),
       [RequestFrame])
  end.

(** *** [processFrame], up to its [await] and after it *)
Definition processFrame (s : State) : State * list Action :=
  match mounted (closure s), videoRef (refs s), handsRef (refs s) with
  | true, Some _, Some _ =>
      (* await handsRef.current.send({ image: videoRef.current }); *)
      (setSendsInFlight (S (sendsInFlight (closure s))) s, [SendFrame])
  | _, _, _ => (s, [])   (* if (!mounted || !videoRef.current || !handsRef.current) return; *)
  end.

Definition afterSend (s : State) : State * list Action :=
  (* requestAnimationFrame(processFrame); *)
  (setFrameRequests (S (frameRequests (closure s))) s, [RequestFrame]).

(** *** The callback given to [hands.onResults] *)
Definition onResults (multiHandLandmarks : option (list (list Mapper.Landmark.t)))
    (s : State) : State * list Action :=
  if negb (mounted (closure s)) then (s, [])           (* if (!mounted) return; *)
  else
    match canvasRef (refs s) with
    | None => (s, [])                                  (* if (!canvas) return; *)
    | Some canvas =>
        if negb (context2d canvas) then (s, [])        (* if (!ctx) return; *)
        else
          (s, DrawImage
                :: map OnHandUpdate
                     (Mapper.handUpdates (window s) (size canvas) multiHandLandmarks))
    end.

(** *** The cleanup function returned by the effect *)
Definition stopTracks (stream : MediaStream) (s : State) : State * list Action :=
  (setLiveTracks
     (List.filter (fun t => negb (existsb (Nat.eqb t) stream)) (liveTracks s)) s,
   map StopTrack stream).

Definition closeHands (hands : Hands) (s : State) : State * list Action :=
  (setHandsRef (Some {| listening := listening hands; closed := true |}) s,
   [CloseHands]).

Definition cleanup (s : State) : Completion (State * list Action) :=
  (* mounted = false; clearTimeout(initTimeout); *)
  let s1 := setInitTimeout false (setMounted false s) in
  r1 <- (if truthy (streamRef (refs s1))
         then stream <- deref (streamRef (refs s1)) ;;
              (* streamRef.current.getTracks().forEach(track => track.stop()); *)
              Normal (stopTracks stream s1)
         else Normal (s1, [])) ;;
  r2 <- (if truthy (handsRef (refs (fst r1)))
         then hands <- deref (handsRef (refs (fst r1))) ;;
              (* handsRef.current.close(); *)
              Normal (closeHands hands (fst r1))
         else Normal (fst r1, [])) ;;
  Normal (fst r2, ClearTimeout :: snd r1 ++ snd r2).

(** *** The machine *)
Inductive Input :=
  | TimerFired                                   (* the 1000 ms timer *)
  | ScriptLoaded
  | ScriptFailed
  | UserMediaGranted (stream : MediaStream)
  | UserMediaDenied (reason : String.string)
  | LoadedData (constructorError : option String.string)
  | HandsInitialized
  | HandsInitializeFailed (reason : String.string)
  | AnimationFrame
  | SendSettled (fulfilled : bool)
  | Results (multiHandLandmarks : option (list (list Mapper.Landmark.t)))
  | WindowResized (w : Mapper.Window)
  | VideoRefChanged (video : option Video)       (* React attaches or detaches *)
  | CanvasRefChanged (canvas : option CanvasElement)
  | Teardown.                                    (* React runs the cleanup *)

(** An input that has nothing waiting for it leaves the state as it is. *)
Definition handle (i : Input) (s : State) : Completion (State * list Action) :=
  match i, pc (closure s) with
  | TimerFired, NotCalled =>
      if initTimeout (closure s)
      then Normal (initializeTracking (setInitTimeout false s))
      else Normal (s, [])
  | ScriptLoaded, AwaitLoadScript => Normal (afterLoadScript s)
  | ScriptFailed, AwaitLoadScript => Normal (scriptFailed s, [])
  | UserMediaGranted stream, AwaitGetUserMedia => Normal (afterGetUserMedia stream s)
  | UserMediaDenied reason, AwaitGetUserMedia => Normal (cameraFailed reason s, [])
  | LoadedData constructorError, AwaitLoadedData stream =>
      Normal (afterSetupCamera stream constructorError s)
  | HandsInitialized, AwaitInitialize hands => Normal (afterInitialize hands s)
  | HandsInitializeFailed reason, AwaitInitialize _ =>
      Normal (trackingFailed reason s, [])
  | AnimationFrame, _ =>
      match frameRequests (closure s) with
      | S n => Normal (processFrame (setFrameRequests n s))
      | O => Normal (s, [])
      end
  | SendSettled fulfilled, _ =>
      match sendsInFlight (closure s) with
      | S n =>
          if fulfilled then Normal (afterSend (setSendsInFlight n s))
          else Normal (setSendsInFlight n s, [])
      | O => Normal (s, [])
      end
  | Results multiHandLandmarks, _ =>
      match handsRef (refs s) with
      | Some hands =>
          if listening hands then Normal (onResults multiHandLandmarks s)
          else Normal (s, [])
      | None => Normal (s, [])
      end
  | WindowResized w, _ => Normal (setWindow w s, [])
  | VideoRefChanged video, _ => Normal (setVideoRef video s, [])
  | CanvasRefChanged canvas, _ => Normal (setCanvasRef canvas s, [])
  | Teardown, _ => cleanup s
  | _, _ => Normal (s, [])
  end.

Fixpoint run (inputs : list Input) (s : State) : Completion (State * list Action) :=
  match inputs with
  | [] => Normal (s, [])
  | i :: rest =>
      r <- handle i s ;;
      r' <- run rest (fst r) ;;
      Normal (fst r', snd r ++ snd r')
  end.

(** The state in which React runs the effect for the first time. *)
Definition init (w : Mapper.Window) (video : option Video)
    (canvas : option CanvasElement) : State :=
  {| closure := {| mounted := true;
                   initTimeout := true;
                   pc := NotCalled;
                   frameRequests := 0;
                   sendsInFlight := 0 |};
     refs := {| videoRef := video;
                canvasRef := canvas;
                handsRef := None;
                streamRef := None |};
     ui := {| error := None; isLoading := true; isCameraReady := false |};
     window := w;
     liveTracks := [] |}.

(** The inputs that resume code of the effect after an [await] or run one of
    its callbacks (the others are the cleanup itself and changes of the
    environment). *)
Definition isContinuation (i : Input) : bool :=
  match i with
  | Teardown | WindowResized _ | VideoRefChanged _ | CanvasRefChanged _ => false
  | _ => true
  end.

(** The actions that deliver a detection or feed the detector. *)
Definition isDelivery (a : Action) : bool :=
  match a with
  | OnHandUpdate _ | SendFrame | DrawImage => true
  | _ => false
  end.

End Tracking.

(* ================================================================== *)
(** ** The detector configuration ([HANDS_CONFIG])                      *)
(* ================================================================== *)

Module Config.
Local Open Scope Q_scope.

Record HandsConfig := {
  maxNumHands : nat;
  modelComplexity : nat;
  minDetectionConfidence : Q;
  minTrackingConfidence : Q }.

(** [const HANDS_CONFIG = { maxNumHands: window.innerWidth < 768 ? 1 : 2, ... }] *)
Definition HANDS_CONFIG (w : Mapper.Window) : HandsConfig :=
  {| maxNumHands := if Mapper.isMobile w then 1%nat else 2%nat;
     modelComplexity := 1;
     minDetectionConfidence := 0.5;
     minTrackingConfidence := 0.5 |}.

End Config.

(* ================================================================== *)
(** ** The script loader ([loadMediaPipeScript])                        *)
(* ================================================================== *)

(** The promise of [loadMediaPipeScript] and the [<script>] element it
    creates.  The browser delivers the [load] and [error] events of the
    element and fires the 500 ms timers of [checkHandsAvailability]. *)
Module Loader.

(** [MEDIAPIPE_URLS.base] and [MEDIAPIPE_URLS.fallback]. *)
Inductive Url := Base | Fallback.

Definition MEDIAPIPE_URLS (u : Url) : String.string :=
  match u with
  | Base => "https://cdn.jsdelivr.net/npm/@mediapipe/hands@0.4.1675469240"
  | Fallback => "https://unpkg.com/@mediapipe/hands@0.4.1675469240"
  end.

(** The two functions assigned to [script.onerror]: the arrow function that
    turns to the fallback, and [reject]. *)
Inductive ErrorHandler := SwitchToFallback | RejectPromise.

(** What the promise is rejected with: [new Error(message)], or the [error]
    event the browser passes to [script.onerror]. *)
Inductive Reason :=
  | Error (message : String.string)
  | ErrorEvent.

(** A promise settles once. *)
Inductive Promise :=
  | Pending
  | Fulfilled
  | Rejected (reason : Reason).

Record Script := {
  src : Url;
  onerror : ErrorHandler;
  timers : nat;              (* timers of [checkHandsAvailability] not yet fired *)
  promise : Promise }.

(** [resolve()] and [reject(reason)]: without effect on a settled promise. *)
Definition resolve (s : Script) : Script :=
  match promise s with
  | Pending => {| src := src s; onerror := onerror s; timers := timers s;
                  promise := Fulfilled |}
  | _ => s
  end.

Definition reject (reason : Reason) (s : Script) : Script :=
  match promise s with
  | Pending => {| src := src s; onerror := onerror s; timers := timers s;
                  promise := Rejected reason |}
  | _ => s
  end.

(** The executor of the promise, up to [document.head.appendChild(script)]:
    [script.src = `${MEDIAPIPE_URLS.base}/hands.js`],
    [script.onload = checkHandsAvailability], [script.onerror = () => {...}]. *)
Definition loadMediaPipeScript : Script :=
  {| src := Base; onerror := SwitchToFallback; timers := 0; promise := Pending |}.

Inductive Event :=
  | Onload                    (* the script has loaded *)
  | Onerror                   (* the script could not be loaded *)
  | Timeout (hands : bool).   (* a 500 ms timer fires; is [window.Hands] set? *)

Definition step (e : Event) (s : Script) : Script :=
  match e with
  | Onload =>
      (* checkHandsAvailability: setTimeout(() => {...}, 500) *)
      {| src := src s; onerror := onerror s; timers := S (timers s);
         promise := promise s |}
  | Onerror =>
      match onerror s with
      | SwitchToFallback =>
          (* script.src = `${MEDIAPIPE_URLS.fallback}/hands.js`;
             script.onload = checkHandsAvailability; script.onerror = reject; *)
          {| src := Fallback; onerror := RejectPromise; timers := timers s;
             promise := promise s |}
      | RejectPromise => reject ErrorEvent s
      end
  | Timeout hands =>
      match timers s with
      | O => s
      | S n =>
          let s1 := {| src := src s; onerror := onerror s; timers := n;
                       promise := promise s |} in
          (* if (window.Hands) resolve(); else reject(new Error(...)); *)
          if hands then resolve s1
          else reject (Error "Hands object not found after script load") s1
      end
  end.

Definition run (events : list Event) (s : Script) : Script :=
  fold_left (fun acc e => step e acc) events s.

Definition isOnerror (e : Event) : bool :=
  match e with
  | Onerror => true
  | _ => false
  end.

(** What the callback of a 500 ms timer settles the promise with. *)
Definition settledBy (hands : bool) : Promise :=
  if hands then Fulfilled
  else Rejected (Error "Hands object not found after script load").

End Loader.

(* ================================================================== *)
(** ** The resize hook ([useResizable])                                 *)
(* ================================================================== *)

Module Resizable.
Local Open Scope Q_scope.

Record ResizableOptions := { minWidth : Q; maxWidth : Q; aspectRatio : Q }.

(** The defaults of the destructured parameter:
    [minWidth = 120, maxWidth = 800, aspectRatio = 4/3]. *)
Definition defaults : ResizableOptions :=
  {| minWidth := 120; maxWidth := 800; aspectRatio := 4 / 3 |}.

(** The options [HandTracking] passes. *)
Definition trackingOptions (w : Mapper.Window) : ResizableOptions :=
  {| minWidth := if Mapper.isMobile w then 120 else 240;
     maxWidth := if Mapper.isMobile w then 240 else 480;
     aspectRatio := if Mapper.isMobile w then 3 / 4 else 4 / 3 |}.

(** The refs and the state of the hook, and the two styles of [document.body]
    it sets. *)
Record Hook := {
  isResizing : bool;
  startWidth : Q;
  startX : Q;
  width : Q;
  height : Q;
  cursor : String.string;
  userSelect : String.string }.

(** [useState(window.innerWidth < 768 ? 160 : 380)] and
    [useState(width / aspectRatio)]. *)
Definition useResizable (o : ResizableOptions) (w : Mapper.Window) : Hook :=
  let width0 := if Mapper.isMobile w then 160 else 380 in
  {| isResizing := false;
     startWidth := 0;
     startX := 0;
     width := width0;
     height := width0 / aspectRatio o;
     cursor := "";
     userSelect := "" |}.

(** [startResize(e)]; [offsetWidth] is [ref.current.offsetWidth], absent when
    [ref.current] is null. *)
Definition startResize (offsetWidth : option Q) (clientX : Q) (h : Hook) : Hook :=
  match offsetWidth with
  | None => h                                        (* if (!ref.current) return; *)
  | Some current =>
      {| isResizing := true;
         startWidth := current;
         startX := clientX;
         width := width h;
         height := height h;
         cursor := "se-resize";
         userSelect := "none" |}
  end.

(** [resize(e)] *)
Definition resize (o : ResizableOptions) (clientX : Q) (h : Hook) : Hook :=
  if negb (isResizing h) then h                      (* if (!isResizing.current) return; *)
  else
    let delta := clientX - startX h in
    let newWidth :=
      Mapper.Math_min (Mapper.Math_max (startWidth h + delta) (minWidth o))
                      (maxWidth o) in
    {| isResizing := isResizing h;
       startWidth := startWidth h;
       startX := startX h;
       width := newWidth;
       height := newWidth / aspectRatio o;
       cursor := cursor h;
       userSelect := userSelect h |}.

(** [stopResize()] *)
Definition stopResize (h : Hook) : Hook :=
  {| isResizing := false;
     startWidth := startWidth h;
     startX := startX h;
     width := width h;
     height := height h;
     cursor := "";
     userSelect := "" |}.

(** The three listeners the effect installs. *)
Inductive MouseEvent :=
  | Mousedown (offsetWidth : option Q) (clientX : Q)   (* on the resize handle *)
  | Mousemove (clientX : Q)
  | Mouseup.

(** One event, handled by the listeners of a render that had the options
    [o]. *)
Definition listen (o : ResizableOptions) (e : MouseEvent) (h : Hook) : Hook :=
  match e with
  | Mousedown offsetWidth clientX => startResize offsetWidth clientX h
  | Mousemove clientX => resize o clientX h
  | Mouseup => stopResize h
  end.

(** An event together with the options of the latest render before it.  The
    caller computes the options anew at every render, [resize] is made again
    when they change ([useCallback(..., [minWidth, maxWidth, aspectRatio])])
    and the effect installs the new listener; [width] and [height] are state
    and the refs are refs, all kept from render to render. *)
Record Handled := { options : ResizableOptions; event : MouseEvent }.

Definition listenAll (events : list Handled) (h : Hook) : Hook :=
  fold_left (fun acc e => listen (options e) (event e) acc) events h.

(** The events of the preview of [HandTracking]: the options of each render
    come from the window as it is at that render. *)
Definition trackingEvents (events : list (Mapper.Window * MouseEvent))
  : list Handled :=
  map (fun we => {| options := trackingOptions (fst we); event := snd we |}) events.

(** A move of the mouse to [clientX], handled with the options [o]. *)
Definition moveTo (m : ResizableOptions * Q) : Handled :=
  {| options := fst m; event := Mousemove (snd m) |}.

(** The size the hook returns: within the bounds, the height computed from
    the width as [width / aspectRatio]. *)
Definition wellSized (o : ResizableOptions) (h : Hook) : Prop :=
  minWidth o <= width h /\ width h <= maxWidth o
  /\ height h == width h / aspectRatio o.

End Resizable.

(* ================================================================== *)
(** ** The instruction overlay ([InstructionOverlay])                   *)
(* ================================================================== *)

(** The overlay sets two timers when it mounts and clears them when it
    unmounts.  Times are in milliseconds; a timer fires once the clock has
    reached its deadline, the earlier deadline first. *)
Module Overlay.

Record Overlay := {
  visible : bool;
  showTimeout : option nat;     (* deadline of the timer, while it is set *)
  hideTimeout : option nat }.

(** [useState(false)] and the body of the effect, at time [now]:
    [setTimeout(() => setVisible(true), 1000)],
    [setTimeout(() => setVisible(false), 4000)]. *)
Definition mount (now : nat) : Overlay :=
  {| visible := false;
     showTimeout := Some (now + 1000);
     hideTimeout := Some (now + 4000) |}.

Definition fireShow (o : Overlay) : Overlay :=
  {| visible := true; showTimeout := None; hideTimeout := hideTimeout o |}.

Definition fireHide (o : Overlay) : Overlay :=
  {| visible := false; showTimeout := showTimeout o; hideTimeout := None |}.

Definition due (deadline : option nat) (now : nat) : bool :=
  match deadline with
  | Some d => d <=? now
  | None => false
  end.

(** The timers that are due at time [now] fire, in the order of their
    deadlines. *)
Definition advance (now : nat) (o : Overlay) : Overlay :=
  match showTimeout o, hideTimeout o with
  | Some ds, Some dh =>
      if ds <=? dh
      then (let o1 := if ds <=? now then fireShow o else o in
            if dh <=? now then fireHide o1 else o1)
      else (let o1 := if dh <=? now then fireHide o else o in
            if ds <=? now then fireShow o1 else o1)
  | Some ds, None => if ds <=? now then fireShow o else o
  | None, Some dh => if dh <=? now then fireHide o else o
  | None, None => o
  end.

(** The cleanup: [clearTimeout(showTimeout); clearTimeout(hideTimeout);]. *)
Definition unmount (o : Overlay) : Overlay :=
  {| visible := visible o; showTimeout := None; hideTimeout := None |}.

Definition advanceAll (times : list nat) (o : Overlay) : Overlay :=
  fold_left (fun acc t => advance t acc) times o.

End Overlay.

(* ================================================================== *)
(** ** The canvas component ([LiquidCanvas])                            *)
(* ================================================================== *)

Module Canvas.
Local Open Scope R_scope.

Record LiquidCanvas := {
  containerRef : bool;                            (* [containerRef.current] is set *)
  simulationRef : option Sim.LiquidSimulation }.

(** The first render: [useRef<LiquidSimulation | null>(null)]. *)
Definition render (container : bool) : LiquidCanvas :=
  {| containerRef := container; simulationRef := None |}.

(** The body of the effect. *)
Definition mount (w : Sim.Window) (firstId : nat) (random : nat -> R)
    (now now' : R) (c : LiquidCanvas) : LiquidCanvas :=
  if negb (containerRef c) then c                   (* if (!container) return; *)
  else
    {| containerRef := containerRef c;
       simulationRef := Some (Sim.new w firstId random now now') |}.

(** The cleanup, [simulation.destroy()], on the object both the closure and
    [simulationRef.current] point to. *)
Definition unmount (c : LiquidCanvas) : LiquidCanvas :=
  {| containerRef := containerRef c;
     simulationRef := option_map Sim.destroy (simulationRef c) |}.

(** [simulationRef.current?.updateHandPosition(handIndex, x, y)] *)
Definition handleHandUpdate (handIndex : Z) (x y rnd1 rnd2 : R) (c : LiquidCanvas)
  : LiquidCanvas :=
  match simulationRef c with
  | Some simulation =>
      {| containerRef := containerRef c;
         simulationRef :=
           Some (Sim.updateHandPosition handIndex x y rnd1 rnd2 simulation) |}
  | None => c
  end.

(** [<HandTracking onHandUpdate={handleHandUpdate} />]: the numbers the
    mapper computes reach the simulation.  The second component counts the
    results of [Math.random()] used so far. *)
Definition onHandUpdate (random : nat -> R) (st : LiquidCanvas * nat)
    (u : Mapper.HandUpdate) : LiquidCanvas * nat :=
  (handleHandUpdate (Mapper.handIndex u)
     (Q2R (Mapper.targetX u)) (Q2R (Mapper.targetY u))
     (random (snd st)) (random (S (snd st))) (fst st),
   S (S (snd st))).

(** One call of the [onResults] callback: the landmarks the detector
    reports, and the window as it is when the callback runs (the callback
    reads [window.innerWidth] and [window.innerHeight] each time). *)
Record Results := {
  window : Mapper.Window;
  multiHandLandmarks : option (list (list Mapper.Landmark.t)) }.

(** A sequence of detector results, each passed through the mapper and then
    hand by hand to the simulation. *)
Definition track (canvas : Mapper.Canvas) (random : nat -> R)
    (results : list Results) (c : LiquidCanvas) : LiquidCanvas * nat :=
  fold_left (onHandUpdate random)
            (concat (map (fun r => Mapper.handUpdates (window r) canvas
                                     (multiHandLandmarks r)) results))
            (c, 0%nat).

(** The window [w] is no larger than [bound], in either direction. *)
Definition fitsIn (bound w : Mapper.Window) : Prop :=
  (0 <= Mapper.innerWidth w <= Mapper.innerWidth bound)%Q
  /\ (0 <= Mapper.innerHeight w <= Mapper.innerHeight bound)%Q.

(** The position of a body of the simulation, if both exist. *)
Definition positionOf (c : LiquidCanvas) (ref : nat) : option Sim.Vector.t :=
  match simulationRef c with
  | Some simulation =>
      match Sim.bodies simulation !! ref with
      | Some body => Some (Sim.position body)
      | None => None
      end
  | None => None
  end.

Definition inViewport (w : Mapper.Window) (p : Sim.Vector.t) : Prop :=
  0 <= Sim.Vector.x p <= Q2R (Mapper.innerWidth w)
  /\ 0 <= Sim.Vector.y p <= Q2R (Mapper.innerHeight w).

(** Both hand proxies of the simulation of the canvas lie in the viewport. *)
Definition proxiesInViewport (w : Mapper.Window) (firstId : nat) (c : LiquidCanvas)
  : Prop :=
  exists simulation left right,
    simulationRef c = Some simulation
    /\ Sim.leftHandBody simulation = firstId
    /\ Sim.rightHandBody simulation = S firstId
    /\ Sim.bodies simulation !! firstId = Some left
    /\ Sim.bodies simulation !! S firstId = Some right
    /\ inViewport w (Sim.position left)
    /\ inViewport w (Sim.position right).

End Canvas.

(* ================================================================== *)
(** ** The shape of a new simulation                                    *)
(* ================================================================== *)

Module SimShape.
Import Sim.

(** The number of particles [createParticles] makes: the grid of
    [rows * cols], then the random ones. *)
Definition particleCount (w : Window) : nat :=
  (if isMobile w then 12 else 30) * (if isMobile w then 15 else 40)
  + (if isMobile w then 50 else 200).

(** The list of particles is the run of identities handed out since the
    first particle. *)
Definition consecutive (first : nat) (s : LiquidSimulation) : Prop :=
  (first <= nextId s)%nat /\ particles s = seq first (nextId s - first).

(** Every identity handed out since [first] names a body of the store. *)
Definition allocated (first : nat) (s : LiquidSimulation) : Prop :=
  forall ref, (first <= ref < nextId s)%nat -> is_Some (bodies s !! ref).

End SimShape.

(* ================================================================== *)
(** ** Invariants of the tracking effect                                *)
(* ================================================================== *)

Module Lifecycle.
Import Tracking.

(** The detector is stored only when [initializeTracking] has returned, frames
    are requested or sent only once it is stored, an error ends the
    initialisation without a detector, the detector is created only once the
    camera stream is recorded, and at most one frame is under way. *)
Definition staged (s : State) : Prop :=
  (pc (closure s) <> Returned -> handsRef (refs s) = None)
  /\ (handsRef (refs s) = None ->
      frameRequests (closure s) = 0%nat /\ sendsInFlight (closure s) = 0%nat)
  /\ (error (ui s) <> None ->
      pc (closure s) = Returned /\ handsRef (refs s) = None)
  /\ (handsRef (refs s) <> None ->
      streamRef (refs s) <> None /\ isCameraReady (ui s) = true)
  /\ (forall hands, pc (closure s) = AwaitInitialize hands ->
      streamRef (refs s) <> None /\ isCameraReady (ui s) = true)
  /\ (frameRequests (closure s) + sendsInFlight (closure s) <= 1)%nat.

(** The live tracks are those of the one stream the camera gave, and before
    the camera has answered there is none. *)
Definition accounted (s : State) : Prop :=
  match pc (closure s) with
  | NotCalled | AwaitLoadScript | AwaitGetUserMedia =>
      liveTracks s = [] /\ streamRef (refs s) = None
  | AwaitLoadedData stream =>
      incl (liveTracks s) stream /\ streamRef (refs s) = None
  | AwaitInitialize _ | Returned =>
      forall stream, streamRef (refs s) = Some stream -> incl (liveTracks s) stream
  end.

(** The actions of a cleanup. *)
Definition isRelease (a : Action) : bool :=
  match a with
  | ClearTimeout | StopTrack _ | CloseHands => true
  | _ => false
  end.

(** The effect torn down before its timer has fired. *)
Definition dormant (s : State) : Prop :=
  pc (closure s) = NotCalled
  /\ initTimeout (closure s) = false
  /\ handsRef (refs s) = None
  /\ streamRef (refs s) = None
  /\ frameRequests (closure s) = 0%nat
  /\ sendsInFlight (closure s) = 0%nat
  /\ liveTracks s = [].

End Lifecycle.

(* ================================================================== *)
(** * Properties                                                        *)
(* ================================================================== *)

(** ** The coordinate mapper *)
Module MapperFacts.
Import Mapper.
Local Open Scope Q_scope.

Lemma Math_max_lower a b : a <= Math_max a b.
Proof. apply Q.le_max_l. Qed.

Lemma Math_max_min_upper lo hi v : lo <= hi -> Math_max lo (Math_min hi v) <= hi.
Proof.
  intros Hle. unfold Math_max, Math_min.
  apply Q.max_lub; [exact Hle | apply Q.le_min_l].
Qed.

(** The clamp sends a value above the range to the upper end and a value below
    it to the lower end. *)
Lemma clamp_above hi v : 0 <= hi -> hi <= v -> Math_max 0 (Math_min hi v) == hi.
Proof.
  intros H0 Hv. unfold Math_max, Math_min.
  rewrite (Q.min_l hi v Hv). apply Q.max_r. exact H0.
Qed.

Lemma clamp_below hi v : v <= 0 -> 0 <= hi -> Math_max 0 (Math_min hi v) == 0.
Proof.
  intros Hv H0. unfold Math_max, Math_min.
  apply Q.max_l. eapply Qle_trans; [apply Q.le_min_r | exact Hv].
Qed.

Lemma clamp_inside hi v : 0 <= v -> v <= hi -> Math_max 0 (Math_min hi v) == v.
Proof.
  intros H0 Hv. unfold Math_max, Math_min.
  rewrite (Q.min_r hi v Hv). apply Q.max_r. exact H0.
Qed.

(** The scale factor undoes the multiplication by the canvas size. *)
Lemma mirroredX_formula w c p :
  ~ width c == 0 ->
  mirroredX w c p
  == innerWidth w - (Landmark.x p * (2 * innerWidth w) - 0.5 * innerWidth w).
Proof.
  intros Hc. unfold mirroredX, scaleX, offsetX. field. exact Hc.
Qed.

Lemma unclampedY_formula w c p :
  ~ height c == 0 ->
  unclampedY w c p == Landmark.y p * (2 * innerHeight w) - 0.5 * innerHeight w.
Proof.
  intros Hc. unfold unclampedY, scaleY, offsetY. field. exact Hc.
Qed.

Lemma positive_nonzero q : 0 < q -> ~ q == 0.
Proof. intros Hq He. rewrite He in Hq. exact (Qlt_irrefl 0 Hq). Qed.

Lemma mapHand_within w c index landmarks u :
  0 <= innerWidth w -> 0 <= innerHeight w ->
  mapHand w c index landmarks = Some u -> withinViewport w u.
Proof.
  intros HW HH. unfold mapHand.
  destruct (selectHandPoint w landmarks) as [p |]; [| discriminate].
  intros [= <-]. unfold withinViewport. cbn.
  repeat split;
    first [apply Math_max_lower | apply Math_max_min_upper; assumption].
Qed.

Lemma forEachHand_within w c hands :
  0 <= innerWidth w -> 0 <= innerHeight w ->
  forall index, Forall (withinViewport w) (forEachHand w c index hands).
Proof.
  intros HW HH. induction hands as [| landmarks rest IH]; intros index; cbn.
  - constructor.
  - destruct (mapHand w c index landmarks) as [u |] eqn:E.
    + constructor; [eapply mapHand_within; eassumption | apply IH].
    + apply IH.
Qed.

(** C2. On a viewport of width W and height H and a frame of positive size,
    whatever the landmark (inside the unit square or not): as soon as the chosen
    landmark is present the callback receives a pair, no input is turned away,
    and every pair given to [onHandUpdate] lies in [0, W] x [0, H]. *)
Theorem mapped_position_within_viewport :
  forall (w : Window) (c : Canvas),
    0 <= innerWidth w -> 0 <= innerHeight w ->
    0 < width c -> 0 < height c ->
    (forall (index : nat) (landmarks : list Landmark.t) (p : Landmark.t),
        selectHandPoint w landmarks = Some p ->
        exists u,
          mapHand w c index landmarks = Some u
          /\ handIndex u = Z.of_nat index
          /\ targetX u = mappedX w c p /\ targetY u = mappedY w c p
          /\ withinViewport w u)
    /\ (forall multiHandLandmarks,
           Forall (withinViewport w) (handUpdates w c multiHandLandmarks)).
Proof.
  intros w c HW HH _ _. split.
  - intros index landmarks p Hsel.
    assert (E : mapHand w c index landmarks
                = Some {| handIndex := Z.of_nat index;
                          targetX := mappedX w c p;
                          targetY := mappedY w c p |}).
    { unfold mapHand. rewrite Hsel. reflexivity. }
    eexists. split; [exact E |]. cbn.
    repeat split; try reflexivity;
      first [apply Math_max_lower | apply Math_max_min_upper; assumption].
  - intros [hands |]; cbn; [apply forEachHand_within; assumption | constructor].
Qed.

(** A landmark far outside the unit square, on the desktop layout. *)
Lemma mapped_position_within_viewport_witness :
  let w0 := {| innerWidth := 1920; innerHeight := 1080 |} in
  let far := {| Landmark.x := 7; Landmark.y := -3 |} in
  exists u,
    mapHand w0 (CANVAS_DIMENSIONS w0) 1 (List.repeat far 21) = Some u
    /\ withinViewport w0 u.
Proof.
  cbv zeta.
  destruct (proj1 (mapped_position_within_viewport
                     {| innerWidth := 1920; innerHeight := 1080 |}
                     (CANVAS_DIMENSIONS {| innerWidth := 1920; innerHeight := 1080 |})
                     ltac:(discriminate) ltac:(discriminate)
                     ltac:(reflexivity) ltac:(reflexivity))
                  1%nat
                  (List.repeat {| Landmark.x := 7; Landmark.y := -3 |} 21)
                  {| Landmark.x := 7; Landmark.y := -3 |}
                  ltac:(reflexivity))
    as (u & Hu & _ & _ & _ & Hin).
  exists u. split; assumption.
Defined.

(** C3. At a fixed viewport and a fixed normalized y, the landmarks with x = 0
    and x = 1 are sent to the right and the left edge: the two outputs add up to
    W, as do the two positions before the clamp. *)
Theorem mirrored_outputs_sum_to_width :
  forall (w : Window) (c : Canvas) (ny : Q),
    0 <= innerWidth w -> 0 < width c ->
    let p0 := {| Landmark.x := 0; Landmark.y := ny |} in
    let p1 := {| Landmark.x := 1; Landmark.y := ny |} in
    mappedX w c p0 + mappedX w c p1 == innerWidth w
    /\ mappedX w c p0 == innerWidth w /\ mappedX w c p1 == 0
    /\ mirroredX w c p0 + mirroredX w c p1 == innerWidth w
    /\ mappedY w c p0 = mappedY w c p1.
Proof.
  intros w c ny HW Hc p0 p1.
  pose proof (positive_nonzero _ Hc) as Hc0.
  assert (H0 : mirroredX w c p0 == (3 # 2) * innerWidth w).
  { rewrite mirroredX_formula by assumption. subst p0. cbn. field. }
  assert (H1 : mirroredX w c p1 == - ((1 # 2) * innerWidth w)).
  { rewrite mirroredX_formula by assumption. subst p1. cbn. field. }
  assert (E0 : mappedX w c p0 == innerWidth w).
  { unfold mappedX. apply clamp_above; [exact HW |]. rewrite H0.
    rewrite <- (Qmult_1_l (innerWidth w)) at 1.
    apply Qmult_le_compat_r; [discriminate | exact HW]. }
  assert (E1 : mappedX w c p1 == 0).
  { unfold mappedX. apply clamp_below; [| exact HW]. rewrite H1.
    apply (Qopp_le_compat 0 ((1 # 2) * innerWidth w)).
    apply Qmult_le_0_compat; [discriminate | exact HW]. }
  repeat split.
  - rewrite E0, E1. apply Qplus_0_r.
  - exact E0.
  - exact E1.
  - rewrite H0, H1. field.
Qed.

Lemma mirrored_outputs_sum_to_width_witness :
  let w0 := {| innerWidth := 1920; innerHeight := 1080 |} in
  let c0 := {| width := 640; height := 480 |} in
  mappedX w0 c0 {| Landmark.x := 0; Landmark.y := 0.25 |}
  + mappedX w0 c0 {| Landmark.x := 1; Landmark.y := 0.25 |} == 1920.
Proof.
  cbv zeta.
  refine (proj1 (mirrored_outputs_sum_to_width
                   {| innerWidth := 1920; innerHeight := 1080 |}
                   {| width := 640; height := 480 |} 0.25 _ _));
    cbn; [discriminate | reflexivity].
Defined.

End MapperFacts.

(** ** The coordinate mapper, as computed *)
Module Mapper64Facts.
Import PrimFloat Mapper64.
Local Open Scope float_scope.
#[local] Set Warnings "-inexact-float".



End Mapper64Facts.

(** ** The simulation driver *)
Module SimFacts.
Import Sim.
Local Open Scope R_scope.

(** *** The store under [mutate] *)
Lemma mutate_lookup_same ref f s :
  bodies (mutate ref f s) !! ref = f <$> bodies s !! ref.
Proof. cbn. apply lookup_alter_eq. Qed.

Lemma mutate_lookup_other ref f s ref' :
  ref <> ref' -> bodies (mutate ref f s) !! ref' = bodies s !! ref'.
Proof. intros Hne. cbn. apply lookup_alter_ne. exact Hne. Qed.

Lemma selectHandBody_zero s : selectHandBody s 0 = leftHandBody s.
Proof. reflexivity. Qed.

Lemma selectHandBody_nonzero s handIndex :
  handIndex <> 0%Z -> selectHandBody s handIndex = rightHandBody s.
Proof.
  intros Hne. unfold selectHandBody.
  destruct (Z.eqb_spec handIndex 0) as [E | _]; [contradiction | reflexivity].
Qed.

(** The force of one update, from the two random draws. *)
Lemma random_force_range rnd :
  0 <= rnd < 1 -> -0.00005 <= (rnd - 0.5) * 0.0001 <= 0.00005.
Proof. intros [Hlo Hhi]. lra. Qed.

(** The map from the draw to the force component is affine, from [0, 1) onto
    [-0.00005, 0.00005): it carries the uniform draw to a uniform force. *)
Lemma random_force_onto f :
  -0.00005 <= f < 0.00005 ->
  exists rnd, 0 <= rnd < 1 /\ (rnd - 0.5) * 0.0001 = f.
Proof.
  intros [Hlo Hhi]. exists (f * 10000 + 0.5).
  split; [split |]; lra.
Qed.

(** C4. One call of [updateHandPosition(handIndex, x, y)] on the selected
    proxy: first a force whose components are the draws of [Math.random()]
    shifted and scaled into [-0.00005, 0.00005], then the velocity 1.2 times
    the displacement from the current position to the target, then the
    position, set to the target. *)
Theorem update_applies_force_velocity_position :
  forall (s : LiquidSimulation) (handIndex : Z) (x y rnd1 rnd2 : R) (body : Body),
    0 <= rnd1 < 1 -> 0 <= rnd2 < 1 ->
    bodies s !! selectHandBody s handIndex = Some body ->
    let push := {| Vector.x := (rnd1 - 0.5) * 0.0001;
                   Vector.y := (rnd2 - 0.5) * 0.0001 |} in
    let forced := Body_applyForce body (position body) push in
    let moving :=
      Body_setVelocity forced
        {| Vector.x := (x - Vector.x (position body)) * 1.2;
           Vector.y := (y - Vector.y (position body)) * 1.2 |} in
    let placed := Body_setPosition moving {| Vector.x := x; Vector.y := y |} in
    bodies (updateHandPosition handIndex x y rnd1 rnd2 s)
      !! selectHandBody s handIndex = Some placed
    /\ (-0.00005 <= Vector.x push <= 0.00005
        /\ -0.00005 <= Vector.y push <= 0.00005)
    /\ (Vector.x (force placed) = Vector.x (force body) + Vector.x push
        /\ Vector.y (force placed) = Vector.y (force body) + Vector.y push
        /\ torque placed = torque body)
    /\ velocity placed
       = {| Vector.x := (x - Vector.x (position body)) * 1.2;
            Vector.y := (y - Vector.y (position body)) * 1.2 |}
    /\ position placed = {| Vector.x := x; Vector.y := y |}.
Proof.
  intros s handIndex x y rnd1 rnd2 body H1 H2 Hbody push forced moving placed.
  split; [| split; [| split; [| split]]].
  - unfold updateHandPosition. rewrite mutate_lookup_same, Hbody. reflexivity.
  - split; apply random_force_range; assumption.
  - cbn. repeat split; try reflexivity. ring.
  - reflexivity.
  - reflexivity.
Qed.

(** On the object as the constructor leaves the two hands, moving the left
    one from the origin to (300, 200). *)
Lemma update_applies_force_velocity_position_witness :
  let w0 := {| innerWidth := 1920; innerHeight := 1080; devicePixelRatio := 1 |} in
  exists placed,
    bodies (updateHandPosition 0 300 200 0.25 0.75 (createHandBodies w0 0))
      !! 0%nat = Some placed
    /\ velocity placed = {| Vector.x := (300 - 0) * 1.2; Vector.y := (200 - 0) * 1.2 |}
    /\ position placed = {| Vector.x := 300; Vector.y := 200 |}.
Proof.
  cbv zeta.
  pose proof (update_applies_force_velocity_position
                (createHandBodies {| innerWidth := 1920; innerHeight := 1080; devicePixelRatio := 1 |} 0)
                0 300 200 0.25 0.75 leftHand
                ltac:(lra) ltac:(lra) ltac:(reflexivity))
    as (Hlook & _ & _ & Hv & Hp).
  eexists. split; [exact Hlook | split; [exact Hv | exact Hp]].
Defined.

(** C10. With an index other than 0 (1, 2, a negative number, ...) the right
    proxy is the one selected and updated; the left one is selected by 0 alone,
    and whatever the index no body other than the two proxies changes, nor does
    the world or the list of particles. *)
Theorem nonzero_index_updates_right_proxy :
  forall (s : LiquidSimulation) (handIndex : Z) (x y rnd1 rnd2 : R),
    handIndex <> 0%Z ->
    selectHandBody s handIndex = rightHandBody s
    /\ bodies (updateHandPosition handIndex x y rnd1 rnd2 s) !! rightHandBody s
       = moveHandBody x y rnd1 rnd2 <$> bodies s !! rightHandBody s
    /\ (forall ref, ref <> rightHandBody s ->
          bodies (updateHandPosition handIndex x y rnd1 rnd2 s) !! ref
          = bodies s !! ref)
    /\ (forall (i : Z) ref,
          ref <> leftHandBody s -> ref <> rightHandBody s ->
          bodies (updateHandPosition i x y rnd1 rnd2 s) !! ref = bodies s !! ref)
    /\ (forall i : Z,
          leftHandBody s <> rightHandBody s ->
          selectHandBody s i = leftHandBody s -> i = 0%Z)
    /\ world (updateHandPosition handIndex x y rnd1 rnd2 s) = world s
    /\ particles (updateHandPosition handIndex x y rnd1 rnd2 s) = particles s.
Proof.
  intros s handIndex x y rnd1 rnd2 Hne.
  pose proof (selectHandBody_nonzero s handIndex Hne) as Hsel.
  split; [exact Hsel |]. split; [| split; [| split; [| split; [| split]]]].
  - unfold updateHandPosition. rewrite Hsel. apply mutate_lookup_same.
  - intros ref Href. unfold updateHandPosition. rewrite Hsel.
    apply mutate_lookup_other. congruence.
  - intros i ref Hl Hr. unfold updateHandPosition.
    apply mutate_lookup_other. unfold selectHandBody.
    destruct (i =? 0)%Z; congruence.
  - intros i Hdistinct. unfold selectHandBody.
    destruct (Z.eqb_spec i 0) as [E | _]; [intros _; exact E | congruence].
  - reflexivity.
  - reflexivity.
Qed.

Lemma nonzero_index_updates_right_proxy_witness :
  let s0 := createHandBodies {| innerWidth := 1920; innerHeight := 1080; devicePixelRatio := 1 |} 0 in
  selectHandBody s0 2 = 1%nat
  /\ selectHandBody s0 (-1) = 1%nat
  /\ bodies (updateHandPosition 2 300 200 0.25 0.75 s0) !! 0%nat = Some leftHand.
Proof.
  cbv zeta.
  split; [| split].
  - exact (proj1 (nonzero_index_updates_right_proxy
                    (createHandBodies {| innerWidth := 1920; innerHeight := 1080; devicePixelRatio := 1 |} 0)
                    2 300 200 0.25 0.75 ltac:(discriminate))).
  - exact (proj1 (nonzero_index_updates_right_proxy
                    (createHandBodies {| innerWidth := 1920; innerHeight := 1080; devicePixelRatio := 1 |} 0)
                    (-1) 300 200 0.25 0.75 ltac:(discriminate))).
  - destruct (nonzero_index_updates_right_proxy
                (createHandBodies {| innerWidth := 1920; innerHeight := 1080; devicePixelRatio := 1 |} 0)
                2 300 200 0.25 0.75 ltac:(discriminate))
      as (_ & _ & Hother & _).
    rewrite (Hother 0%nat ltac:(discriminate)). reflexivity.
Defined.

(** *** Gentle mutations and benign steps *)
Lemma gentle_moveHandBody x y rnd1 rnd2 : gentle (moveHandBody x y rnd1 rnd2).
Proof. intros body. split; [reflexivity | intros H; exact H]. Qed.

Lemma gentle_recolor cap : gentle (recolor cap).
Proof.
  intros body. unfold recolor.
  destruct (render body) as [r |] eqn:E; cbn.
  - split; [reflexivity | intros _; eexists; reflexivity].
  - rewrite E. split; [reflexivity | intros H; exact H].
Qed.

Lemma gentle_fade o : gentle (fade o).
Proof.
  intros body. unfold fade.
  destruct (render body) as [r |] eqn:E; cbn.
  - split; [reflexivity | intros _; eexists; reflexivity].
  - rewrite E. split; [reflexivity | intros H; exact H].
Qed.

Lemma gentle_integrate (physics : Body -> Motion) :
  gentle (fun body => integrate (physics body) body).
Proof. intros body. split; [reflexivity | intros H; exact H]. Qed.

Lemma benign_refl s : benign s s.
Proof. unfold benign. repeat split; auto. Qed.

Lemma benign_trans s1 s2 s3 : benign s1 s2 -> benign s2 s3 -> benign s1 s3.
Proof.
  intros (L1 & R1 & P1 & M1 & N1 & H1 & D1) (L2 & R2 & P2 & M2 & N2 & H2 & D2).
  unfold benign.
  split; [congruence |]. split; [congruence |]. split; [congruence |].
  split; [congruence |]. split; [congruence |]. split.
  - intros ref. rewrite H2. apply H1.
  - intros ref Href. apply D2, D1, Href.
Qed.

Lemma mutate_isHandProxy ref f s ref' :
  gentle f -> isHandProxy (mutate ref f s) ref' = isHandProxy s ref'.
Proof.
  intros Hf. unfold isHandProxy.
  destruct (Nat.eq_dec ref ref') as [<- | Hne].
  - rewrite mutate_lookup_same.
    destruct (bodies s !! ref) as [body |]; cbn; [| reflexivity].
    rewrite (proj1 (Hf body)). reflexivity.
  - rewrite mutate_lookup_other by exact Hne. reflexivity.
Qed.

Lemma mutate_hasRender ref f s ref' :
  gentle f -> hasRender s ref' -> hasRender (mutate ref f s) ref'.
Proof.
  intros Hf (body & Hbody & Hr). unfold hasRender.
  destruct (Nat.eq_dec ref ref') as [<- | Hne].
  - rewrite mutate_lookup_same, Hbody. cbn.
    exists (f body). split; [reflexivity | apply (Hf body), Hr].
  - rewrite mutate_lookup_other by exact Hne. exists body. split; assumption.
Qed.

Lemma benign_mutate ref f s : gentle f -> benign s (mutate ref f s).
Proof.
  intros Hf. unfold benign. repeat split; try reflexivity.
  - intros ref'. apply mutate_isHandProxy, Hf.
  - intros ref'. apply mutate_hasRender, Hf.
Qed.

(** A [forEach] of gentle mutations over any list of references. *)
Lemma benign_fold (g : BodyRef -> Body -> Body) (refs : list BodyRef) :
  (forall ref, gentle (g ref)) ->
  forall s, benign s (fold_left (fun acc ref => mutate ref (g ref) acc) refs s).
Proof.
  intros Hg. induction refs as [| ref rest IH]; intros s; cbn.
  - apply benign_refl.
  - eapply benign_trans; [apply benign_mutate, Hg | apply IH].
Qed.

Lemma fold_mutate_world (g : BodyRef -> Body -> Body) (refs : list BodyRef) s :
  world (fold_left (fun acc ref => mutate ref (g ref) acc) refs s) = world s.
Proof.
  revert s. induction refs as [| ref rest IH]; intros s; cbn; [reflexivity |].
  rewrite IH. reflexivity.
Qed.

Lemma benign_updateHandPosition handIndex x y rnd1 rnd2 s :
  benign s (updateHandPosition handIndex x y rnd1 rnd2 s).
Proof. apply benign_mutate, gentle_moveHandBody. Qed.

Lemma benign_forEachParticle f s : gentle f -> benign s (forEachParticle f s).
Proof. intros Hf. apply (benign_fold (fun _ => f)). intros _. exact Hf. Qed.

Lemma benign_updateParticleColors s : benign s (updateParticleColors s).
Proof. apply benign_forEachParticle, gentle_recolor. Qed.

Lemma benign_engineUpdate physics s : benign s (engineUpdate physics s).
Proof.
  apply (benign_fold (fun ref body => integrate (physics ref body) body)).
  intros ref. apply gentle_integrate.
Qed.

Lemma benign_setParticleOpacity o s : benign s (setParticleOpacity o s).
Proof. unfold benign. repeat split; auto. Qed.

Lemma benign_animateFadeIn now s : benign s (fst (animateFadeIn now s)).
Proof.
  unfold animateFadeIn. cbn [fst].
  eapply benign_trans; [apply benign_setParticleOpacity |].
  apply benign_forEachParticle, gentle_fade.
Qed.

Lemma benign_handleResize w s : benign s (handleResize w s).
Proof. unfold benign. repeat split; auto. Qed.

Lemma benign_destroy s : benign s (destroy s).
Proof. unfold benign. repeat split; auto. Qed.

Lemma benign_start now s : benign s (start now s).
Proof. unfold benign. repeat split; auto. Qed.

Lemma benign_call c s : benign s (call c s).
Proof.
  destruct c; cbn [call].
  - apply benign_updateHandPosition.
  - eapply benign_trans; [apply benign_engineUpdate | apply benign_updateParticleColors].
  - apply benign_animateFadeIn.
  - apply benign_handleResize.
  - apply benign_destroy.
Qed.

Lemma benign_session calls s : benign s (session calls s).
Proof.
  unfold session. revert s. induction calls as [| c rest IH]; intros s; cbn.
  - apply benign_refl.
  - eapply benign_trans; [apply benign_call | apply IH].
Qed.

Lemma benign_handsInv firstId s s' :
  benign s s' -> handsInv firstId s -> handsInv firstId s'.
Proof.
  intros (L & R & P & M & N & H & D) (I1 & I2 & I3 & I4 & I5 & I6 & I7 & I8 & I9).
  unfold handsInv. rewrite L, R, P, M, N, !H.
  repeat split; try assumption.
  - intros ref Href. rewrite H. apply I5, Href.
  - eapply Forall_impl; [exact I7 | exact D].
Qed.

(** *** The world under the calls *)
Lemma world_updateParticleColors s : world (updateParticleColors s) = world s.
Proof. apply (fold_mutate_world (fun _ => recolor (maxVelocity s))). Qed.

Lemma world_engineUpdate physics s : world (engineUpdate physics s) = world s.
Proof.
  apply (fold_mutate_world (fun ref body => integrate (physics ref body) body)).
Qed.

Lemma world_animateFadeIn now s : world (fst (animateFadeIn now s)) = world s.
Proof.
  unfold animateFadeIn. cbn [fst]. unfold forEachParticle.
  rewrite fold_mutate_world with (g := fun _ => fade _). reflexivity.
Qed.

Lemma world_call c s : world (call c s) = if isDestroy c then [] else world s.
Proof.
  destruct c; cbn [call isDestroy].
  - reflexivity.
  - rewrite world_updateParticleColors. apply world_engineUpdate.
  - apply world_animateFadeIn.
  - reflexivity.
  - reflexivity.
Qed.

Lemma world_session_empty calls s : world s = [] -> world (session calls s) = [].
Proof.
  unfold session. revert s. induction calls as [| c rest IH]; intros s Hs; cbn.
  - exact Hs.
  - apply IH. rewrite world_call, Hs. destruct (isDestroy c); reflexivity.
Qed.

Lemma world_session calls s :
  world (session calls s) = if existsb isDestroy calls then [] else world s.
Proof.
  unfold session. revert s. induction calls as [| c rest IH]; intros s; cbn.
  - reflexivity.
  - destruct (isDestroy c) eqn:E; cbn.
    + apply (world_session_empty rest). rewrite world_call, E. reflexivity.
    + rewrite IH, world_call, E. reflexivity.
Qed.

(** With the invariants, the hand proxies of the world are the two. *)
Lemma filter_later_bodies firstId s rest :
  (forall ref, (S firstId < ref)%nat -> isHandProxy s ref = false) ->
  Forall (lt (S firstId)) rest ->
  List.filter (isHandProxy s) rest = [].
Proof.
  intros Hlate Hrest. induction Hrest as [| ref rest Href _ IH]; [reflexivity |].
  cbn. rewrite (Hlate ref Href). exact IH.
Qed.

(** *** The constructor establishes the invariants *)
Lemma for_invariant {St : Type} (P : St -> Prop) (body : nat -> St -> St) :
  (forall i st, P st -> P (body i st)) ->
  forall count i st, P st -> P (for_ count i body st).
Proof.
  intros Hbody. induction count as [| count IH]; intros i st Hst; cbn.
  - exact Hst.
  - apply IH, Hbody, Hst.
Qed.

Lemma createHandBodies_handsInv w firstId :
  handsInv firstId (createHandBodies w firstId)
  /\ worldInv firstId (createHandBodies w firstId).
Proof.
  split.
  - unfold handsInv, isHandProxy. cbn.
    rewrite lookup_insert_eq.
    rewrite lookup_insert_ne by lia. rewrite lookup_insert_eq.
    repeat split; try reflexivity; try constructor.
    intros ref Href.
    rewrite !lookup_insert_ne by lia. rewrite lookup_empty. reflexivity.
  - exists []. split; [reflexivity | constructor].
Qed.

Lemma newBody_hasRender b s :
  is_Some (render b) -> hasRender (snd (newBody b s)) (nextId s).
Proof.
  intros Hb. exists b. cbn. split; [apply lookup_insert_eq | exact Hb].
Qed.

Lemma newBody_keeps_hasRender b s ref :
  is_Some (render b) -> hasRender s ref -> hasRender (snd (newBody b s)) ref.
Proof.
  intros Hb (body & Hbody & Hr).
  destruct (Nat.eq_dec (nextId s) ref) as [<- | Hne].
  - apply newBody_hasRender, Hb.
  - exists body. cbn. rewrite lookup_insert_ne by exact Hne. split; assumption.
Qed.

Lemma newBody_handsInv firstId b s :
  category (collisionFilter b) <> 0x0002%Z ->
  is_Some (render b) ->
  handsInv firstId s -> handsInv firstId (snd (newBody b s)).
Proof.
  intros Hcat Hb (I1 & I2 & I3 & I4 & I5 & I6 & I7 & I8 & I9).
  unfold handsInv, isHandProxy in *. cbn.
  rewrite !lookup_insert_ne by lia.
  repeat split; try assumption; try lia.
  - intros ref Href.
    destruct (Nat.eq_dec (nextId s) ref) as [<- | Hne].
    + rewrite lookup_insert_eq. apply Z.eqb_neq, Hcat.
    + rewrite lookup_insert_ne by exact Hne. apply I5, Href.
  - eapply Forall_impl; [exact I7 |].
    intros ref Href. apply (newBody_keeps_hasRender b s ref Hb Href).
Qed.

Lemma pushParticle_handsInv firstId p s :
  hasRender s p -> (S firstId < p)%nat ->
  handsInv firstId s -> handsInv firstId (pushParticle p s).
Proof.
  intros Hp Hlt (I1 & I2 & I3 & I4 & I5 & I6 & I7 & I8 & I9).
  unfold handsInv. cbn.
  repeat split; try assumption.
  - apply Forall_app. split; [exact I7 | constructor; [exact Hp | constructor]].
  - apply Forall_app. split; [exact I8 | constructor; [exact Hlt | constructor]].
Qed.

Lemma Composite_add_worldInv firstId refs s :
  Forall (lt (S firstId)) refs ->
  worldInv firstId s -> worldInv firstId (Composite_add refs s).
Proof.
  intros Hrefs (rest & Hw & Hrest). exists (rest ++ refs). cbn. split.
  - rewrite Hw. reflexivity.
  - apply Forall_app. split; assumption.
Qed.

Lemma particle_buildInv firstId x y s :
  buildInv firstId s ->
  buildInv firstId (pushParticle (nextId s) (snd (newBody (particleBody x y) s))).
Proof.
  intros [Hh Hw]. split.
  - apply pushParticle_handsInv.
    + apply newBody_hasRender. eexists; reflexivity.
    + apply Hh.
    + apply newBody_handsInv; [discriminate | eexists; reflexivity | exact Hh].
  - exact Hw.
Qed.

Lemma gridParticle_buildInv firstId w random cols row col st :
  buildInv firstId (fst st) ->
  buildInv firstId (fst (gridParticle w random cols row col st)).
Proof. destruct st as [s k]. cbn. apply particle_buildInv. Qed.

Lemma randomParticle_buildInv firstId w random i st :
  buildInv firstId (fst st) ->
  buildInv firstId (fst (randomParticle w random i st)).
Proof. destruct st as [s k]. cbn. apply particle_buildInv. Qed.

Lemma wall_buildInv firstId x y width height s :
  buildInv firstId s ->
  buildInv firstId (snd (newBody (wall x y width height) s))
  /\ (S firstId < nextId s)%nat.
Proof.
  intros [Hh Hw]. split; [split |].
  - apply newBody_handsInv; [discriminate | eexists; reflexivity | exact Hh].
  - exact Hw.
  - apply Hh.
Qed.

Lemma createBoundaries_buildInv firstId w s :
  buildInv firstId s -> buildInv firstId (createBoundaries w s).
Proof.
  intros H0. unfold createBoundaries.
  destruct (wall_buildInv firstId (innerWidth w / 2) (innerHeight w + 50)
              (innerWidth w) 100 s H0) as [H1 L1].
  destruct (newBody (wall (innerWidth w / 2) (innerHeight w + 50)
                          (innerWidth w) 100) s) as [bottom s1] eqn:E1.
  assert (bottom = nextId s) as -> by (inversion E1; reflexivity).
  cbn [snd] in H1.
  destruct (wall_buildInv firstId (-50) (innerHeight w / 2) 100
              (innerHeight w) s1 H1) as [H2 L2].
  destruct (newBody (wall (-50) (innerHeight w / 2) 100 (innerHeight w)) s1)
    as [leftWall s2] eqn:E2.
  assert (leftWall = nextId s1) as -> by (inversion E2; reflexivity).
  cbn [snd] in H2.
  destruct (wall_buildInv firstId (innerWidth w + 50) (innerHeight w / 2) 100
              (innerHeight w) s2 H2) as [H3 L3].
  destruct (newBody (wall (innerWidth w + 50) (innerHeight w / 2) 100
                          (innerHeight w)) s2) as [rightWall s3] eqn:E3.
  assert (rightWall = nextId s2) as -> by (inversion E3; reflexivity).
  cbn [snd] in H3.
  destruct H3 as [Hh Hw]. split; [exact Hh |].
  apply Composite_add_worldInv; [| exact Hw].
  repeat constructor; assumption.
Qed.

Lemma createParticles_buildInv firstId w random s :
  buildInv firstId s -> buildInv firstId (createParticles w random s).
Proof.
  intros H0. unfold createParticles.
  set (rows := if isMobile w then 12%nat else 30%nat).
  set (cols := if isMobile w then 15%nat else 40%nat).
  set (extra := if isMobile w then 50%nat else 200%nat).
  set (P := fun st : Build => buildInv firstId (fst st)).
  assert (H1 : P (for_ rows 0
                    (fun row => for_ cols 0 (fun col => gridParticle w random cols row col))
                    (s, 0%nat))).
  { apply for_invariant; [| exact H0].
    intros row st Hst. apply for_invariant; [| exact Hst].
    intros col st' Hst'. apply gridParticle_buildInv, Hst'. }
  assert (H2 : P (for_ extra 0 (randomParticle w random)
                    (for_ rows 0
                       (fun row => for_ cols 0
                                     (fun col => gridParticle w random cols row col))
                       (s, 0%nat)))).
  { apply for_invariant; [| exact H1].
    intros i st Hst. apply randomParticle_buildInv, Hst. }
  destruct H2 as [Hh Hw]. split; [exact Hh |].
  apply Composite_add_worldInv; [apply Hh | exact Hw].
Qed.

Lemma benign_buildInv firstId s s' :
  benign s s' -> world s' = world s -> buildInv firstId s -> buildInv firstId s'.
Proof.
  intros Hb Hw [Hh (rest & Hrest & Hlt)]. split.
  - eapply benign_handsInv; eassumption.
  - exists rest. rewrite Hw. split; assumption.
Qed.

Lemma new_buildInv w firstId random now now' :
  buildInv firstId (new w firstId random now now').
Proof.
  unfold new, createDraggableObjects.
  eapply benign_buildInv;
    [apply benign_animateFadeIn | apply world_animateFadeIn |].
  eapply benign_buildInv; [apply benign_start | reflexivity |].
  apply createParticles_buildInv, createBoundaries_buildInv.
  apply createHandBodies_handsInv.
Qed.

Lemma session_handsInv w firstId random now now' calls :
  handsInv firstId (session calls (new w firstId random now now')).
Proof.
  eapply benign_handsInv; [apply benign_session |].
  apply new_buildInv.
Qed.

Lemma buildInv_handProxies firstId s :
  buildInv firstId s -> handProxies s = [firstId; S firstId].
Proof.
  intros [(I1 & I2 & I3 & I4 & I5 & _) (rest & Hw & Hrest)].
  unfold handProxies. rewrite Hw. cbn. rewrite I3, I4.
  rewrite (filter_later_bodies firstId s rest I5 Hrest). reflexivity.
Qed.

Lemma session_buildInv w firstId random now now' calls :
  existsb isDestroy calls = false ->
  buildInv firstId (session calls (new w firstId random now now')).
Proof.
  intros Hnone. eapply benign_buildInv.
  - apply benign_session.
  - rewrite world_session, Hnone. reflexivity.
  - apply new_buildInv.
Qed.

Lemma isHandProxy_is_Some s ref : isHandProxy s ref = true -> is_Some (bodies s !! ref).
Proof.
  unfold isHandProxy. destruct (bodies s !! ref) as [body |]; [eauto | discriminate].
Qed.

(** C5. The constructor creates the two hand proxies, with two identities;
    along any sequence of calls the fields keep these identities and the hand
    proxies of the world are exactly these two until [destroy], after which
    there is none; index 0 updates the left proxy, index 1 the right one, and
    neither touches the other. *)
Theorem two_persistent_hand_proxies :
  forall (w : Window) (firstId : BodyRef) (random : nat -> R) (now now' : R)
         (calls : list Call),
    let s0 := new w firstId random now now' in
    let s := session calls s0 in
    (handProxies s0 = [leftHandBody s0; rightHandBody s0]
     /\ leftHandBody s0 <> rightHandBody s0)
    /\ (leftHandBody s = leftHandBody s0 /\ rightHandBody s = rightHandBody s0)
    /\ handProxies s
       = (if existsb isDestroy calls then []
          else [leftHandBody s0; rightHandBody s0])
    /\ (is_Some (bodies s !! leftHandBody s0)
        /\ is_Some (bodies s !! rightHandBody s0))
    /\ (forall x y rnd1 rnd2,
          let s' := updateHandPosition 0 x y rnd1 rnd2 s in
          selectHandBody s 0 = leftHandBody s0
          /\ bodies s' !! leftHandBody s0
             = moveHandBody x y rnd1 rnd2 <$> bodies s !! leftHandBody s0
          /\ bodies s' !! rightHandBody s0 = bodies s !! rightHandBody s0)
    /\ (forall x y rnd1 rnd2,
          let s' := updateHandPosition 1 x y rnd1 rnd2 s in
          selectHandBody s 1 = rightHandBody s0
          /\ bodies s' !! rightHandBody s0
             = moveHandBody x y rnd1 rnd2 <$> bodies s !! rightHandBody s0
          /\ bodies s' !! leftHandBody s0 = bodies s !! leftHandBody s0).
Proof.
  intros w firstId random now now' calls s0 s.
  pose proof (new_buildInv w firstId random now now') as B0. fold s0 in B0.
  pose proof (session_handsInv w firstId random now now' calls) as Hs.
  fold s0 in Hs. fold s in Hs.
  destruct B0 as [(L0 & R0 & _) W0].
  assert (B0 : buildInv firstId s0).
  { apply new_buildInv. }
  destruct Hs as (L & R & HL & HR & _).
  rewrite L0, R0, L, R.
  split; [split; [apply buildInv_handProxies, B0 | lia] |].
  split; [split; reflexivity |].
  split.
  { destruct (existsb isDestroy calls) eqn:E.
    - unfold handProxies. subst s. rewrite world_session, E. reflexivity.
    - apply buildInv_handProxies. subst s s0. apply session_buildInv, E. }
  split; [split; apply isHandProxy_is_Some; assumption |].
  split; intros x y rnd1 rnd2 s'; subst s'; unfold updateHandPosition, selectHandBody;
    cbn [Z.eqb]; rewrite ?L, ?R.
  - split; [reflexivity |]. split.
    + apply mutate_lookup_same.
    + apply mutate_lookup_other. lia.
  - split; [reflexivity |]. split.
    + apply mutate_lookup_same.
    + apply mutate_lookup_other. lia.
Qed.

(** *** Recolouring *)
Lemma speed_squares (v : Vector.t) :
  sqrt (Vector.x v * Vector.x v + Vector.y v * Vector.y v) = ColourSpec.speed v.
Proof. unfold ColourSpec.speed. f_equal. ring. Qed.

Lemma recolor_spec body r :
  render body = Some r ->
  recolor 15 body
  = Body_setRender body
      (Some (Render_setStrokeStyle r (ColourSpec.colour (velocity body)))).
Proof.
  intros Hr. unfold recolor. rewrite Hr. rewrite speed_squares.
  unfold ColourSpec.colour, ColourSpec.hue, ColourSpec.lightness,
    ColourSpec.normalized.
  do 3 f_equal. f_equal. ring.
Qed.

Lemma recolor_idempotent cap body : recolor cap (recolor cap body) = recolor cap body.
Proof.
  unfold recolor. destruct (render body) as [r |] eqn:E; cbn; [| rewrite E];
    reflexivity.
Qed.

Lemma forEach_lookup_outside f refs ref :
  ~ In ref refs ->
  forall s,
    bodies (fold_left (fun acc r => mutate r f acc) refs s) !! ref = bodies s !! ref.
Proof.
  induction refs as [| r rest IH]; intros Hout s; cbn; [reflexivity |].
  rewrite IH by (intros Hin; apply Hout; right; exact Hin).
  apply mutate_lookup_other. intros ->. apply Hout. left. reflexivity.
Qed.

(** A [forEach] of an idempotent mutation changes each listed body as one
    application does, even if a body is listed more than once. *)
Lemma forEach_lookup_inside f refs ref :
  (forall body, f (f body) = f body) ->
  In ref refs ->
  forall s,
    bodies (fold_left (fun acc r => mutate r f acc) refs s) !! ref
    = f <$> bodies s !! ref.
Proof.
  intros Hf. induction refs as [| r rest IH]; intros Hin s; [destruct Hin |].
  cbn [fold_left].
  destruct (in_dec Nat.eq_dec ref rest) as [Hrest | Hrest].
  - rewrite (IH Hrest).
    destruct (Nat.eq_dec r ref) as [-> | Hne].
    + rewrite mutate_lookup_same.
      destruct (bodies s !! ref) as [body |]; cbn; [rewrite Hf |]; reflexivity.
    + rewrite mutate_lookup_other by exact Hne. reflexivity.
  - rewrite (forEach_lookup_outside f rest ref Hrest).
    destruct Hin as [-> | Hin]; [apply mutate_lookup_same | contradiction].
Qed.

Lemma updateParticleColors_lookup s particle :
  In particle (particles s) ->
  bodies (updateParticleColors s) !! particle
  = recolor (maxVelocity s) <$> bodies s !! particle.
Proof.
  intros Hin. unfold updateParticleColors, forEachParticle.
  apply forEach_lookup_inside; [apply recolor_idempotent | exact Hin].
Qed.

(** The two ends of the colour scale. *)
Lemma colour_at_rest :
  ColourSpec.hue (ColourSpec.normalized 0) = 180
  /\ ColourSpec.lightness (ColourSpec.normalized 0) = 50.
Proof.
  unfold ColourSpec.hue, ColourSpec.lightness, ColourSpec.normalized.
  rewrite Rmin_left by lra. split; lra.
Qed.

Lemma colour_at_cap speed :
  15 <= speed ->
  ColourSpec.hue (ColourSpec.normalized speed) = 0
  /\ ColourSpec.lightness (ColourSpec.normalized speed) = 70.
Proof.
  intros Hcap.
  unfold ColourSpec.hue, ColourSpec.lightness, ColourSpec.normalized.
  rewrite Rmin_right by lra. split; lra.
Qed.

Lemma speed_of_rest : ColourSpec.speed Vector.zero = 0.
Proof.
  unfold ColourSpec.speed, Vector.zero. cbn [Vector.x Vector.y].
  replace (0 ^ 2 + 0 ^ 2) with 0 by ring. apply sqrt_0.
Qed.

(** The normalized speed only depends on the speed capped at 15. *)
Lemma normalized_capped speed : ColourSpec.normalized speed = Rmin speed 15 / 15.
Proof.
  unfold ColourSpec.normalized, Rmin.
  destruct (Rle_dec (speed / 15) 1), (Rle_dec speed 15); lra.
Qed.

Lemma hue_antitone speed1 speed2 :
  Rmin speed2 15 <= Rmin speed1 15 ->
  ColourSpec.hue (ColourSpec.normalized speed1)
  <= ColourSpec.hue (ColourSpec.normalized speed2).
Proof.
  intros Hle. rewrite !normalized_capped. unfold ColourSpec.hue. lra.
Qed.

Lemma capped_monotone speed1 speed2 :
  speed2 <= speed1 -> Rmin speed2 15 <= Rmin speed1 15.
Proof. intros Hle. apply Rle_min_compat_r, Hle. Qed.

Lemma strokeOf_recoloured s particle body r :
  maxVelocity s = 15 ->
  In particle (particles s) ->
  bodies s !! particle = Some body -> render body = Some r ->
  bodies (updateParticleColors s) !! particle
  = Some (Body_setRender body
            (Some (Render_setStrokeStyle r (ColourSpec.colour (velocity body)))))
  /\ strokeOf (updateParticleColors s) particle
     = Some (ColourSpec.colour (velocity body)).
Proof.
  intros Hcap Hin Hbody Hr.
  assert (E : bodies (updateParticleColors s) !! particle
              = Some (Body_setRender body
                        (Some (Render_setStrokeStyle r
                                 (ColourSpec.colour (velocity body)))))).
  { rewrite (updateParticleColors_lookup s particle Hin), Hcap, Hbody. cbn.
    rewrite (recolor_spec body r Hr). reflexivity. }
  split; [exact E |]. unfold strokeOf. rewrite E. reflexivity.
Qed.

(** The first particle of the grid is a particle of the new object. *)
Lemma for_unfold {St : Type} count i (body : nat -> St -> St) st :
  for_ (S count) i body st = for_ count (S i) body (body i st).
Proof. reflexivity. Qed.

Lemma createParticles_first w random s :
  In (nextId s) (particles (createParticles w random s)).
Proof.
  unfold createParticles. cbn [particles Composite_add].
  set (P := fun st : Build => In (nextId s) (particles (fst st))).
  assert (Hgrid : forall cols row col st, P st -> P (gridParticle w random cols row col st)).
  { intros cols row col [s' k] Hst. unfold P in *. cbn in *.
    apply in_or_app. left. exact Hst. }
  assert (Hrand : forall i st, P st -> P (randomParticle w random i st)).
  { intros i [s' k] Hst. unfold P in *. cbn in *.
    apply in_or_app. left. exact Hst. }
  apply (for_invariant P); [exact Hrand |].
  assert (Hrows : exists rows', (if isMobile w then 12%nat else 30%nat) = S rows').
  { destruct (isMobile w); eexists; reflexivity. }
  assert (Hcols : exists cols', (if isMobile w then 15%nat else 40%nat) = S cols').
  { destruct (isMobile w); eexists; reflexivity. }
  destruct Hrows as [rows' ->]. destruct Hcols as [cols' Hcols].
  rewrite for_unfold.
  apply (for_invariant P).
  { intros row st Hst. apply (for_invariant P); [apply Hgrid | exact Hst]. }
  rewrite Hcols at 1. rewrite for_unfold.
  apply (for_invariant P); [apply Hgrid |].
  unfold P. cbn. apply in_or_app. right. left. reflexivity.
Qed.

Lemma new_first_particle w firstId random now now' :
  In (5 + firstId)%nat (particles (new w firstId random now now')).
Proof.
  unfold new, createDraggableObjects.
  destruct (benign_animateFadeIn now'
              (start now (createParticles w random
                            (createBoundaries w (createHandBodies w firstId)))))
    as (_ & _ & -> & _).
  cbn [particles start].
  exact (createParticles_first w random
           (createBoundaries w (createHandBodies w firstId))).
Qed.

(** C6. In every state of a session, a recolouring pass gives every particle
    the colour computed from its velocity at that moment and from nothing
    else: with s = sqrt(vx^2 + vy^2) and n = min(s/15, 1), hue (1 - n)*180,
    saturation 100 and lightness 50 + 20*n; so hue 180 and lightness 50 at
    rest, hue 0 and lightness 70 from speed 15 on. *)
Theorem recolouring_uses_instantaneous_velocity_only :
  forall (w : Window) (firstId : BodyRef) (random : nat -> R) (now now' : R)
         (calls : list Call) (particle : BodyRef),
    let s := session calls (new w firstId random now now') in
    In particle (particles s) ->
    (exists body r,
        bodies s !! particle = Some body /\ render body = Some r
        /\ (let speed := sqrt (Vector.x (velocity body) ^ 2
                              + Vector.y (velocity body) ^ 2) in
            let n := Rmin (speed / 15) 1 in
            strokeOf (updateParticleColors s) particle
            = Some (Hsl ((1 - n) * 180) 100 (50 + 20 * n))
            /\ bodies (updateParticleColors s) !! particle
               = Some (Body_setRender body
                         (Some (Render_setStrokeStyle r
                                  (Hsl ((1 - n) * 180) 100 (50 + 20 * n)))))))
    /\ (ColourSpec.hue (ColourSpec.normalized 0) = 180
        /\ ColourSpec.lightness (ColourSpec.normalized 0) = 50)
    /\ (forall speed, 15 <= speed ->
          ColourSpec.hue (ColourSpec.normalized speed) = 0
          /\ ColourSpec.lightness (ColourSpec.normalized speed) = 70).
Proof.
  intros w firstId random now now' calls particle s Hin.
  split; [| split; [apply colour_at_rest | apply colour_at_cap]].
  destruct (session_handsInv w firstId random now now' calls)
    as (_ & _ & _ & _ & _ & Hcap & Hrender & _).
  fold s in Hcap, Hrender.
  destruct (proj1 (List.Forall_forall _ _) Hrender particle Hin)
    as (body & Hbody & [r Hr]).
  exists body, r. split; [exact Hbody |]. split; [exact Hr |].
  destruct (strokeOf_recoloured s particle body r Hcap Hin Hbody Hr) as [E1 E2].
  cbv zeta. split; [exact E2 | exact E1].
Qed.

Lemma recolouring_uses_instantaneous_velocity_only_witness :
  let w0 := {| innerWidth := 1920; innerHeight := 1080; devicePixelRatio := 1 |} in
  let s := session [] (new w0 0 (fun _ => 0.5) 0 0) in
  exists body hue lightness,
    bodies s !! 5%nat = Some body
    /\ strokeOf (updateParticleColors s) 5%nat = Some (Hsl hue 100 lightness).
Proof.
  cbv zeta.
  destruct (recolouring_uses_instantaneous_velocity_only
              {| innerWidth := 1920; innerHeight := 1080; devicePixelRatio := 1 |} 0 (fun _ => 0.5) 0 0
              [] 5%nat
              (new_first_particle {| innerWidth := 1920; innerHeight := 1080; devicePixelRatio := 1 |}
                 0 (fun _ => 0.5) 0 0))
    as [(body & r & Hbody & _ & Hstroke & _) _].
  exists body. eexists. eexists. split; [exact Hbody | exact Hstroke].
Defined.

Lemma hueOf_recoloured s particle :
  maxVelocity s = 15 ->
  In particle (particles s) -> hasRender s particle ->
  hueOf (updateParticleColors s) particle
  = Some (ColourSpec.hue (ColourSpec.normalized (speedOf s particle))).
Proof.
  intros Hcap Hin (body & Hbody & [r Hr]).
  destruct (strokeOf_recoloured s particle body r Hcap Hin Hbody Hr) as [_ E].
  unfold hueOf. rewrite E. unfold speedOf. rewrite Hbody, speed_squares.
  reflexivity.
Qed.

(** C7. After a recolouring pass, of two particles the one whose speed, capped
    at 15, is at least the other's has a hue at most the other's. *)
Theorem hue_never_increases_with_speed :
  forall (s : LiquidSimulation) (p1 p2 : BodyRef),
    maxVelocity s = 15 ->
    In p1 (particles s) -> In p2 (particles s) ->
    hasRender s p1 -> hasRender s p2 ->
    Rmin (speedOf s p2) 15 <= Rmin (speedOf s p1) 15 ->
    exists hue1 hue2,
      hueOf (updateParticleColors s) p1 = Some hue1
      /\ hueOf (updateParticleColors s) p2 = Some hue2
      /\ hue1 <= hue2.
Proof.
  intros s p1 p2 Hcap Hin1 Hin2 Hr1 Hr2 Hle.
  exists (ColourSpec.hue (ColourSpec.normalized (speedOf s p1))),
         (ColourSpec.hue (ColourSpec.normalized (speedOf s p2))).
  split; [apply hueOf_recoloured; assumption |].
  split; [apply hueOf_recoloured; assumption |].
  apply hue_antitone, Hle.
Qed.

(** Two particles next to the hands, the first moved by the engine to the
    velocity (3, 4), the second at rest. *)
Lemma hue_never_increases_with_speed_witness :
  let base := createHandBodies {| innerWidth := 1920; innerHeight := 1080; devicePixelRatio := 1 |} 0 in
  let one := pushParticle 2 (snd (newBody (particleBody 10 10) base)) in
  let two := pushParticle 3 (snd (newBody (particleBody 55 10) one)) in
  let s :=
    mutate 2 (integrate {| toPosition := {| Vector.x := 13; Vector.y := 14 |};
                           toVelocity := {| Vector.x := 3; Vector.y := 4 |} |})
           two in
  exists hue1 hue2,
    hueOf (updateParticleColors s) 2%nat = Some hue1
    /\ hueOf (updateParticleColors s) 3%nat = Some hue2
    /\ hue1 <= hue2.
Proof.
  cbv zeta.
  apply hue_never_increases_with_speed.
  - reflexivity.
  - left. reflexivity.
  - right. left. reflexivity.
  - eexists. split; [reflexivity | eexists; reflexivity].
  - eexists. split; [reflexivity | eexists; reflexivity].
  - unfold speedOf. cbn.
    rewrite lookup_alter_ne by lia. rewrite lookup_insert_eq.
    rewrite lookup_alter_eq. rewrite lookup_insert_ne by lia.
    rewrite lookup_insert_eq. cbn.
    replace (0 * 0 + 0 * 0) with 0 by ring. rewrite sqrt_0.
    rewrite (Rmin_left 0 15) by lra.
    apply Rmin_glb; [apply sqrt_pos | lra].
Defined.

(** In a session the hypotheses on the object hold by themselves, and the
    comparison of the speeds may be made before the cap. *)
Corollary session_hue_never_increases_with_speed
    w firstId random now now' calls p1 p2 :
  let s := session calls (new w firstId random now now') in
  In p1 (particles s) -> In p2 (particles s) ->
  speedOf s p2 <= speedOf s p1 ->
  exists hue1 hue2,
    hueOf (updateParticleColors s) p1 = Some hue1
    /\ hueOf (updateParticleColors s) p2 = Some hue2
    /\ hue1 <= hue2.
Proof.
  intros s Hin1 Hin2 Hle.
  destruct (session_handsInv w firstId random now now' calls)
    as (_ & _ & _ & _ & _ & Hcap & Hrender & _).
  fold s in Hcap, Hrender.
  pose proof (proj1 (List.Forall_forall _ _) Hrender) as Hall.
  exists (ColourSpec.hue (ColourSpec.normalized (speedOf s p1))),
         (ColourSpec.hue (ColourSpec.normalized (speedOf s p2))).
  split; [apply hueOf_recoloured; auto |].
  split; [apply hueOf_recoloured; auto |].
  apply hue_antitone, capped_monotone, Hle.
Qed.

End SimFacts.

(** ** The tracking effect *)
Module TrackingFacts.
Import Tracking.

Lemma run_app inputs1 inputs2 s :
  run (inputs1 ++ inputs2) s
  = (r1 <- run inputs1 s ;;
     r2 <- run inputs2 (fst r1) ;;
     Normal (fst r2, snd r1 ++ snd r2)).
Proof.
  revert s. induction inputs1 as [| i rest IH]; intros s; cbn.
  - destruct (run inputs2 s) as [[s' acts] | m]; reflexivity.
  - destruct (handle i s) as [[s1 acts1] | m]; cbn; [| reflexivity].
    rewrite IH.
    destruct (run rest s1) as [[s2 acts2] | m]; cbn; [| reflexivity].
    destruct (run inputs2 s2) as [[s3 acts3] | m]; cbn; [| reflexivity].
    rewrite (List.app_assoc acts1 acts2 acts3). reflexivity.
Qed.

(** *** The cleanup *)
Lemma stopTracks_quiet stream :
  Forall (fun a => isDelivery a = false) (map StopTrack stream).
Proof. induction stream; cbn; constructor; auto. Qed.

(** The cleanup completes normally in every state, leaves the flag false and
    the timer disarmed, and only stops tracks and closes the detector. *)
Lemma cleanup_completes s :
  exists s' acts,
    cleanup s = Normal (s', acts)
    /\ mounted (closure s') = false
    /\ initTimeout (closure s') = false
    /\ Forall (fun a => isDelivery a = false) acts.
Proof.
  unfold cleanup.
  destruct s as [[m t p fr sf] [v c h st] u w l]. cbn.
  destruct st as [stream |], h as [hands |]; cbn;
    eexists _, _; (split; [reflexivity |]); (split; [reflexivity |]);
    (split; [reflexivity |]); constructor; try reflexivity;
    rewrite ?app_nil_r; try apply stopTracks_quiet;
    try (apply Forall_app; split; [apply stopTracks_quiet |]);
    repeat constructor.
Qed.

(** *** Once the flag is false *)

(** A detection result is dropped whole. *)
Lemma results_discarded multiHandLandmarks s :
  mounted (closure s) = false ->
  handle (Results multiHandLandmarks) s = Normal (s, []).
Proof.
  intros Hm. unfold handle.
  assert (E : onResults multiHandLandmarks s = (s, [])).
  { unfold onResults. rewrite Hm. reflexivity. }
  destruct (handsRef (refs s)) as [detector |];
    [destruct (listening detector) |];
    destruct (pc (closure s)); rewrite ?E; reflexivity.
Qed.

(** An animation frame uses up its request and does nothing else. *)
Lemma frame_discarded s :
  mounted (closure s) = false ->
  handle AnimationFrame s
  = Normal (setFrameRequests (Nat.pred (frameRequests (closure s))) s, []).
Proof.
  intros Hm. unfold handle.
  assert (E : forall n, processFrame (setFrameRequests n s)
                        = (setFrameRequests n s, [])).
  { intros n. unfold processFrame. cbn. rewrite Hm. reflexivity. }
  destruct s as [[m t p fr sf] rf u w l]. cbn in *.
  destruct p, fr as [| n]; cbn; rewrite ?E; reflexivity.
Qed.

(** Whatever comes next, the flag stays false and neither [onHandUpdate] nor
    [send] nor a drawing on the canvas happens. *)
Lemma handle_unmounted i s :
  mounted (closure s) = false ->
  exists s' acts,
    handle i s = Normal (s', acts)
    /\ mounted (closure s') = false
    /\ Forall (fun a => isDelivery a = false) acts.
Proof.
  intros Hm.
  destruct i.
  15: { destruct (cleanup_completes s) as (s' & acts & E & Hm' & _ & Hq).
        exists s', acts. unfold handle. destruct (pc (closure s)); auto. }
  11: { rewrite (results_discarded _ s Hm). exists s, []. auto. }
  9: { rewrite (frame_discarded s Hm). eexists _, _.
       split; [reflexivity |]. split; [exact Hm | constructor]. }
  all: destruct s as [[sm stm sp sfr ssf] [rv rc rh rst] su sw sl];
    cbn in Hm; subst sm;
    unfold handle, initializeTracking, afterLoadScript, scriptFailed,
      afterGetUserMedia, setupCamera_resume, cameraFailed, afterSetupCamera,
      afterInitialize, trackingFailed, afterSend; cbn;
    destruct sp; cbn;
    repeat match goal with
      | |- context [if ?b then _ else _] => destruct b; cbn
      | |- context [match ?x with _ => _ end] => destruct x; cbn
      end;
    eexists _, _; (split; [reflexivity |]); (split; [reflexivity |]);
    repeat constructor.
Qed.

Lemma run_unmounted inputs :
  forall s,
    mounted (closure s) = false ->
    exists s' acts,
      run inputs s = Normal (s', acts)
      /\ mounted (closure s') = false
      /\ Forall (fun a => isDelivery a = false) acts.
Proof.
  induction inputs as [| i rest IH]; intros s Hm; cbn.
  - exists s, []. auto.
  - destruct (handle_unmounted i s Hm) as (s1 & acts1 & E1 & Hm1 & Hq1).
    destruct (IH s1 Hm1) as (s2 & acts2 & E2 & Hm2 & Hq2).
    rewrite E1. cbn. rewrite E2. cbn.
    exists s2, (acts1 ++ acts2). split; [reflexivity |]. split; [exact Hm2 |].
    apply Forall_app. split; assumption.
Qed.

(** No stretch of code throws past the machine. *)
Lemma handle_completes i s : exists r, handle i s = Normal r.
Proof.
  destruct i.
  15: { destruct (cleanup_completes s) as (s' & acts & E & _).
        exists (s', acts). unfold handle. destruct (pc (closure s)); auto. }
  all: unfold handle; destruct (pc (closure s));
    repeat match goal with
      | |- context [if ?b then _ else _] => destruct b
      | |- context [match ?x with _ => _ end] => destruct x
      end;
    eexists; reflexivity.
Qed.

Lemma run_completes inputs : forall s, exists r, run inputs s = Normal r.
Proof.
  induction inputs as [| i rest IH]; intros s; cbn.
  - eexists; reflexivity.
  - destruct (handle_completes i s) as [[s1 acts1] E1]. rewrite E1. cbn.
    destruct (IH s1) as [[s2 acts2] E2]. rewrite E2. cbn.
    eexists; reflexivity.
Qed.

Lemma handle_teardown s : handle Teardown s = cleanup s.
Proof. unfold handle. destruct (pc (closure s)); reflexivity. Qed.

(** C8, amended: the flag is tested at the head of the detection-result
    callback and of the frame callback.  Take any run of the effect, from any
    state, with a teardown somewhere in it.  The teardown leaves the flag
    false; a detection result that arrives afterwards changes nothing at all,
    an animation frame only uses up its request, and nothing that runs
    afterwards calls [onHandUpdate], sends a frame to the detector or draws. *)
Theorem teardown_discards_results_and_frames :
  forall (s0 : State) (before after : list Input),
    exists s acts s' acts',
      run (before ++ [Teardown]) s0 = Normal (s, acts)
      /\ mounted (closure s) = false
      /\ run after s = Normal (s', acts')
      /\ run (before ++ Teardown :: after) s0 = Normal (s', acts ++ acts')
      /\ mounted (closure s') = false
      /\ Forall (fun a => isDelivery a = false) acts'
      /\ (forall multiHandLandmarks,
            handle (Results multiHandLandmarks) s' = Normal (s', []))
      /\ handle AnimationFrame s'
         = Normal (setFrameRequests (Nat.pred (frameRequests (closure s'))) s', []).
Proof.
  intros s0 before after.
  destruct (run_completes before s0) as [[sb actsb] Eb].
  destruct (cleanup_completes sb) as (s & actsc & Ec & Hm & _ & _).
  destruct (run_unmounted after s Hm) as (s' & acts' & Ea & Hm' & Hq).
  assert (E1 : run (before ++ [Teardown]) s0 = Normal (s, actsb ++ actsc)).
  { rewrite run_app, Eb. cbn [bind fst snd run].
    rewrite handle_teardown, Ec. cbn [bind fst snd].
    rewrite app_nil_r. reflexivity. }
  exists s, (actsb ++ actsc), s', acts'.
  split; [exact E1 |]. split; [exact Hm |]. split; [exact Ea |].
  split.
  { replace (before ++ Teardown :: after) with ((before ++ [Teardown]) ++ after)
      by (rewrite <- (List.app_assoc before [Teardown] after); reflexivity).
    rewrite run_app, E1. cbn. rewrite Ea. reflexivity. }
  split; [exact Hm' |]. split; [exact Hq |].
  split; [intros m; apply results_discarded, Hm' | apply frame_discarded, Hm'].
Qed.

(** The same inputs before and after a teardown: a frame is sent and the hand
    is reported before; after, with a [send] still in flight, the only thing
    left is one request for an animation frame, which then comes to nothing. *)
Lemma deliveries_before_and_after_teardown :
  let w0 := {| Mapper.innerWidth := 1920; Mapper.innerHeight := 1080 |} in
  let video := Some {| srcObject := None |} in
  let canvas := Some {| size := Mapper.CANVAS_DIMENSIONS w0; context2d := true |} in
  let hand := List.repeat {| Mapper.Landmark.x := 0.5; Mapper.Landmark.y := 0.5 |} 21 in
  let tracking := [AnimationFrame; Results (Some [hand])] in
  let startup := [TimerFired; ScriptLoaded; UserMediaGranted [0; 1]%nat;
                  LoadedData None; HandsInitialized] in
  exists s acts s' acts',
    run (startup ++ tracking) (init w0 video canvas) = Normal (s, acts)
    /\ List.filter isDelivery acts
       = [SendFrame; DrawImage;
          OnHandUpdate {| Mapper.handIndex := 0;
                          Mapper.targetX := Mapper.mappedX w0 (Mapper.CANVAS_DIMENSIONS w0)
                                              {| Mapper.Landmark.x := 0.5;
                                                 Mapper.Landmark.y := 0.5 |};
                          Mapper.targetY := Mapper.mappedY w0 (Mapper.CANVAS_DIMENSIONS w0)
                                              {| Mapper.Landmark.x := 0.5;
                                                 Mapper.Landmark.y := 0.5 |} |}]
    /\ run (Teardown :: Results (Some [hand]) :: SendSettled true :: tracking) s
       = Normal (s', acts')
    /\ acts' = [ClearTimeout; StopTrack 0; StopTrack 1; CloseHands; RequestFrame]
    /\ (frameRequests (closure s') = 0 /\ sendsInFlight (closure s') = 0)%nat
    /\ liveTracks s' = [].
Proof.
  cbv zeta. eexists _, _, _, _.
  split; [vm_compute; reflexivity |].
  split; [vm_compute; reflexivity |].
  split; [vm_compute; reflexivity |].
  repeat split; reflexivity.
Qed.

(** C8 as worded does not hold: not every continuation is held back by the
    flag.  After a teardown that comes while the script is loading, the rest of
    [initializeTracking] still asks for the camera; after a teardown that
    comes while a [send] is in flight, the rest of [processFrame] still
    requests an animation frame. *)
Lemma continuations_act_after_teardown :
  let w0 := {| Mapper.innerWidth := 1920; Mapper.innerHeight := 1080 |} in
  let video := Some {| srcObject := None |} in
  let canvas := Some {| size := Mapper.CANVAS_DIMENSIONS w0; context2d := true |} in
  let startup := [TimerFired; ScriptLoaded; UserMediaGranted [0; 1]%nat;
                  LoadedData None; HandsInitialized] in
  (exists s,
      run [TimerFired; Teardown; ScriptLoaded] (init w0 video canvas)
      = Normal (s, [LoadScript; ClearTimeout; GetUserMedia])
      /\ mounted (closure s) = false
      /\ pc (closure s) = AwaitGetUserMedia)
  /\ (exists s,
        run (startup ++ [AnimationFrame; Teardown; SendSettled true])
            (init w0 video canvas)
        = Normal (s, [LoadScript; GetUserMedia; InitializeHands; RequestFrame;
                      SendFrame;
                      ClearTimeout; StopTrack 0; StopTrack 1; CloseHands;
                      RequestFrame])
        /\ mounted (closure s) = false
        /\ frameRequests (closure s) = 1%nat)
  /\ ~ (forall (i : Input) (s : State),
          isContinuation i = true -> mounted (closure s) = false ->
          exists s', handle i s = Normal (s', [])).
Proof.
  cbv zeta. split; [| split].
  - eexists. split; [vm_compute; reflexivity | split; reflexivity].
  - eexists. split; [vm_compute; reflexivity | split; reflexivity].
  - intros Hall.
    destruct (Hall ScriptLoaded
                (setPc AwaitLoadScript
                   (setMounted false
                      (init {| Mapper.innerWidth := 1920; Mapper.innerHeight := 1080 |}
                            None None)))
                eq_refl eq_refl) as [s' E].
    discriminate E.
Qed.

(** *** Teardown after a failed initialisation *)

(** The cleanup stops every track of the stream recorded in [streamRef]. *)
Lemma cleanup_stops_recorded_stream s stream :
  streamRef (refs s) = Some stream ->
  exists s' acts,
    cleanup s = Normal (s', acts)
    /\ (forall t, In t stream -> ~ In t (liveTracks s'))
    /\ (forall t, In t stream -> In (StopTrack t) acts).
Proof.
  intros Hs. unfold cleanup.
  destruct s as [[sm stm sp sfr ssf] [rv rc rh rst] su sw sl]. cbn in *. subst rst.
  cbn.
  assert (Hgone : forall t, In t stream ->
            ~ In t (List.filter (fun t' => negb (existsb (Nat.eqb t') stream)) sl)).
  { intros t Ht Hin. apply List.filter_In in Hin. destruct Hin as [_ Hneg].
    apply negb_true_iff in Hneg.
    assert (Hex : existsb (Nat.eqb t) stream = true).
    { apply existsb_exists. exists t. split; [exact Ht | apply Nat.eqb_refl]. }
    congruence. }
  destruct rh as [hands |]; cbn; eexists _, _; (split; [reflexivity |]);
    (split; [exact Hgone |]);
    intros t Ht; right; apply in_or_app; left; apply in_map; exact Ht.
Qed.

(** A failed script load, a refused camera and a failed detector, each
    followed by the teardown: no track is left live. *)
Lemma teardown_after_usual_failures :
  let w0 := {| Mapper.innerWidth := 1920; Mapper.innerHeight := 1080 |} in
  let video := Some {| srcObject := None |} in
  let canvas := Some {| size := Mapper.CANVAS_DIMENSIONS w0; context2d := true |} in
  let endsClean inputs :=
    match run inputs (init w0 video canvas) with
    | Normal (s, _) =>
        match error (ui s), cleanup s with
        | Some _, Normal (s', _) => match liveTracks s' with [] => true | _ => false end
        | _, _ => false
        end
    | Throw _ => false
    end in
  endsClean [TimerFired; ScriptFailed] = true
  /\ endsClean [TimerFired; ScriptLoaded; UserMediaDenied "Permission denied"] = true
  /\ endsClean [TimerFired; ScriptLoaded; UserMediaGranted [0; 1]%nat;
                LoadedData (Some "Hands is not a constructor"%string)] = true
  /\ endsClean [TimerFired; ScriptLoaded; UserMediaGranted [0; 1]%nat;
                LoadedData None; HandsInitializeFailed "no WebGL"] = true.
Proof. cbv zeta. repeat split; vm_compute; reflexivity. Qed.

(** C9, at the failing input: the camera gives a stream while the video
    element is missing.  The effect reports "Video element not found", no
    frame was ever requested, the cleanup completes normally, and the track
    of the stream is still live after it: nothing stops it. *)
Lemma teardown_after_missing_video_leaves_track_live :
  let w0 := {| Mapper.innerWidth := 1920; Mapper.innerHeight := 1080 |} in
  let video := Some {| srcObject := None |} in
  let canvas := Some {| size := Mapper.CANVAS_DIMENSIONS w0; context2d := true |} in
  exists s acts s' acts',
    run [TimerFired; ScriptLoaded; VideoRefChanged None; UserMediaGranted [7%nat]]
        (init w0 video canvas) = Normal (s, acts)
    /\ error (ui s) = Some (CameraAccessFailed "Video element not found")
    /\ acts = [LoadScript; GetUserMedia]
    /\ frameRequests (closure s) = 0%nat
    /\ liveTracks s = [7%nat]
    /\ cleanup s = Normal (s', acts')
    /\ acts' = [ClearTimeout]
    /\ liveTracks s' = [7%nat].
Proof.
  cbv zeta. eexists _, _, _, _.
  split; [vm_compute; reflexivity |].
  repeat split; reflexivity.
Qed.

End TrackingFacts.

(* ================================================================== *)
(** * Further properties of the code                                    *)
(* ================================================================== *)

(** ** The mapper on the canvas of the program *)
Module MapperExtra.
Import Mapper.
Local Open Scope Q_scope.

Lemma mirroredX_affine w c p :
  0 < width c ->
  mirroredX w c p == ((3 # 2) - 2 * Landmark.x p) * innerWidth w.
Proof.
  intros Hc. rewrite MapperFacts.mirroredX_formula
    by (apply MapperFacts.positive_nonzero, Hc).
  field.
Qed.

Lemma unclampedY_affine w c p :
  0 < height c ->
  unclampedY w c p == (2 * Landmark.y p - (1 # 2)) * innerHeight w.
Proof.
  intros Hc. rewrite MapperFacts.unclampedY_formula
    by (apply MapperFacts.positive_nonzero, Hc).
  field.
Qed.

Lemma clamp_monotone hi a b :
  a <= b -> Math_max 0 (Math_min hi a) <= Math_max 0 (Math_min hi b).
Proof.
  intros Hab. unfold Math_max, Math_min.
  apply Q.max_le_compat_l, Q.min_le_compat_l, Hab.
Qed.

(** X2. The mapping mirrors and keeps the order: on a frame of positive size,
    a landmark further to the right in the frame is never mapped further to
    the right in the viewport, and a landmark further down is never mapped
    further up. *)
Theorem mapping_reverses_x_and_keeps_y :
  forall (w : Window) (c : Canvas) (p q : Landmark.t),
    0 <= innerWidth w -> 0 <= innerHeight w ->
    0 < width c -> 0 < height c ->
    (Landmark.x p <= Landmark.x q -> mappedX w c q <= mappedX w c p)
    /\ (Landmark.y p <= Landmark.y q -> mappedY w c p <= mappedY w c q).
Proof.
  intros w c p q HW HH Hcw Hch. split; intros Hpq.
  - unfold mappedX. apply clamp_monotone.
    rewrite !mirroredX_affine by exact Hcw. Lqa.nra.
  - unfold mappedY. apply clamp_monotone.
    rewrite !unclampedY_affine by exact Hch. Lqa.nra.
Qed.

Lemma mapping_reverses_x_and_keeps_y_witness :
  let w := {| innerWidth := 1920; innerHeight := 1080 |} in
  let c := {| width := 640; height := 480 |} in
  mappedX w c {| Landmark.x := 0.6; Landmark.y := 0.5 |}
  <= mappedX w c {| Landmark.x := 0.4; Landmark.y := 0.5 |}.
Proof.
  cbv zeta.
  apply (proj1 (mapping_reverses_x_and_keeps_y
                  {| innerWidth := 1920; innerHeight := 1080 |}
                  {| width := 640; height := 480 |}
                  {| Landmark.x := 0.4; Landmark.y := 0.5 |}
                  {| Landmark.x := 0.6; Landmark.y := 0.5 |}
                  ltac:(discriminate) ltac:(discriminate)
                  ltac:(reflexivity) ltac:(reflexivity))).
  discriminate.
Defined.

(** The index of the landmark the callback reads: 9 on a narrow window, 8
    otherwise. *)
Lemma selectHandPoint_nth w landmarks :
  selectHandPoint w landmarks
  = nth_error landmarks (if isMobile w then 9 else 8)%nat.
Proof. unfold selectHandPoint. destruct (isMobile w); reflexivity. Qed.

(** X3. A detected hand produces no call of [onHandUpdate] exactly when its
    list of landmarks is too short to hold the landmark that is read: at most
    9 landmarks on a narrow window (landmark 9 is read), at most 8 otherwise
    (landmark 8 is read). *)
Theorem hand_is_skipped_iff_landmark_missing :
  forall (w : Window) (c : Canvas) (index : nat) (landmarks : list Landmark.t),
    mapHand w c index landmarks = None
    <-> (length landmarks <= (if isMobile w then 9 else 8))%nat.
Proof.
  intros w c index landmarks. unfold mapHand.
  rewrite selectHandPoint_nth.
  destruct (nth_error landmarks (if isMobile w then 9 else 8)%nat) as [p |] eqn:E.
  - split; [discriminate |]. intros Hlen.
    apply nth_error_None in Hlen. congruence.
  - split; [| reflexivity]. intros _. apply nth_error_None, E.
Qed.

Lemma forEachHand_indices_bounded w c hands :
  forall index u,
    In u (forEachHand w c index hands) ->
    (Z.of_nat index <= handIndex u < Z.of_nat (index + length hands))%Z.
Proof.
  induction hands as [| landmarks rest IH]; intros index u Hin; [destruct Hin |].
  cbn [forEachHand] in Hin.
  assert (Hrest : In u (forEachHand w c (S index) rest) ->
                  (Z.of_nat index <= handIndex u
                   < Z.of_nat (index + length (landmarks :: rest)))%Z).
  { intros H. specialize (IH (S index) u H). cbn [length]. lia. }
  unfold mapHand in Hin.
  destruct (selectHandPoint w landmarks) as [p |]; [| exact (Hrest Hin)].
  destruct Hin as [<- | Hin]; [cbn; lia | exact (Hrest Hin)].
Qed.

Lemma forEachHand_indices_sorted w c hands :
  forall index,
    Sorted.StronglySorted Z.lt (map handIndex (forEachHand w c index hands)).
Proof.
  induction hands as [| landmarks rest IH]; intros index; cbn [forEachHand].
  - constructor.
  - unfold mapHand.
    destruct (selectHandPoint w landmarks) as [p |]; [| apply IH].
    cbn [map handIndex]. constructor; [apply IH |].
    apply List.Forall_forall. intros z Hz. apply in_map_iff in Hz.
    destruct Hz as (u & <- & Hu).
    pose proof (forEachHand_indices_bounded w c rest (S index) u Hu). lia.
Qed.

Lemma forEachHand_complete w c hands :
  Forall (fun landmarks => (if isMobile w then 9 else 8) < length landmarks)%nat hands ->
  forall index,
    map handIndex (forEachHand w c index hands)
    = map Z.of_nat (seq index (length hands)).
Proof.
  intros Hall. induction Hall as [| landmarks rest Hlen _ IH]; intros index.
  - reflexivity.
  - cbn [forEachHand length seq map]. unfold mapHand.
    rewrite selectHandPoint_nth.
    destruct (nth_error landmarks (if isMobile w then 9 else 8)%nat) as [p |] eqn:E.
    + cbn [map handIndex]. rewrite IH. reflexivity.
    + apply nth_error_None in E. lia.
Qed.

(** X4. The hand indices given to [onHandUpdate] for one detector result
    follow the detection order: they are strictly increasing, each is the
    position of its hand in the list of detected hands, and when every hand has
    the landmark that is read (ten landmarks are enough) the indices are
    exactly 0, 1, ..., one per hand. *)
Theorem hand_indices_follow_detection_order :
  forall (w : Window) (c : Canvas) (hands : list (list Landmark.t)),
    let updates := handUpdates w c (Some hands) in
    Sorted.StronglySorted Z.lt (map handIndex updates)
    /\ (forall u, In u updates ->
          (0 <= handIndex u < Z.of_nat (length hands))%Z)
    /\ (length updates <= length hands)%nat
    /\ (Forall (fun landmarks => 10 <= length landmarks)%nat hands ->
        map handIndex updates = map Z.of_nat (seq 0 (length hands))).
Proof.
  intros w c hands updates. subst updates. cbn [handUpdates].
  split; [apply forEachHand_indices_sorted |].
  split; [intros u Hu; apply (forEachHand_indices_bounded w c hands 0 u Hu) |].
  split.
  - generalize 0%nat. induction hands as [| landmarks rest IH]; intros index;
      cbn [forEachHand length]; [lia |].
    destruct (mapHand w c index landmarks); cbn [length];
      specialize (IH (S index)); lia.
  - intros Hall. apply forEachHand_complete.
    eapply Forall_impl; [exact Hall |]. cbn. intros l Hl.
    destruct (isMobile w); lia.
Qed.

(** X5. When the detector returns no more hands than [HANDS_CONFIG.maxNumHands]
    allows (1 on a narrow window, 2 otherwise), every index given to
    [onHandUpdate] is 0 or 1, and on a narrow window it is 0. *)
Theorem configured_detector_reports_index_zero_or_one :
  forall (w0 w : Window) (c : Canvas) (hands : list (list Landmark.t)) (u : HandUpdate),
    (length hands <= Config.maxNumHands (Config.HANDS_CONFIG w0))%nat ->
    In u (handUpdates w c (Some hands)) ->
    (handIndex u = 0%Z \/ handIndex u = 1%Z)
    /\ (isMobile w0 = true -> handIndex u = 0%Z).
Proof.
  intros w0 w c hands u Hmax Hin.
  pose proof (forEachHand_indices_bounded w c hands 0 u Hin) as Hb.
  unfold Config.HANDS_CONFIG in Hmax. cbn in Hmax.
  destruct (isMobile w0); split; first [discriminate | lia].
Qed.

Lemma configured_detector_reports_index_zero_or_one_witness :
  let w := {| innerWidth := 1920; innerHeight := 1080 |} in
  let hand := List.repeat {| Landmark.x := 0.5; Landmark.y := 0.5 |} 21 in
  let u := {| handIndex := 1;
              targetX := mappedX w (CANVAS_DIMENSIONS w)
                           {| Landmark.x := 0.5; Landmark.y := 0.5 |};
              targetY := mappedY w (CANVAS_DIMENSIONS w)
                           {| Landmark.x := 0.5; Landmark.y := 0.5 |} |} in
  handIndex u = 0%Z \/ handIndex u = 1%Z.
Proof.
  cbv zeta.
  refine (proj1 (configured_detector_reports_index_zero_or_one
                   {| innerWidth := 1920; innerHeight := 1080 |}
                   {| innerWidth := 1920; innerHeight := 1080 |}
                   (CANVAS_DIMENSIONS {| innerWidth := 1920; innerHeight := 1080 |})
                   [List.repeat {| Landmark.x := 0.5; Landmark.y := 0.5 |} 21;
                    List.repeat {| Landmark.x := 0.5; Landmark.y := 0.5 |} 21]
                   _ _ _)).
  - vm_compute. lia.
  - right. left. reflexivity.
Defined.

End MapperExtra.

(** ** The simulation driver, further *)
Module SimExtra.
Import Sim.
Local Open Scope R_scope.
Import SimShape.

(** *** The bodies the constructor creates *)
Lemma seq_snoc first k : seq first k ++ [(first + k)%nat] = seq first (S k).
Proof. rewrite seq_S. reflexivity. Qed.

Lemma particle_consecutive first x y s :
  consecutive first s ->
  consecutive first (pushParticle (nextId s) (snd (newBody (particleBody x y) s))).
Proof.
  intros [Hle Hp]. unfold consecutive. cbn. split; [lia |].
  rewrite Hp. replace (S (nextId s) - first)%nat with (S (nextId s - first)) by lia.
  rewrite <- seq_snoc. do 2 f_equal. lia.
Qed.

(** What one iteration of either loop does to the counters and the world. *)
Lemma gridParticle_step w random cols row col st :
  nextId (fst (gridParticle w random cols row col st)) = S (nextId (fst st))
  /\ world (fst (gridParticle w random cols row col st)) = world (fst st)
  /\ snd (gridParticle w random cols row col st) = S (snd st).
Proof. destruct st as [s k]. cbn. auto. Qed.

Lemma randomParticle_step w random i st :
  nextId (fst (randomParticle w random i st)) = S (nextId (fst st))
  /\ world (fst (randomParticle w random i st)) = world (fst st)
  /\ snd (randomParticle w random i st) = S (S (snd st)).
Proof. destruct st as [s k]. cbn. auto. Qed.

(** A loop whose body hands out [d] identities and uses [r] random numbers
    each time round. *)
Lemma for_counts (d r : nat) (body : nat -> Build -> Build) :
  (forall i st,
      nextId (fst (body i st)) = (d + nextId (fst st))%nat
      /\ world (fst (body i st)) = world (fst st)
      /\ snd (body i st) = (r + snd st)%nat) ->
  forall count i st,
    nextId (fst (for_ count i body st)) = (count * d + nextId (fst st))%nat
    /\ world (fst (for_ count i body st)) = world (fst st)
    /\ snd (for_ count i body st) = (count * r + snd st)%nat.
Proof.
  intros Hbody. induction count as [| count IH]; intros i st; cbn [for_].
  - cbn. auto.
  - destruct (IH (S i) (body i st)) as (E1 & E2 & E3).
    destruct (Hbody i st) as (B1 & B2 & B3).
    rewrite E1, E2, E3, B1, B2, B3. repeat split; lia.
Qed.

Lemma createParticles_shape w random s :
  particles s = [] ->
  let s' := createParticles w random s in
  nextId s' = (particleCount w + nextId s)%nat
  /\ particles s' = seq (nextId s) (particleCount w)
  /\ world s' = world s ++ seq (nextId s) (particleCount w).
Proof.
  intros Hempty s'. subst s'. unfold createParticles, particleCount.
  set (rows := if isMobile w then 12%nat else 30%nat).
  set (cols := if isMobile w then 15%nat else 40%nat).
  set (extra := if isMobile w then 50%nat else 200%nat).
  set (grid := for_ rows 0
                 (fun row => for_ cols 0 (fun col => gridParticle w random cols row col))
                 (s, 0%nat)).
  set (all := for_ extra 0 (randomParticle w random) grid).
  (* the counters *)
  assert (Hgrid : nextId (fst grid) = (rows * cols + nextId s)%nat
                  /\ world (fst grid) = world s).
  { destruct (for_counts cols cols
                (fun row => for_ cols 0 (fun col => gridParticle w random cols row col))
                ltac:(intros i st;
                      destruct (for_counts 1 1
                                  (fun col => gridParticle w random cols i col)
                                  ltac:(intros j st'; apply gridParticle_step)
                                  cols 0%nat st) as (A & B & C);
                      repeat split; [rewrite A | exact B | rewrite C]; lia)
                rows 0%nat (s, 0%nat)) as (A & B & _).
    fold grid in A, B. cbn in A, B. auto. }
  assert (Hall : nextId (fst all) = (extra + nextId (fst grid))%nat
                 /\ world (fst all) = world (fst grid)).
  { destruct (for_counts 1 2 (randomParticle w random)
                ltac:(intros i st; apply randomParticle_step)
                extra 0%nat grid) as (A & B & _).
    fold all in A, B. split; [rewrite A; lia | exact B]. }
  (* the particles *)
  assert (Cgrid : consecutive (nextId s) (fst grid)).
  { unfold grid.
    apply (SimFacts.for_invariant (fun st => consecutive (nextId s) (fst st))).
    - intros row st Hst.
      apply (SimFacts.for_invariant (fun st => consecutive (nextId s) (fst st)));
        [| exact Hst].
      intros col [s0 k] Hs0. cbn. apply particle_consecutive, Hs0.
    - cbn. split; [lia |]. rewrite Hempty, Nat.sub_diag. reflexivity. }
  assert (Call : consecutive (nextId s) (fst all)).
  { unfold all.
    apply (SimFacts.for_invariant (fun st => consecutive (nextId s) (fst st)));
      [| exact Cgrid].
    intros i [s0 k] Hs0. cbn. apply particle_consecutive, Hs0. }
  destruct Hgrid as [Ng Wg]. destruct Hall as [Na Wa]. destruct Call as [_ Pa].
  cbn [nextId particles world Composite_add].
  assert (Hn : (nextId (fst all) - nextId s)%nat = (rows * cols + extra)%nat) by lia.
  rewrite Pa, Hn, Wa, Wg. repeat split. lia.
Qed.

Lemma allocated_newBody first b s :
  allocated first s -> allocated first (snd (newBody b s)).
Proof.
  intros Ha ref Href. cbn in *.
  destruct (Nat.eq_dec (nextId s) ref) as [<- | Hne].
  - rewrite lookup_insert_eq. eauto.
  - rewrite lookup_insert_ne by exact Hne. apply Ha. lia.
Qed.

Lemma allocated_mutate first ref f s :
  allocated first s -> allocated first (mutate ref f s).
Proof.
  intros Ha ref' Href. cbn in *.
  destruct (Nat.eq_dec ref ref') as [<- | Hne].
  - rewrite lookup_alter_eq. destruct (Ha ref Href) as [body ->]. cbn. eauto.
  - rewrite lookup_alter_ne by exact Hne. apply Ha, Href.
Qed.

Lemma allocated_forEachParticle first f s :
  allocated first s -> allocated first (forEachParticle f s).
Proof.
  unfold forEachParticle. generalize (particles s) as refs.
  intros refs. revert s. induction refs as [| ref rest IH]; intros s Ha; cbn.
  - exact Ha.
  - apply IH, allocated_mutate, Ha.
Qed.

Lemma allocated_particle first x y s :
  allocated first s ->
  allocated first (pushParticle (nextId s) (snd (newBody (particleBody x y) s))).
Proof. intros Ha. apply (allocated_newBody first (particleBody x y) s Ha). Qed.

Lemma allocated_new w firstId random now now' :
  allocated firstId (new w firstId random now now').
Proof.
  unfold new, createDraggableObjects, animateFadeIn. cbn [fst].
  apply allocated_forEachParticle.
  assert (H0 : allocated firstId (createHandBodies w firstId)).
  { intros ref Href. cbn in *.
    destruct (Nat.eq_dec ref firstId) as [-> | Hne].
    - rewrite lookup_insert_ne by lia. rewrite lookup_insert_eq. eauto.
    - assert (ref = S firstId) as -> by lia. rewrite lookup_insert_eq. eauto. }
  assert (H1 : allocated firstId (createBoundaries w (createHandBodies w firstId))).
  { unfold createBoundaries.
    exact (allocated_newBody firstId _ _
             (allocated_newBody firstId _ _
                (allocated_newBody firstId _ _ H0))). }
  assert (H2 : allocated firstId
                 (createParticles w random
                    (createBoundaries w (createHandBodies w firstId)))).
  { unfold createParticles.
    set (P := fun st : Build => allocated firstId (fst st)).
    assert (Hgrid : forall cols row col st,
               P st -> P (gridParticle w random cols row col st)).
    { intros cols row col [s0 k] Hs0. unfold P in *. cbn [fst] in *.
      apply (allocated_particle firstId _ _ s0 Hs0). }
    assert (Hrand : forall i st, P st -> P (randomParticle w random i st)).
    { intros i [s0 k] Hs0. unfold P in *. cbn [fst] in *.
      apply (allocated_particle firstId _ _ s0 Hs0). }
    apply (SimFacts.for_invariant P); [exact Hrand |].
    apply (SimFacts.for_invariant P); [| exact H1].
    intros row st Hst. apply (SimFacts.for_invariant P); [apply Hgrid | exact Hst]. }
  exact H2.
Qed.

(** X6. A new simulation holds the two hands, the three walls and then the
    particles, under consecutive identities: 230 particles on a narrow window
    (12 x 15 and 50 random ones), 1400 otherwise (30 x 40 and 200); the world
    holds every one of these bodies once, in the order of creation. *)
Theorem new_simulation_bodies :
  forall (w : Window) (firstId : nat) (random : nat -> R) (now now' : R),
    let s := new w firstId random now now' in
    particleCount w = (if isMobile w then 230 else 1400)%nat
    /\ particles s = seq (5 + firstId) (particleCount w)
    /\ world s = seq firstId (5 + particleCount w)
    /\ nextId s = (5 + particleCount w + firstId)%nat
    /\ List.NoDup (world s)
    /\ (forall ref, In ref (world s) -> is_Some (bodies s !! ref)).
Proof.
  intros w firstId random now now' s.
  assert (Hcount : particleCount w = (if isMobile w then 230 else 1400)%nat).
  { unfold particleCount. destruct (isMobile w); reflexivity. }
  set (s1 := createBoundaries w (createHandBodies w firstId)).
  assert (H1 : particles s1 = [] /\ nextId s1 = (5 + firstId)%nat
               /\ world s1 = seq firstId 5).
  { repeat split. }
  destruct H1 as (P1 & N1 & W1).
  destruct (createParticles_shape w random s1 P1) as (N2 & P2 & W2).
  assert (Hs : particles s = particles (createParticles w random s1)
               /\ world s = world (createParticles w random s1)
               /\ nextId s = nextId (createParticles w random s1)).
  { subst s. unfold new, createDraggableObjects. fold s1.
    destruct (SimFacts.benign_animateFadeIn now'
                (start now (createParticles w random s1)))
      as (_ & _ & Ep & _ & En & _).
    rewrite Ep, En, SimFacts.world_animateFadeIn. repeat split. }
  destruct Hs as (Ep & Ew & En).
  assert (Hworld : world s = seq firstId (5 + particleCount w)).
  { rewrite Ew, W2, W1, N1. rewrite seq_app, (Nat.add_comm firstId 5).
    reflexivity. }
  split; [exact Hcount |].
  split; [rewrite Ep, P2, N1; reflexivity |].
  split; [exact Hworld |].
  split; [rewrite En, N2, N1; lia |].
  split; [rewrite Hworld; apply seq_NoDup |].
  intros ref Href. rewrite Hworld in Href. apply in_seq in Href.
  apply (allocated_new w firstId random now now'). fold s.
  rewrite En, N2, N1. lia.
Qed.

(** *** Hand updates, one after the other *)

(** X7. Two calls of [updateHandPosition] in a row with the same index and
    the same target: after the second one the proxy is at the target with
    velocity zero (a hand that holds still gives its proxy no velocity), and
    the two small random forces have added up. *)
Theorem repeated_update_stops_the_proxy :
  forall (s : LiquidSimulation) (handIndex : Z) (x y rnd1 rnd2 rnd3 rnd4 : R)
         (body : Body),
    bodies s !! selectHandBody s handIndex = Some body ->
    let s2 := updateHandPosition handIndex x y rnd3 rnd4
                (updateHandPosition handIndex x y rnd1 rnd2 s) in
    exists body2,
      bodies s2 !! selectHandBody s handIndex = Some body2
      /\ position body2 = {| Vector.x := x; Vector.y := y |}
      /\ velocity body2 = Vector.zero
      /\ Vector.x (force body2)
         = Vector.x (force body) + (rnd1 - 0.5) * 0.0001 + (rnd3 - 0.5) * 0.0001
      /\ Vector.y (force body2)
         = Vector.y (force body) + (rnd2 - 0.5) * 0.0001 + (rnd4 - 0.5) * 0.0001.
Proof.
  intros s handIndex x y rnd1 rnd2 rnd3 rnd4 body Hbody s2. subst s2.
  unfold updateHandPosition.
  change (selectHandBody
            (mutate (selectHandBody s handIndex) (moveHandBody x y rnd1 rnd2) s)
            handIndex)
    with (selectHandBody s handIndex).
  rewrite !SimFacts.mutate_lookup_same, Hbody. cbn.
  eexists. split; [reflexivity |]. cbn.
  split; [reflexivity |]. split; [| split; reflexivity].
  unfold Vector.zero. f_equal; ring.
Qed.

Lemma repeated_update_stops_the_proxy_witness :
  let s0 := createHandBodies {| innerWidth := 1920; innerHeight := 1080; devicePixelRatio := 1 |} 0 in
  exists body2,
    bodies (updateHandPosition 1 300 200 0.1 0.9
              (updateHandPosition 1 300 200 0.25 0.75 s0)) !! 1%nat = Some body2
    /\ velocity body2 = Vector.zero.
Proof.
  cbv zeta.
  destruct (repeated_update_stops_the_proxy
              (createHandBodies {| innerWidth := 1920; innerHeight := 1080; devicePixelRatio := 1 |} 0)
              1 300 200 0.25 0.75 0.1 0.9
              (rightHand {| innerWidth := 1920; innerHeight := 1080; devicePixelRatio := 1 |})
              ltac:(reflexivity))
    as (body2 & Hlook & _ & Hv & _).
  exists body2. split; [exact Hlook | exact Hv].
Defined.

(** *** The colours *)
Lemma normalized_range speed :
  0 <= speed -> 0 <= ColourSpec.normalized speed <= 1.
Proof.
  intros Hs. unfold ColourSpec.normalized. split.
  - apply Rmin_glb; lra.
  - apply Rmin_r.
Qed.

Lemma speed_nonnegative v : 0 <= ColourSpec.speed v.
Proof. apply sqrt_pos. Qed.

(** X8. In every state of a session, after a recolouring pass the stroke of
    every particle is an [hsl] colour with hue between 0 and 180, saturation
    100 and lightness between 50 and 70. *)
Theorem recoloured_stroke_is_in_range :
  forall (w : Window) (firstId : nat) (random : nat -> R) (now now' : R)
         (calls : list Call) (particle : nat),
    let s := session calls (new w firstId random now now') in
    In particle (particles s) ->
    exists hue lightness,
      strokeOf (updateParticleColors s) particle = Some (Hsl hue 100 lightness)
      /\ 0 <= hue <= 180
      /\ 50 <= lightness <= 70.
Proof.
  intros w firstId random now now' calls particle s Hin.
  destruct (SimFacts.session_handsInv w firstId random now now' calls)
    as (_ & _ & _ & _ & _ & Hcap & Hrender & _).
  fold s in Hcap, Hrender.
  destruct (proj1 (List.Forall_forall _ _) Hrender particle Hin)
    as (body & Hbody & [r Hr]).
  destruct (SimFacts.strokeOf_recoloured s particle body r Hcap Hin Hbody Hr)
    as [_ E].
  pose proof (normalized_range _ (speed_nonnegative (velocity body))) as [Hlo Hhi].
  eexists _, _. split; [exact E |].
  unfold ColourSpec.hue, ColourSpec.lightness. split; split; lra.
Qed.

Lemma recoloured_stroke_is_in_range_witness :
  let s := session [] (new {| innerWidth := 400; innerHeight := 800; devicePixelRatio := 1 |} 0
                           (fun _ => 0.5) 0 0) in
  exists hue lightness,
    strokeOf (updateParticleColors s) 5%nat = Some (Hsl hue 100 lightness)
    /\ 0 <= hue <= 180 /\ 50 <= lightness <= 70.
Proof.
  cbv zeta.
  exact (recoloured_stroke_is_in_range
           {| innerWidth := 400; innerHeight := 800; devicePixelRatio := 1 |} 0 (fun _ => 0.5) 0 0 [] 5%nat
           (SimFacts.new_first_particle
              {| innerWidth := 400; innerHeight := 800; devicePixelRatio := 1 |} 0 (fun _ => 0.5) 0 0)).
Defined.

(** The fields of the object other than the store, under a [forEach]. *)
Lemma fold_mutate_fields f (refs : list nat) :
  forall s,
    let s' := fold_left (fun acc ref => mutate ref f acc) refs s in
    particles s' = particles s
    /\ maxVelocity s' = maxVelocity s
    /\ fadeInStartTime s' = fadeInStartTime s
    /\ particleOpacity s' = particleOpacity s
    /\ world s' = world s
    /\ leftHandBody s' = leftHandBody s
    /\ rightHandBody s' = rightHandBody s.
Proof.
  induction refs as [| ref rest IH]; intros s; cbn.
  - repeat split.
  - destruct (IH (mutate ref f s)) as (A & B & C & D & E & F & G).
    cbn in *. rewrite A, B, C, D, E, F, G. repeat split.
Qed.

Lemma forEachParticle_fields f s :
  particles (forEachParticle f s) = particles s
  /\ maxVelocity (forEachParticle f s) = maxVelocity s
  /\ fadeInStartTime (forEachParticle f s) = fadeInStartTime s
  /\ particleOpacity (forEachParticle f s) = particleOpacity s
  /\ world (forEachParticle f s) = world s
  /\ leftHandBody (forEachParticle f s) = leftHandBody s
  /\ rightHandBody (forEachParticle f s) = rightHandBody s.
Proof. apply (fold_mutate_fields f (particles s) s). Qed.

Lemma forEachParticle_lookup f s ref :
  (forall body, f (f body) = f body) ->
  bodies (forEachParticle f s) !! ref
  = if in_dec Nat.eq_dec ref (particles s)
    then f <$> bodies s !! ref
    else bodies s !! ref.
Proof.
  intros Hf. unfold forEachParticle.
  destruct (in_dec Nat.eq_dec ref (particles s)) as [Hin | Hout].
  - apply SimFacts.forEach_lookup_inside; assumption.
  - apply SimFacts.forEach_lookup_outside; assumption.
Qed.

(** X9. A recolouring pass changes nothing but the stroke of particles: a
    body that is not a particle is left as it is, a particle keeps its
    position, velocity, force, shape, collision filter, fill, line width and
    opacity, no body appears or disappears, and the world and the list of
    particles are the same. *)
Theorem recolouring_only_touches_strokes :
  forall (s : LiquidSimulation) (ref : nat),
    (bodies (updateParticleColors s) !! ref = None <-> bodies s !! ref = None)
    /\ (forall body body',
          bodies s !! ref = Some body ->
          bodies (updateParticleColors s) !! ref = Some body' ->
          Body_setRender body' None = Body_setRender body None
          /\ option_map (fun r => Render_setStrokeStyle r (Literal ""))
                        (render body')
             = option_map (fun r => Render_setStrokeStyle r (Literal ""))
                          (render body)
          /\ (~ In ref (particles s) -> body' = body))
    /\ world (updateParticleColors s) = world s
    /\ particles (updateParticleColors s) = particles s.
Proof.
  intros s ref. unfold updateParticleColors.
  pose proof (forEachParticle_lookup (recolor (maxVelocity s)) s ref
                (SimFacts.recolor_idempotent (maxVelocity s))) as E.
  destruct (forEachParticle_fields (recolor (maxVelocity s)) s)
    as (Ep & _ & _ & _ & Ew & _).
  split; [| split; [| split; [exact Ew | exact Ep]]].
  - rewrite E. destruct (in_dec Nat.eq_dec ref (particles s)); [| reflexivity].
    destruct (bodies s !! ref); cbn; split; congruence.
  - intros body body' Hb Hb'. rewrite E, Hb in Hb'.
    destruct (in_dec Nat.eq_dec ref (particles s)) as [Hin | Hout].
    + cbn in Hb'. injection Hb' as <-.
      split; [| split; [| contradiction]];
        unfold recolor; destruct (render body) as [r |] eqn:Er; cbn;
        rewrite ?Er; reflexivity.
    + injection Hb' as <-. repeat split.
Qed.

(** *** The fade-in *)
Lemma fade_idempotent o body : fade o (fade o body) = fade o body.
Proof.
  unfold fade. destruct (render body) as [r |] eqn:E; cbn; [| rewrite E];
    reflexivity.
Qed.

(** X10. One call of [animateFadeIn] at time [now]: the opacity it stores is
    (now - start)/4000 capped at 1 (and it is not kept from going below 0 when
    the clock is behind the start); every particle with a [render] gets
    exactly this opacity; another animation frame is asked for exactly while
    less than 4000 ms have passed, and from 4000 ms on the opacity is 1. *)
Theorem fade_in_takes_four_seconds :
  forall (s : LiquidSimulation) (now : R),
    let elapsed := now - fadeInStartTime s in
    let s' := fst (animateFadeIn now s) in
    let again := snd (animateFadeIn now s) in
    particleOpacity s' = Rmin 1 (elapsed / 4000)
    /\ particleOpacity s' <= 1
    /\ (0 <= particleOpacity s' <-> 0 <= elapsed)
    /\ (again = true <-> elapsed < 4000)
    /\ (4000 <= elapsed -> particleOpacity s' = 1 /\ again = false)
    /\ (forall particle body r,
          In particle (particles s) ->
          bodies s !! particle = Some body -> render body = Some r ->
          bodies s' !! particle
          = Some (Body_setRender body
                    (Some (Render_setOpacity r (Rmin 1 (elapsed / 4000)))))).
Proof.
  intros s now elapsed s' again. subst s' again. unfold animateFadeIn.
  cbn [fst snd]. fold elapsed.
  set (o := Rmin 1 (elapsed / 4000)).
  destruct (forEachParticle_fields (fade o) (setParticleOpacity o s))
    as (_ & _ & _ & Eo & _).
  cbn [particleOpacity setParticleOpacity] in *. rewrite Eo.
  assert (Hcase : (elapsed < 4000 /\ o = elapsed / 4000 /\ o < 1)
                  \/ (4000 <= elapsed /\ o = 1)).
  { unfold o, Rmin. destruct (Rle_dec 1 (elapsed / 4000)); [right | left]; lra. }
  split; [reflexivity |]. split; [apply Rmin_l |].
  split; [destruct Hcase as [(? & -> & ?) | (? & ->)]; split; intros; lra |].
  split.
  { destruct (Rlt_dec o 1) as [Hlt | Hge];
      destruct Hcase as [(? & ? & ?) | (? & ?)]; split; intros; try lra;
      try reflexivity; try discriminate. }
  split.
  { intros Hdone. destruct Hcase as [(? & ? & ?) | (_ & Ho)]; [lra |].
    split; [exact Ho |]. destruct (Rlt_dec o 1); [lra | reflexivity]. }
  intros particle body r Hin Hbody Hr.
  pose proof (forEachParticle_lookup (fade o) (setParticleOpacity o s) particle
                (fade_idempotent o)) as E.
  cbn [particles bodies setParticleOpacity] in E. rewrite E.
  destruct (in_dec Nat.eq_dec particle (particles s)); [| contradiction].
  rewrite Hbody. cbn. unfold fade. rewrite Hr. reflexivity.
Qed.

(** X11. The recolouring pass and the fade-in do not disturb each other: run
    in either order they leave the same bodies, the same opacity and the same
    request for another frame. *)
Theorem recolouring_and_fade_in_commute :
  forall (s : LiquidSimulation) (now : R) (ref : nat),
    bodies (updateParticleColors (fst (animateFadeIn now s))) !! ref
    = bodies (fst (animateFadeIn now (updateParticleColors s))) !! ref
    /\ particleOpacity (updateParticleColors (fst (animateFadeIn now s)))
       = particleOpacity (fst (animateFadeIn now (updateParticleColors s)))
    /\ snd (animateFadeIn now s) = snd (animateFadeIn now (updateParticleColors s)).
Proof.
  intros s now ref.
  destruct (forEachParticle_fields (recolor (maxVelocity s)) s)
    as (Ep & _ & Et & _).
  fold (updateParticleColors s) in Ep, Et.
  unfold animateFadeIn. cbn [fst snd]. rewrite Et.
  set (o := Rmin 1 ((now - fadeInStartTime s) / 4000)).
  destruct (forEachParticle_fields (fade o) (setParticleOpacity o s))
    as (Fp & Fm & _ & Fo & _).
  destruct (forEachParticle_fields (fade o)
              (setParticleOpacity o (updateParticleColors s)))
    as (Gp & _ & _ & Go & _).
  cbn [particles maxVelocity particleOpacity setParticleOpacity] in *.
  split; [| split].
  - unfold updateParticleColors at 1. rewrite Fm.
    rewrite (forEachParticle_lookup (recolor (maxVelocity s)) _ ref
               (SimFacts.recolor_idempotent _)).
    rewrite Fp.
    rewrite (forEachParticle_lookup (fade o) (setParticleOpacity o s) ref
               (fade_idempotent o)).
    rewrite (forEachParticle_lookup (fade o)
               (setParticleOpacity o (updateParticleColors s)) ref
               (fade_idempotent o)).
    cbn [particles bodies setParticleOpacity]. rewrite Ep.
    unfold updateParticleColors.
    rewrite (forEachParticle_lookup (recolor (maxVelocity s)) s ref
               (SimFacts.recolor_idempotent _)).
    destruct (in_dec Nat.eq_dec ref (particles s)); [| reflexivity].
    destruct (bodies s !! ref) as [body |]; [| reflexivity]. cbn. f_equal.
    unfold recolor, fade. destruct (render body) as [r |] eqn:Er; cbn;
      rewrite ?Er; reflexivity.
  - destruct (forEachParticle_fields (recolor (maxVelocity
                (forEachParticle (fade o) (setParticleOpacity o s))))
                (forEachParticle (fade o) (setParticleOpacity o s)))
      as (_ & _ & _ & Ho & _).
    unfold updateParticleColors at 1. rewrite Ho, Fo, Go. reflexivity.
  - rewrite Fo, Go. reflexivity.
Qed.

(** *** The hands of a new simulation *)
Lemma hands_kept_by_newBody w firstId b s :
  (S firstId < nextId s)%nat ->
  bodies s !! firstId = Some leftHand /\ bodies s !! S firstId = Some (rightHand w) ->
  bodies (snd (newBody b s)) !! firstId = Some leftHand
  /\ bodies (snd (newBody b s)) !! S firstId = Some (rightHand w).
Proof.
  intros Hlt [HL HR]. cbn. rewrite !lookup_insert_ne by lia. split; assumption.
Qed.

(** The constructor leaves the two hand bodies as [Bodies.circle] made them. *)
Lemma new_hand_bodies w firstId random now now' :
  bodies (new w firstId random now now') !! firstId = Some leftHand
  /\ bodies (new w firstId random now now') !! S firstId = Some (rightHand w).
Proof.
  set (P := fun s : LiquidSimulation =>
              (S firstId < nextId s)%nat
              /\ bodies s !! firstId = Some leftHand
              /\ bodies s !! S firstId = Some (rightHand w)).
  assert (Hnew : forall b s, P s -> P (snd (newBody b s))).
  { intros b s (Hlt & HL & HR). split; [cbn; lia |].
    apply hands_kept_by_newBody; [exact Hlt | split; assumption]. }
  assert (H0 : P (createHandBodies w firstId)).
  { unfold P. cbn. split; [lia |].
    rewrite lookup_insert_ne by lia. rewrite !lookup_insert_eq. split; reflexivity. }
  assert (H1 : P (createBoundaries w (createHandBodies w firstId))).
  { unfold createBoundaries. exact (Hnew _ _ (Hnew _ _ (Hnew _ _ H0))). }
  assert (H2 : P (createParticles w random
                    (createBoundaries w (createHandBodies w firstId)))).
  { unfold createParticles.
    set (Q := fun st : Build => P (fst st)).
    assert (Hgrid : forall cols row col st,
               Q st -> Q (gridParticle w random cols row col st)).
    { intros cols row col [s0 k] Hs0. unfold Q in *. cbn [fst] in *.
      exact (Hnew _ s0 Hs0). }
    assert (Hrand : forall i st, Q st -> Q (randomParticle w random i st)).
    { intros i [s0 k] Hs0. unfold Q in *. cbn [fst] in *. exact (Hnew _ s0 Hs0). }
    apply (SimFacts.for_invariant Q); [exact Hrand |].
    apply (SimFacts.for_invariant Q); [| exact H1].
    intros row st Hst. apply (SimFacts.for_invariant Q); [apply Hgrid | exact Hst]. }
  destruct H2 as (_ & HL & HR).
  assert (Hlate : Forall (lt (S firstId))
                    (particles (createParticles w random
                                  (createBoundaries w (createHandBodies w firstId))))).
  { apply (SimFacts.createParticles_buildInv firstId w random).
    apply SimFacts.createBoundaries_buildInv, SimFacts.createHandBodies_handsInv. }
  unfold new, createDraggableObjects, animateFadeIn. cbn [fst].
  unfold forEachParticle. cbn [particles bodies setParticleOpacity start].
  rewrite !SimFacts.forEach_lookup_outside.
  - cbn. split; assumption.
  - intros Hin. apply (proj1 (List.Forall_forall _ _) Hlate) in Hin. lia.
  - intros Hin. apply (proj1 (List.Forall_forall _ _) Hlate) in Hin. lia.
Qed.

End SimExtra.

(** ** From the detector to the simulation *)
Module CanvasFacts.
Import Canvas.
Local Open Scope R_scope.

Lemma Q2R_nonneg_le q hi :
  (0 <= q <= hi)%Q -> 0 <= Q2R q <= Q2R hi.
Proof.
  intros [Hlo Hhi]. split.
  - apply Qreals.Qle_Rle in Hlo. rewrite RMicromega.Q2R_0 in Hlo. exact Hlo.
  - apply Qreals.Qle_Rle, Hhi.
Qed.

Lemma origin_inViewport w :
  (0 <= Mapper.innerWidth w)%Q -> (0 <= Mapper.innerHeight w)%Q ->
  inViewport w {| Sim.Vector.x := 0; Sim.Vector.y := 0 |}.
Proof.
  intros HW HH. unfold inViewport. cbn.
  apply Qreals.Qle_Rle in HW, HH. rewrite RMicromega.Q2R_0 in HW, HH. lra.
Qed.

(** The two proxies of the canvas are in the viewport, and the simulation
    still has the invariants of its hands. *)
Lemma new_proxies_at_origin w firstId random now now' :
  exists left right,
    Sim.bodies (Sim.new w firstId random now now') !! firstId = Some left
    /\ Sim.bodies (Sim.new w firstId random now now') !! S firstId = Some right
    /\ Sim.position left = {| Sim.Vector.x := 0; Sim.Vector.y := 0 |}
    /\ Sim.position right = {| Sim.Vector.x := 0; Sim.Vector.y := 0 |}.
Proof.
  destruct (SimExtra.new_hand_bodies w firstId random now now') as [HL HR].
  exists Sim.leftHand, (Sim.rightHand w). repeat split; assumption.
Qed.

(** What holds before a list of hand updates and is kept by each of them holds
    after the whole list. *)
Lemma onHandUpdate_invariant (P : LiquidCanvas -> Prop) (Good : Mapper.HandUpdate -> Prop)
    (random : nat -> R) :
  (forall c u rnd1 rnd2,
      Good u -> P c ->
      P (handleHandUpdate (Mapper.handIndex u) (Q2R (Mapper.targetX u))
           (Q2R (Mapper.targetY u)) rnd1 rnd2 c)) ->
  forall updates st,
    Forall Good updates -> P (fst st) ->
    P (fst (fold_left (onHandUpdate random) updates st)).
Proof.
  intros Hstep. induction updates as [| u rest IH]; intros st Hall Hst; cbn.
  - exact Hst.
  - apply Forall_cons in Hall. destruct Hall as [Hu Hrest].
    apply IH; [exact Hrest |]. cbn. apply Hstep; assumption.
Qed.

Lemma withinViewport_fitsIn bound w u :
  fitsIn bound w -> Mapper.withinViewport w u -> Mapper.withinViewport bound u.
Proof.
  intros [[_ HW] [_ HH]] [[Hx0 Hx1] [Hy0 Hy1]]. repeat split; try assumption.
  - eapply Qle_trans; [exact Hx1 | exact HW].
  - eapply Qle_trans; [exact Hy1 | exact HH].
Qed.

Lemma results_within bound canvas results :
  Forall (fun r => fitsIn bound (window r)) results ->
  Forall (Mapper.withinViewport bound)
         (concat (map (fun r => Mapper.handUpdates (window r) canvas
                                  (multiHandLandmarks r)) results)).
Proof.
  induction results as [| r rest IH]; intros Hall; cbn; [constructor |].
  apply Forall_cons in Hall. destruct Hall as [Hr Hrest].
  apply Forall_app. split; [| exact (IH Hrest)].
  destruct r as [w [hands |]]; cbn in *; [| constructor].
  eapply Forall_impl.
  - apply (MapperFacts.forEachHand_within w canvas); apply Hr.
  - intros u. apply withinViewport_fitsIn. exact Hr.
Qed.

Lemma handleHandUpdate_keeps_proxies w firstId c u rnd1 rnd2 :
  Mapper.withinViewport w u ->
  proxiesInViewport w firstId c ->
  proxiesInViewport w firstId
    (handleHandUpdate (Mapper.handIndex u) (Q2R (Mapper.targetX u))
       (Q2R (Mapper.targetY u)) rnd1 rnd2 c).
Proof.
  intros [Hx Hy] (sim & left & right & Hsim & HL & HR & Bl & Br & Il & Ir).
  unfold handleHandUpdate. rewrite Hsim.
  assert (Htarget : inViewport w {| Sim.Vector.x := Q2R (Mapper.targetX u);
                                    Sim.Vector.y := Q2R (Mapper.targetY u) |}).
  { split; cbn; apply Q2R_nonneg_le; assumption. }
  unfold proxiesInViewport. cbn [simulationRef].
  unfold Sim.updateHandPosition, Sim.selectHandBody.
  destruct (Mapper.handIndex u =? 0)%Z.
  - rewrite HL.
    exists (Sim.mutate firstId
              (Sim.moveHandBody (Q2R (Mapper.targetX u)) (Q2R (Mapper.targetY u))
                 rnd1 rnd2) sim),
           (Sim.moveHandBody (Q2R (Mapper.targetX u)) (Q2R (Mapper.targetY u))
              rnd1 rnd2 left), right.
    split; [reflexivity |]. split; [exact HL |]. split; [exact HR |].
    split; [rewrite SimFacts.mutate_lookup_same, Bl; reflexivity |].
    split; [rewrite SimFacts.mutate_lookup_other by lia; exact Br |].
    split; [exact Htarget | exact Ir].
  - rewrite HR.
    exists (Sim.mutate (S firstId)
              (Sim.moveHandBody (Q2R (Mapper.targetX u)) (Q2R (Mapper.targetY u))
                 rnd1 rnd2) sim),
           left,
           (Sim.moveHandBody (Q2R (Mapper.targetX u)) (Q2R (Mapper.targetY u))
              rnd1 rnd2 right).
    split; [reflexivity |]. split; [exact HL |]. split; [exact HR |].
    split; [rewrite SimFacts.mutate_lookup_other by lia; exact Bl |].
    split; [rewrite SimFacts.mutate_lookup_same, Br; reflexivity |].
    split; [exact Il | exact Htarget].
Qed.

(** X12. From the detector to the physics: once the canvas has created its
    simulation, whatever results the detector reports on a frame of positive
    size, whatever size the window has at each of them and whatever the random
    draws, after the mapper and [handleHandUpdate] have passed them on both
    hand proxies are at positions inside the largest viewport there has been,
    [0, W] x [0, H] for any W and H the window never exceeded (a proxy placed
    before the window shrank may lie outside the present one), and no wall or
    particle has been touched. *)
Theorem tracked_proxies_stay_in_viewport :
  forall (bound : Mapper.Window) (canvas : Mapper.Canvas) (ws : Sim.Window)
         (firstId : nat) (random draws : nat -> R) (now now' : R)
         (results : list Results),
    (0 < Mapper.width canvas)%Q -> (0 < Mapper.height canvas)%Q ->
    (0 <= Mapper.innerWidth bound)%Q -> (0 <= Mapper.innerHeight bound)%Q ->
    Forall (fun r => fitsIn bound (window r)) results ->
    let c0 := mount ws firstId random now now' (render true) in
    let c := fst (track canvas draws results c0) in
    proxiesInViewport bound firstId c
    /\ (forall ref simulation,
          ref <> firstId -> ref <> S firstId ->
          simulationRef c = Some simulation ->
          Sim.bodies simulation !! ref
          = Sim.bodies (Sim.new ws firstId random now now') !! ref).
Proof.
  intros bound canvas ws firstId random draws now now' results _ _ HW HH Hfit c0 c.
  pose proof (results_within bound canvas results Hfit) as Hall.
  destruct (SimFacts.new_buildInv ws firstId random now now')
    as [(HL & HR & _) _].
  destruct (new_proxies_at_origin ws firstId random now now')
    as (left & right & Bl & Br & Pl & Pr).
  split.
  - subst c. unfold track.
    apply (onHandUpdate_invariant (proxiesInViewport bound firstId)
             (Mapper.withinViewport bound) draws).
    + intros c1 u rnd1 rnd2. apply handleHandUpdate_keeps_proxies.
    + exact Hall.
    + exists (Sim.new ws firstId random now now'), left, right.
      repeat split; try assumption; rewrite ?Pl, ?Pr; cbn;
        apply Qreals.Qle_Rle in HW, HH; rewrite RMicromega.Q2R_0 in HW, HH; lra.
  - intros ref simulation Hn0 Hn1.
    subst c. unfold track.
    apply (onHandUpdate_invariant
             (fun c1 => forall simulation,
                  simulationRef c1 = Some simulation ->
                  Sim.leftHandBody simulation = firstId
                  /\ Sim.rightHandBody simulation = S firstId
                  /\ Sim.bodies simulation !! ref
                     = Sim.bodies (Sim.new ws firstId random now now') !! ref)
             (fun _ => True) draws).
    + intros c1 u rnd1 rnd2 _ Hc1 sim1. unfold handleHandUpdate.
      destruct (simulationRef c1) as [sim |] eqn:E; [| rewrite E; discriminate].
      cbn [simulationRef]. intros [= <-]. destruct (Hc1 sim eq_refl) as (A & B & C).
      split; [exact A |]. split; [exact B |].
      rewrite <- C. unfold Sim.updateHandPosition.
      apply SimFacts.mutate_lookup_other. unfold Sim.selectHandBody.
      destruct (Mapper.handIndex u =? 0)%Z; congruence.
    + apply Forall_forall. intros; exact I.
    + cbn. intros sim0 [= <-]. repeat split; assumption.
Qed.

(** The window shrinks from 1920x1080 to 800x600 and grows again to 1280x720
    while hands are reported. *)
Lemma tracked_proxies_stay_in_viewport_witness :
  let w := {| Mapper.innerWidth := 1920; Mapper.innerHeight := 1080 |} in
  let small := {| Mapper.innerWidth := 800; Mapper.innerHeight := 600 |} in
  let medium := {| Mapper.innerWidth := 1280; Mapper.innerHeight := 720 |} in
  let far := List.repeat {| Mapper.Landmark.x := 7; Mapper.Landmark.y := -3 |} 21 in
  let near := List.repeat {| Mapper.Landmark.x := 0.4; Mapper.Landmark.y := 0.6 |} 21 in
  proxiesInViewport w 0
    (fst (track (Mapper.CANVAS_DIMENSIONS w) (fun _ => 0.5)
            [ {| window := w; multiHandLandmarks := Some [far; near] |};
              {| window := small; multiHandLandmarks := None |};
              {| window := small; multiHandLandmarks := Some [near; far] |};
              {| window := medium; multiHandLandmarks := Some [near] |} ]
            (mount {| Sim.innerWidth := 1920; Sim.innerHeight := 1080;
                     Sim.devicePixelRatio := 1 |} 0
                   (fun _ => 0.5) 0 0 (render true)))).
Proof.
  cbv zeta.
  refine (proj1 (tracked_proxies_stay_in_viewport _ _ _ _ _ _ _ _ _ _ _ _ _ _)).
  - reflexivity.
  - reflexivity.
  - discriminate.
  - discriminate.
  - repeat (constructor; [repeat split; cbn; discriminate |]). constructor.
Defined.

(** X13. A canvas without a container never has a simulation, and hand
    updates are then dropped.  A canvas that has destroyed its simulation still
    passes hand updates to it, but they never bring a body back into the
    world: the world stays empty, with no hand proxy in it, and the simulation
    stays stopped. *)
Theorem updates_after_unmount_revive_nothing :
  forall (canvas : Mapper.Canvas) (ws : Sim.Window)
         (firstId : nat) (random draws : nat -> R) (now now' : R) (container : bool)
         (results : list Results),
    let c := fst (track canvas draws results
                    (unmount (mount ws firstId random now now' (render container)))) in
    match simulationRef c with
    | Some simulation =>
        container = true
        /\ Sim.world simulation = []
        /\ Sim.handProxies simulation = []
        /\ Sim.running simulation = false
    | None => container = false
    end.
Proof.
  intros canvas ws firstId random draws now now' container results c.
  subst c. unfold track.
  apply (onHandUpdate_invariant
           (fun c1 => match simulationRef c1 with
                      | Some simulation =>
                          container = true
                          /\ Sim.world simulation = []
                          /\ Sim.handProxies simulation = []
                          /\ Sim.running simulation = false
                      | None => container = false
                      end)
           (fun _ => True) draws).
  - intros c1 u rnd1 rnd2 _ Hc1. unfold handleHandUpdate.
    destruct (simulationRef c1) as [sim |] eqn:E; cbn [simulationRef];
      [| rewrite E; exact Hc1].
    destruct Hc1 as (A & B & C & D).
    split; [exact A |]. split; [exact B |]. split; [| exact D].
    unfold Sim.handProxies. cbn [Sim.world Sim.updateHandPosition Sim.mutate].
    rewrite B. reflexivity.
  - apply Forall_forall. intros; exact I.
  - destruct container; cbn; [| reflexivity]. repeat split.
Qed.

End CanvasFacts.

(** ** The tracking effect, further *)
Module TrackingExtra.
Import Tracking Lifecycle.

(** Every case of [handle], with the state taken apart. *)
Ltac handle_cases s i :=
  destruct s as [[sm stm sp sfr ssf] [rv rc rh rst] [ue ul ur] sw sl];
  destruct i;
  unfold handle, cleanup, initializeTracking, afterLoadScript, scriptFailed,
    afterGetUserMedia, setupCamera_resume, cameraFailed, afterSetupCamera,
    afterInitialize, trackingFailed, processFrame, afterSend, onResults,
    stopTracks, closeHands;
  cbn;
  destruct sp; cbn;
  repeat match goal with
    | |- context [truthy ?x] => destruct x eqn:?; cbn
    | |- context [if ?b then _ else _] => destruct b eqn:?; cbn
    | |- context [match ?x with _ => _ end] => destruct x eqn:?; cbn
    end.

Lemma init_staged w video canvas : staged (init w video canvas).
Proof. unfold staged. cbn. repeat split; intros; try congruence; lia. Qed.

(** Forward reasoning with the implications of an invariant. *)
Ltac settle :=
  repeat match goal with
    | H : _ /\ _ |- _ => destruct H
    | H : ?a <> ?b -> _ |- _ =>
        let X := fresh in
        assert (X : a <> b) by (discriminate || congruence);
        specialize (H X); clear X
    | H : ?a = ?b -> _ |- _ =>
        let X := fresh in
        assert (X : a = b) by (reflexivity || congruence);
        specialize (H X); clear X
    end;
  try congruence; try discriminate; try lia.

Lemma handle_staged i s :
  staged s -> exists s' acts, handle i s = Normal (s', acts) /\ staged s'.
Proof.
  intros Hs. handle_cases s i;
    eexists _, _; (split; [reflexivity |]);
    unfold staged in *; cbn in *;
    destruct Hs as (H1 & H2 & H3 & H4 & H5 & H6);
    repeat split; intros; settle;
    try (match goal with
         | H : forall hands, AwaitInitialize ?h = AwaitInitialize hands -> _ |- _ =>
             destruct (H h eq_refl); congruence
         end).
Qed.

Lemma run_staged inputs :
  forall s, staged s -> exists s' acts, run inputs s = Normal (s', acts) /\ staged s'.
Proof.
  induction inputs as [| i rest IH]; intros s Hs; cbn.
  - exists s, []. auto.
  - destruct (handle_staged i s Hs) as (s1 & acts1 & E1 & Hs1).
    destruct (IH s1 Hs1) as (s2 & acts2 & E2 & Hs2).
    rewrite E1. cbn. rewrite E2. cbn. eexists _, _. split; [reflexivity | exact Hs2].
Qed.

(** X14. In every run of the effect from its start, at most one frame is under
    way: the pending requests for an animation frame and the calls of [send]
    that have not settled are never more than one together; none of them
    exists before the detector is stored, and the detector is stored only when
    the camera stream is recorded and the camera shown as ready. *)
Theorem one_frame_under_way :
  forall (w : Mapper.Window) (video : option Video) (canvas : option CanvasElement)
         (inputs : list Input),
    exists s acts,
      run inputs (init w video canvas) = Normal (s, acts)
      /\ (frameRequests (closure s) + sendsInFlight (closure s) <= 1)%nat
      /\ (handsRef (refs s) = None ->
          frameRequests (closure s) = 0%nat /\ sendsInFlight (closure s) = 0%nat)
      /\ (handsRef (refs s) <> None ->
          streamRef (refs s) <> None /\ isCameraReady (ui s) = true).
Proof.
  intros w video canvas inputs.
  destruct (run_staged inputs _ (init_staged w video canvas))
    as (s & acts & E & (_ & H2 & _ & H4 & _ & H6)).
  exists s, acts. auto.
Qed.

Lemma stopTracks_release stream :
  Forall (fun a => isRelease a = true) (map StopTrack stream ++ [])
  /\ ~ In CloseHands (map StopTrack stream ++ []).
Proof.
  rewrite app_nil_r. split.
  - induction stream; cbn; constructor; auto.
  - intros Hin. apply in_map_iff in Hin. destruct Hin as (t & Ht & _). discriminate.
Qed.

(** Once an error is shown nothing is left to resume. *)
Lemma handle_after_error i s :
  staged s -> error (ui s) <> None ->
  exists s' acts,
    handle i s = Normal (s', acts)
    /\ error (ui s') = error (ui s)
    /\ Forall (fun a => isRelease a = true) acts
    /\ ~ In CloseHands acts.
Proof.
  intros Hs He. handle_cases s i;
    eexists _, _; (split; [reflexivity |]);
    unfold staged in *; cbn in *;
    destruct Hs as (H1 & H2 & H3 & H4 & H5 & H6);
    (split; [| split]); settle;
    try (repeat constructor; fail);
    try (intros Hin; repeat (destruct Hin as [Hin | Hin]; try discriminate);
         contradiction).
  - constructor; [reflexivity | apply stopTracks_release].
  - intros [Hin | Hin]; [discriminate | exact (proj2 (stopTracks_release _) Hin)].
Qed.

Lemma stopTracks_no_frame stream :
  Forall (fun a => isDelivery a = false /\ a <> RequestFrame)
         (map StopTrack stream ++ []).
Proof.
  rewrite app_nil_r. induction stream; cbn; constructor; auto.
Qed.

(** While no detector is stored nothing is delivered and no frame is
    requested; a stored detector stays stored. *)
Lemma handle_without_detector i s :
  staged s ->
  exists s' acts,
    handle i s = Normal (s', acts)
    /\ staged s'
    /\ (handsRef (refs s') = None ->
        handsRef (refs s) = None
        /\ Forall (fun a => isDelivery a = false /\ a <> RequestFrame) acts).
Proof.
  intros Hs.
  destruct (handle_staged i s Hs) as (s' & acts & E & Hs').
  exists s', acts. split; [exact E |]. split; [exact Hs' |].
  clear Hs'. revert E. handle_cases s i;
    intros [= <- <-]; cbn; intros Hnone;
    unfold staged in *; cbn in *;
    destruct Hs as (H1 & H2 & H3 & H4 & H5 & H6);
    (split; [congruence || (settle; fail) |]);
    settle;
    try (repeat constructor; discriminate).
  all: constructor; [split; [reflexivity | discriminate] |];
    apply stopTracks_no_frame.
Qed.

Lemma run_without_detector inputs :
  forall s,
    staged s ->
    exists s' acts,
      run inputs s = Normal (s', acts)
      /\ staged s'
      /\ (handsRef (refs s') = None ->
          handsRef (refs s) = None
          /\ Forall (fun a => isDelivery a = false /\ a <> RequestFrame) acts).
Proof.
  induction inputs as [| i rest IH]; intros s Hs; cbn.
  - exists s, []. split; [reflexivity |]. split; [exact Hs |]. auto.
  - destruct (handle_without_detector i s Hs) as (s1 & acts1 & E1 & Hs1 & Q1).
    destruct (IH s1 Hs1) as (s2 & acts2 & E2 & Hs2 & Q2).
    rewrite E1. cbn. rewrite E2. cbn.
    eexists _, _. split; [reflexivity |]. split; [exact Hs2 |].
    intros Hnone. destruct (Q2 Hnone) as [Hn1 F2]. destruct (Q1 Hn1) as [Hn0 F1].
    split; [exact Hn0 | apply Forall_app; split; assumption].
Qed.

Lemma run_after_error inputs :
  forall s,
    staged s -> error (ui s) <> None ->
    exists s' acts,
      run inputs s = Normal (s', acts)
      /\ error (ui s') = error (ui s)
      /\ Forall (fun a => isRelease a = true) acts
      /\ ~ In CloseHands acts.
Proof.
  induction inputs as [| i rest IH]; intros s Hs He; cbn.
  - exists s, []. repeat split; auto.
  - destruct (handle_after_error i s Hs He) as (s1 & acts1 & E1 & Ee1 & F1 & N1).
    destruct (handle_staged i s Hs) as (s1' & acts1' & E1' & Hs1).
    rewrite E1 in E1'. injection E1' as <- <-.
    assert (He1 : error (ui s1) <> None) by (rewrite Ee1; exact He).
    destruct (IH s1 Hs1 He1) as (s2 & acts2 & E2 & Ee2 & F2 & N2).
    rewrite E1. cbn. rewrite E2. cbn.
    eexists _, _. split; [reflexivity |].
    split; [congruence |].
    split; [apply Forall_app; split; assumption |].
    intros Hin. apply in_app_or in Hin. tauto.
Qed.

(** X15. An error ends the effect.  Take any run from the start that has led
    to a state with an error message.  Up to then no frame was requested or
    sent, nothing was drawn and [onHandUpdate] was never called;
    [initializeTracking] has returned without storing a detector; and
    whatever happens afterwards, the message stays the same and the effect
    does nothing but what a teardown does (clear the timer, stop tracks):
    it never loads, asks for the camera, initialises or closes a detector
    again. *)
Theorem error_ends_the_effect :
  forall (w : Mapper.Window) (video : option Video) (canvas : option CanvasElement)
         (before after : list Input),
    exists s acts s' acts',
      run before (init w video canvas) = Normal (s, acts)
      /\ run after s = Normal (s', acts')
      /\ (error (ui s) <> None ->
          Forall (fun a => isDelivery a = false /\ a <> RequestFrame) acts
          /\ pc (closure s) = Returned
          /\ handsRef (refs s) = None
          /\ frameRequests (closure s) = 0%nat
          /\ sendsInFlight (closure s) = 0%nat
          /\ error (ui s') = error (ui s)
          /\ Forall (fun a => isRelease a = true) acts'
          /\ ~ In CloseHands acts').
Proof.
  intros w video canvas before after.
  destruct (run_without_detector before _ (init_staged w video canvas))
    as (s & acts & E & Hs & Q).
  destruct (run_staged after s Hs) as (s' & acts' & E' & _).
  exists s, acts, s', acts'. split; [exact E |]. split; [exact E' |].
  intros He.
  pose proof Hs as (_ & H2 & H3 & _).
  destruct (H3 He) as [Hpc Hnone]. destruct (H2 Hnone) as [Hf Hsnd].
  destruct (Q Hnone) as [_ Hquiet].
  destruct (run_after_error after s Hs He) as (s2 & acts2 & E2 & Ee & F & N).
  rewrite E' in E2. injection E2 as <- <-.
  repeat split; assumption.
Qed.

(** X16. Frames and detections only with the camera: in every run from the
    start in which a frame was sent to the detector, something was drawn or
    [onHandUpdate] was called, the detector is stored, the camera stream is
    recorded, the camera is shown as ready and no error is shown. *)
Theorem deliveries_need_camera_and_detector :
  forall (w : Mapper.Window) (video : option Video) (canvas : option CanvasElement)
         (inputs : list Input),
    exists s acts,
      run inputs (init w video canvas) = Normal (s, acts)
      /\ ((exists a, In a acts /\ isDelivery a = true) ->
          handsRef (refs s) <> None
          /\ streamRef (refs s) <> None
          /\ isCameraReady (ui s) = true
          /\ error (ui s) = None).
Proof.
  intros w video canvas inputs.
  destruct (run_without_detector inputs _ (init_staged w video canvas))
    as (s & acts & E & Hs & Q).
  exists s, acts. split; [exact E |].
  intros (a & Hin & Ha).
  assert (Hdet : handsRef (refs s) <> None).
  { intros Hnone. destruct (Q Hnone) as [_ Hquiet].
    destruct (proj1 (List.Forall_forall _ _) Hquiet a Hin) as [Hq _]. congruence. }
  destruct Hs as (_ & _ & H3 & H4 & _).
  destruct (H4 Hdet) as [Hst Hready].
  repeat split; try assumption.
  destruct (error (ui s)) as [e |] eqn:Ee; [| reflexivity].
  destruct H3 as [_ Hnone]; [discriminate | contradiction].
Qed.

(** *** Teardown before the timer *)
Lemma handle_dormant i s :
  dormant s ->
  exists s' acts,
    handle i s = Normal (s', acts)
    /\ dormant s'
    /\ error (ui s') = error (ui s)
    /\ Forall (fun a => a = ClearTimeout) acts.
Proof.
  intros (D1 & D2 & D3 & D4 & D5 & D6 & D7).
  destruct s as [[sm stm sp sfr ssf] [rv rc rh rst] [ue ul ur] sw sl].
  cbn in *. subst.
  destruct i; cbn;
    eexists _, _; (split; [reflexivity |]);
    unfold dormant; cbn; repeat split; repeat constructor.
Qed.

(** X17. A teardown that comes before the 1000 ms timer has fired cancels the
    whole initialisation: whatever the environment does afterwards, the script
    is never loaded, the camera never asked for, no detector created; the only
    action ever taken is clearing the timer, no track is live and no error is
    shown. *)
Theorem teardown_before_timer_cancels_everything :
  forall (w : Mapper.Window) (video : option Video) (canvas : option CanvasElement)
         (rest : list Input),
    exists s acts,
      run (Teardown :: rest) (init w video canvas) = Normal (s, acts)
      /\ Forall (fun a => a = ClearTimeout) acts
      /\ pc (closure s) = NotCalled
      /\ liveTracks s = []
      /\ handsRef (refs s) = None
      /\ error (ui s) = None.
Proof.
  intros w video canvas rest.
  assert (Hrun : forall inputs s,
             dormant s ->
             exists s' acts,
               run inputs s = Normal (s', acts) /\ dormant s'
               /\ error (ui s') = error (ui s)
               /\ Forall (fun a => a = ClearTimeout) acts).
  { induction inputs as [| i more IH]; intros s Hs; cbn.
    - exists s, []. split; [reflexivity |]. split; [exact Hs |].
      split; [reflexivity | constructor].
    - destruct (handle_dormant i s Hs) as (s1 & a1 & E1 & D1 & Er1 & F1).
      destruct (IH s1 D1) as (s2 & a2 & E2 & D2 & Er2 & F2).
      rewrite E1. cbn. rewrite E2. cbn. eexists _, _.
      split; [reflexivity |]. split; [exact D2 |]. split; [congruence |].
      apply Forall_app. split; assumption. }
  assert (H0 : dormant (setInitTimeout false (setMounted false (init w video canvas)))).
  { unfold dormant. cbn. repeat split. }
  destruct (Hrun rest _ H0) as (s & acts & E & D & Er & F).
  exists s, (ClearTimeout :: acts).
  split.
  { cbn [run]. rewrite TrackingFacts.handle_teardown. cbn.
    cbn in E. rewrite E. reflexivity. }
  destruct D as (D1 & _ & D3 & _ & _ & _ & D7).
  split; [constructor; [reflexivity | exact F] |].
  repeat split; assumption.
Qed.

(** *** The cleanup, twice *)
Lemma filter_twice {A} (f : A -> bool) l :
  List.filter f (List.filter f l) = List.filter f l.
Proof.
  induction l as [| a l IH]; cbn; [reflexivity |].
  destruct (f a) eqn:E; cbn; rewrite ?E, IH; reflexivity.
Qed.

(** X18. The cleanup is idempotent on the state: it completes normally in
    every state, and run a second time it completes normally again and leaves
    the state exactly as the first run left it (the flag false, the timer
    cleared, the recorded tracks stopped, the detector closed). *)
Theorem cleanup_twice_is_cleanup_once :
  forall s : State,
    exists s1 acts1 acts2,
      cleanup s = Normal (s1, acts1)
      /\ cleanup s1 = Normal (s1, acts2)
      /\ mounted (closure s1) = false
      /\ initTimeout (closure s1) = false
      /\ (forall hands, handsRef (refs s1) = Some hands -> closed hands = true).
Proof.
  intros s.
  destruct s as [[sm stm sp sfr ssf] [rv rc rh rst] [ue ul ur] sw sl].
  unfold cleanup. cbn.
  destruct rst as [stream |], rh as [hands |]; cbn;
    eexists _, _, _; (split; [reflexivity |]);
    (split; [unfold setLiveTracks, setHandsRef, setRefs; cbn;
             rewrite ?filter_twice; reflexivity |]);
    (split; [reflexivity |]); (split; [reflexivity |]);
    intros detector Hd; cbn in Hd;
    first [discriminate Hd | injection Hd as <-; reflexivity].
Qed.

(** *** The tracks of the recorded stream *)
Lemma incl_filter {A} (f : A -> bool) l l' : incl l l' -> incl (List.filter f l) l'.
Proof. intros H a Ha. apply List.filter_In in Ha. apply H, Ha. Qed.

Lemma filter_out_all (stream l : list Track) :
  incl l stream ->
  List.filter (fun t => negb (existsb (Nat.eqb t) stream)) l = [].
Proof.
  intros Hincl. induction l as [| t l IH]; cbn; [reflexivity |].
  assert (Ht : existsb (Nat.eqb t) stream = true).
  { apply existsb_exists. exists t. split; [apply Hincl; left; reflexivity |].
    apply Nat.eqb_refl. }
  rewrite Ht. cbn. apply IH. intros a Ha. apply Hincl. right. exact Ha.
Qed.

Lemma init_accounted w video canvas : accounted (init w video canvas).
Proof. unfold accounted. cbn. auto. Qed.

Lemma handle_accounted i s :
  accounted s -> exists s' acts, handle i s = Normal (s', acts) /\ accounted s'.
Proof.
  intros Hs. handle_cases s i;
    eexists _, _; (split; [reflexivity |]);
    unfold accounted in *; cbn in *;
    repeat match goal with
      | H : _ /\ _ |- _ => destruct H
      end;
    subst; cbn;
    try (split; [| reflexivity]);
    try reflexivity; try assumption; try discriminate;
    try (intros ? [= <-]);
    try (intros ? Hx; try discriminate Hx);
    try (apply incl_refl);
    try (apply incl_filter; auto; fail);
    auto.
  all: match goal with
       | Hin : In _ (List.filter _ _), Hall : forall stream, _ = Some stream -> _ |- _ =>
           apply List.filter_In in Hin; apply (Hall _ eq_refl), Hin
       end.
Qed.

Lemma run_accounted inputs :
  forall s, accounted s ->
            exists s' acts, run inputs s = Normal (s', acts) /\ accounted s'.
Proof.
  induction inputs as [| i more IH]; intros s Hs; cbn.
  - exists s, []. auto.
  - destruct (handle_accounted i s Hs) as (s1 & a1 & E1 & A1).
    destruct (IH s1 A1) as (s2 & a2 & E2 & A2).
    rewrite E1. cbn. rewrite E2. cbn. eexists _, _. split; [reflexivity | exact A2].
Qed.

(** X19. Whenever the camera stream has been recorded in [streamRef], a
    teardown releases it whole: in every run from the start that ends with a
    recorded stream, the cleanup completes normally, stops every track of that
    stream and leaves no track live at all. *)
Theorem recorded_stream_is_released :
  forall (w : Mapper.Window) (video : option Video) (canvas : option CanvasElement)
         (inputs : list Input),
    exists s acts,
      run inputs (init w video canvas) = Normal (s, acts)
      /\ (forall stream,
            streamRef (refs s) = Some stream ->
            exists s' acts',
              cleanup s = Normal (s', acts')
              /\ liveTracks s' = []
              /\ (forall t, In t stream -> In (StopTrack t) acts')).
Proof.
  intros w video canvas inputs.
  destruct (run_accounted inputs _ (init_accounted w video canvas)) as (s & acts & E & Ha).
  exists s, acts. split; [exact E |].
  intros stream Hst.
  assert (Hincl : incl (liveTracks s) stream).
  { unfold accounted in Ha.
    destruct (pc (closure s)); try (destruct Ha as [_ Hn]; congruence);
      apply Ha, Hst. }
  destruct s as [[sm stm sp sfr ssf] [rv rc rh rst] [ue ul ur] sw sl].
  cbn in *. subst rst. unfold cleanup. cbn.
  destruct rh as [hands |]; cbn; eexists _, _;
    (split; [reflexivity |]); cbn;
    (split; [apply filter_out_all, Hincl |]);
    intros t Ht; right; apply in_or_app; left; apply in_map, Ht.
Qed.

End TrackingExtra.

(* ================================================================== *)
(** ** The script loader                                                *)
(* ================================================================== *)

Module LoaderFacts.
Import Loader.

Lemma run_snoc events e s : run (events ++ [e]) s = step e (run events s).
Proof. unfold run. rewrite fold_left_app. reflexivity. Qed.

Lemma reject_fields reason s :
  src (reject reason s) = src s
  /\ onerror (reject reason s) = onerror s
  /\ timers (reject reason s) = timers s.
Proof. unfold reject. destruct (promise s); cbn; auto. Qed.

(** A timer of [checkHandsAvailability] is pending only after a [load]
    event. *)
Lemma timer_needs_load events :
  (0 < timers (run events loadMediaPipeScript))%nat -> In Onload events.
Proof.
  induction events as [| e events IH] using rev_ind; [cbn; lia |].
  rewrite run_snoc. intros Ht. apply in_or_app.
  destruct e as [| | hands]; cbn in Ht.
  - right. left. reflexivity.
  - left. apply IH.
    destruct (onerror (run events loadMediaPipeScript)); cbn in Ht; [exact Ht |].
    destruct (reject_fields ErrorEvent (run events loadMediaPipeScript)) as (_ & _ & E).
    rewrite E in Ht. exact Ht.
  - left.
    destruct (timers (run events loadMediaPipeScript)) as [| n] eqn:En;
      [rewrite En in Ht; lia | apply IH; lia].
Qed.

Lemma settled_by_timer hands events :
  promise (run events loadMediaPipeScript) = settledBy hands ->
  exists pre mid post, events = pre ++ Onload :: mid ++ Timeout hands :: post.
Proof.
  induction events as [| e events IH] using rev_ind.
  - destruct hands; discriminate.
  - rewrite run_snoc.
    assert (Hold : promise (run events loadMediaPipeScript) = settledBy hands ->
                   exists pre mid post,
                     events ++ [e] = pre ++ Onload :: mid ++ Timeout hands :: post).
    { intros Hp. destruct (IH Hp) as (pre & mid & post & ->).
      exists pre, mid, (post ++ [e]).
      rewrite <- !app_assoc. cbn. rewrite <- app_assoc. reflexivity. }
    pose proof (timer_needs_load events) as Hload.
    destruct e as [| | seen]; cbn.
    + exact Hold.
    + destruct (onerror (run events loadMediaPipeScript)); cbn; [exact Hold |].
      unfold reject.
      destruct (promise (run events loadMediaPipeScript)) eqn:Ep; cbn;
        rewrite ?Ep; [destruct hands; discriminate | exact Hold | exact Hold].
    + destruct (timers (run events loadMediaPipeScript)) as [| n]; [exact Hold |].
      destruct (in_split _ _ (Hload ltac:(lia))) as (pre & mid & E).
      destruct (promise (run events loadMediaPipeScript)) eqn:Ep.
      * intros Hp.
        assert (seen = hands) as ->.
        { destruct seen, hands; cbn in Hp; first [reflexivity | discriminate]. }
        exists pre, mid, []. rewrite E, <- app_assoc. reflexivity.
      * destruct seen; cbn; exact Hold.
      * destruct seen; cbn; exact Hold.
Qed.

Lemma count_onerror_snoc events e :
  length (List.filter isOnerror (events ++ [e]))
  = (length (List.filter isOnerror events) + (if isOnerror e then 1 else 0))%nat.
Proof.
  rewrite List.filter_app, length_app. cbn. destruct (isOnerror e); reflexivity.
Qed.

Lemma count_onerror_In events :
  (1 <= length (List.filter isOnerror events))%nat <-> In Onerror events.
Proof.
  split.
  - destruct (List.filter isOnerror events) as [| e l] eqn:E; cbn; [lia |].
    intros _. assert (Hin : In e (List.filter isOnerror events)) by (rewrite E; left; reflexivity).
    apply List.filter_In in Hin. destruct Hin as [Hin He].
    destruct e; try discriminate. exact Hin.
  - intros Hin.
    assert (Hf : In Onerror (List.filter isOnerror events))
      by (apply List.filter_In; split; [exact Hin | reflexivity]).
    destruct (List.filter isOnerror events); [destruct Hf | cbn; lia].
Qed.

(** The state of the element after any events: the handler in place tells how
    many [error] events there have been. *)
Lemma onerror_counts events :
  let s := run events loadMediaPipeScript in
  let n := length (List.filter isOnerror events) in
  match onerror s with
  | SwitchToFallback => src s = Base /\ n = 0%nat /\ promise s <> Rejected ErrorEvent
  | RejectPromise =>
      src s = Fallback /\ (1 <= n)%nat /\ (promise s = Rejected ErrorEvent -> (2 <= n)%nat)
  end.
Proof.
  induction events as [| e events IH] using rev_ind.
  - cbn. repeat split; discriminate.
  - cbn zeta in *. rewrite run_snoc, count_onerror_snoc.
    set (s := run events loadMediaPipeScript) in *.
    set (n := length (List.filter isOnerror events)) in *.
    destruct e as [| | seen]; cbn.
    + rewrite Nat.add_0_r. exact IH.
    + destruct (onerror s) eqn:Eo; cbn.
      * destruct IH as (Hs & Hn & Hp). repeat split; [lia |].
        intros Hr. contradiction.
      * destruct (reject_fields ErrorEvent s) as (E1 & E2 & _).
        rewrite E2, Eo, E1. destruct IH as (Hs & Hn & Hp).
        repeat split; [exact Hs | lia | lia].
    + rewrite Nat.add_0_r.
      destruct (timers s) as [| k]; [exact IH |].
      destruct seen; unfold resolve, reject; cbn;
        destruct (promise s) eqn:Ep; cbn; rewrite ?Ep;
        destruct (onerror s); cbn;
        destruct IH as (Hs & Hn & Hp);
        repeat split; try assumption; try discriminate.
Qed.

(** X20. The promise of [loadMediaPipeScript] is settled by the availability
    check only after a [load] event and the 500 ms timer it started: it is
    fulfilled only if a timer found [window.Hands] set, and rejected with
    "Hands object not found after script load" only if a timer found it
    missing. *)
Theorem loader_settles_after_load_and_check :
  forall events,
    let p := promise (run events loadMediaPipeScript) in
    (p = Fulfilled ->
     exists pre mid post, events = pre ++ Onload :: mid ++ Timeout true :: post)
    /\ (p = Rejected (Error "Hands object not found after script load") ->
        exists pre mid post, events = pre ++ Onload :: mid ++ Timeout false :: post).
Proof.
  intros events p. split; intros Hp.
  - apply (settled_by_timer true). exact Hp.
  - apply (settled_by_timer false). exact Hp.
Qed.

(** X21. The loader turns to the fallback URL at the first [error] event and
    gives up at the second: after any events the script points to the
    fallback exactly when there has been an [error] event, and the promise is
    rejected with an [error] event only if there have been two. *)
Theorem loader_tries_fallback_before_failing :
  forall events,
    let s := run events loadMediaPipeScript in
    (src s = Fallback <-> In Onerror events)
    /\ (promise s = Rejected ErrorEvent ->
        (2 <= length (List.filter isOnerror events))%nat).
Proof.
  intros events s. pose proof (onerror_counts events) as H. cbn zeta in H.
  fold s in H. rewrite <- count_onerror_In.
  destruct (onerror s); destruct H as (Hs & Hn & Hp).
  - split; [| intros Hr; contradiction].
    rewrite Hs, Hn. split; [discriminate | lia].
  - split; [| exact Hp]. rewrite Hs. split; auto.
Qed.

End LoaderFacts.

(* ================================================================== *)
(** ** The resize hook                                                  *)
(* ================================================================== *)

Module ResizableFacts.
Import Resizable.
Local Open Scope Q_scope.

Lemma listenAll_snoc events e h :
  listenAll (events ++ [e]) h = listen (options e) (event e) (listenAll events h).
Proof. unfold listenAll. rewrite fold_left_app. reflexivity. Qed.

Lemma listenAll_cons events e h :
  listenAll (e :: events) h = listenAll events (listen (options e) (event e) h).
Proof. reflexivity. Qed.

(** One listener keeps the size within the bounds and the height computed
    from the width. *)
Lemma listen_wellSized o e h :
  minWidth o <= maxWidth o ->
  wellSized o h -> wellSized o (listen o e h).
Proof.
  intros Hb (Hlo & Hhi & Hp).
  destruct e as [[current |] clientX | clientX |]; cbn;
    try (repeat split; assumption).
  unfold resize. destruct (isResizing h); cbn; [| repeat split; assumption].
  unfold Mapper.Math_min, Mapper.Math_max. repeat split.
  - apply Q.min_glb; [apply Q.le_max_r | exact Hb].
  - apply Q.le_min_r.
Qed.

(** The options [HandTracking] passes depend on the layout only, and with the
    initial width of the same layout they fit. *)
Lemma trackingOptions_layout w w0 :
  Mapper.isMobile w = Mapper.isMobile w0 -> trackingOptions w = trackingOptions w0.
Proof. unfold trackingOptions. intros ->. reflexivity. Qed.

Lemma trackingOptions_fit w :
  minWidth (trackingOptions w) <= maxWidth (trackingOptions w)
  /\ 120 <= minWidth (trackingOptions w)
  /\ maxWidth (trackingOptions w) <= 480
  /\ wellSized (trackingOptions w) (useResizable (trackingOptions w) w).
Proof.
  unfold trackingOptions, useResizable, wellSized. cbn.
  destruct (Mapper.isMobile w); cbn; repeat split; try discriminate; reflexivity.
Qed.

(** Whatever the layout of each render, the width stays between the least
    lower and the greatest upper bound of the two layouts. *)
Lemma listen_tracking_width w e h :
  120 <= width h <= 480 ->
  120 <= width (listen (trackingOptions w) e h) <= 480.
Proof.
  intros Hh. destruct (trackingOptions_fit w) as (Hb & Hlo & Hhi & _).
  destruct e as [[current |] clientX | clientX |]; cbn; try exact Hh.
  unfold resize. destruct (isResizing h); cbn; [| exact Hh].
  unfold Mapper.Math_min, Mapper.Math_max. split.
  - apply Q.min_glb.
    + eapply Qle_trans; [exact Hlo | apply Q.le_max_r].
    + eapply Qle_trans; [exact Hlo | exact Hb].
  - eapply Qle_trans; [apply Q.le_min_r | exact Hhi].
Qed.

Lemma listenAll_tracking_width events :
  forall h, 120 <= width h <= 480 ->
            120 <= width (listenAll (trackingEvents events) h) <= 480.
Proof.
  induction events as [| [w e] events IH]; intros h Hh; [exact Hh |].
  cbn [trackingEvents map]. rewrite listenAll_cons. apply IH.
  cbn [options event fst snd]. apply listen_tracking_width, Hh.
Qed.

(** While every render sees the layout of the first one, the options are
    those of the first render and the size stays as they ask. *)
Lemma listenAll_same_layout w0 events :
  Forall (fun we => Mapper.isMobile (fst we) = Mapper.isMobile w0) events ->
  forall h, wellSized (trackingOptions w0) h ->
            wellSized (trackingOptions w0) (listenAll (trackingEvents events) h).
Proof.
  destruct (trackingOptions_fit w0) as (Hb & _).
  induction events as [| [w e] events IH]; intros Hall h Hh; [exact Hh |].
  apply Forall_cons in Hall. destruct Hall as [Hw Hall]. cbn in Hw.
  cbn [trackingEvents map]. rewrite listenAll_cons. apply IH; [exact Hall |].
  cbn [options event fst snd]. rewrite (trackingOptions_layout _ _ Hw).
  apply listen_wellSized; assumption.
Qed.

(** While a drag is under way the moves keep its origin. *)
Lemma moves_keep_drag moves :
  forall h, isResizing h = true ->
            let h' := listenAll (map moveTo moves) h in
            isResizing h' = true /\ startWidth h' = startWidth h /\ startX h' = startX h.
Proof.
  induction moves as [| [o x] moves IH]; intros h Hh; cbn zeta; [auto |].
  cbn [map]. rewrite listenAll_cons.
  assert (Hstep : isResizing (listen o (Mousemove x) h) = true
                  /\ startWidth (listen o (Mousemove x) h) = startWidth h
                  /\ startX (listen o (Mousemove x) h) = startX h).
  { cbn. unfold resize. rewrite Hh. cbn. auto. }
  destruct Hstep as (H1 & H2 & H3).
  destruct (IH _ H1) as (I1 & I2 & I3). cbn [moveTo options event fst snd].
  rewrite <- H2, <- H3. auto.
Qed.

(** X22. The camera preview of [HandTracking], whatever the mouse does and
    whatever the width of the window at each render: its width is always
    between 120 and 480 pixels; and as long as the window has stayed on the
    side of 768 pixels it was on at the first render, the width is within the
    bounds passed to the hook (120 to 240 on a narrow window, 240 to 480
    otherwise) and the height is the width divided by the aspect ratio.  (The
    initial width belongs to the layout of the first render; once the window
    has crossed 768 pixels it can lie outside the bounds of the new layout.) *)
Theorem preview_size_stays_within_bounds :
  forall (w0 : Mapper.Window) (events : list (Mapper.Window * MouseEvent)),
    let h := listenAll (trackingEvents events)
                       (useResizable (trackingOptions w0) w0) in
    120 <= width h <= 480
    /\ (Forall (fun we => Mapper.isMobile (fst we) = Mapper.isMobile w0) events ->
        wellSized (trackingOptions w0) h).
Proof.
  intros w0 events. cbn zeta.
  destruct (trackingOptions_fit w0) as (Hb & Hlo & Hhi & Hi).
  split.
  - apply listenAll_tracking_width.
    destruct Hi as (A & B & _). split; eapply Qle_trans; eassumption.
  - intros Hall. apply listenAll_same_layout; assumption.
Qed.

(** X23. The size changes only during a drag: as long as no [mousedown] has
    reached the handle of a mounted element, moves and releases of the mouse
    leave the hook as it was first rendered, whatever the options of each
    render. *)
Theorem size_changes_only_during_a_drag :
  forall (o : ResizableOptions) (w : Mapper.Window) (events : list Handled),
    (forall o' current clientX,
        ~ In {| options := o'; event := Mousedown (Some current) clientX |} events) ->
    listenAll events (useResizable o w) = useResizable o w.
Proof.
  intros o w events. induction events as [| e events IH] using rev_ind;
    intros Hno; [reflexivity |].
  rewrite listenAll_snoc, IH.
  - destruct e as [o' [[current |] clientX | clientX |]]; try reflexivity.
    exfalso. apply (Hno o' current clientX), in_or_app. right. left. reflexivity.
  - intros o' current clientX Hin.
    apply (Hno o' current clientX), in_or_app. left. exact Hin.
Qed.

Lemma size_changes_only_during_a_drag_witness :
  let w := {| Mapper.innerWidth := 1920; Mapper.innerHeight := 1080 |} in
  let o := trackingOptions w in
  listenAll [ {| options := o; event := Mousemove 10 |};
              {| options := o; event := Mousedown None 12 |};
              {| options := defaults; event := Mousemove 500 |};
              {| options := o; event := Mouseup |} ]
            (useResizable o w)
  = useResizable o w.
Proof.
  cbn zeta. apply size_changes_only_during_a_drag.
  intros o' current clientX [H | [H | [H | [H | []]]]]; discriminate H.
Defined.

(** X24. During a drag the width follows the pointer and nothing else: after
    a [mousedown] at [x0] on an element [current] pixels wide and any moves,
    the last of them at [x] and handled with the options [o], the width is
    [current + (x - x0)] clamped to the bounds of [o] and the height is this
    width divided by the aspect ratio of [o], whatever the moves before and
    the options they were handled with; so coming back to [x0] gives back
    the width the drag started from, when that was within the bounds. *)
Theorem drag_width_follows_pointer :
  forall (o0 o : ResizableOptions) (h : Hook) (current x0 x : Q)
         (moves : list (ResizableOptions * Q)),
    let h' := listenAll (map moveTo (moves ++ [(o, x)]))
                        (listen o0 (Mousedown (Some current) x0) h) in
    width h' = Mapper.Math_min
                 (Mapper.Math_max (current + (x - x0)) (minWidth o)) (maxWidth o)
    /\ height h' = width h' / aspectRatio o
    /\ (x = x0 -> minWidth o <= current <= maxWidth o -> width h' == current).
Proof.
  intros o0 o h current x0 x moves h'.
  assert (Hh : h' = resize o x (listenAll (map moveTo moves)
                                  (listen o0 (Mousedown (Some current) x0) h))).
  { subst h'. rewrite map_app. cbn [map]. rewrite listenAll_snoc. reflexivity. }
  set (h1 := listen o0 (Mousedown (Some current) x0) h) in *.
  destruct (moves_keep_drag moves h1 eq_refl) as (H1 & H2 & H3).
  assert (Hw : width h' = Mapper.Math_min
                 (Mapper.Math_max (current + (x - x0)) (minWidth o)) (maxWidth o)
               /\ height h' = width h' / aspectRatio o).
  { rewrite Hh. unfold resize. rewrite H1, H2, H3. cbn. split; reflexivity. }
  destruct Hw as [Hw Hhe]. split; [exact Hw |]. split; [exact Hhe |].
  intros -> [Hlo Hhi]. rewrite Hw. unfold Mapper.Math_min, Mapper.Math_max.
  assert (E : current + (x0 - x0) == current) by ring.
  rewrite E, (Q.max_l _ _ Hlo). apply Q.min_l. exact Hhi.
Qed.

End ResizableFacts.

(* ================================================================== *)
(** ** The instruction overlay                                          *)
(* ================================================================== *)

Module OverlayFacts.
Import Overlay.

Lemma advanceAll_snoc times t o :
  advanceAll (times ++ [t]) o = advance t (advanceAll times o).
Proof. unfold advanceAll. rewrite fold_left_app. reflexivity. Qed.

(** The overlay after the clock has been seen at the given times: a timer is
    still set exactly when none of the times has reached its deadline. *)
Lemma advanceAll_mount now times :
  let shown := existsb (fun t => now + 1000 <=? t) times in
  let hidden := existsb (fun t => now + 4000 <=? t) times in
  advanceAll times (mount now)
  = {| visible := shown && negb hidden;
       showTimeout := if shown then None else Some (now + 1000);
       hideTimeout := if hidden then None else Some (now + 4000) |}.
Proof.
  induction times as [| t times IH] using rev_ind; [reflexivity |].
  cbn zeta in *. rewrite advanceAll_snoc, IH, !existsb_app. cbn [existsb].
  rewrite !orb_false_r.
  assert (E14 : (now + 1000 <=? now + 4000) = true) by (apply Nat.leb_le; lia).
  assert (Hmono : existsb (fun t0 => now + 4000 <=? t0) times = true ->
                  existsb (fun t0 => now + 1000 <=? t0) times = true).
  { intros H. apply existsb_exists in H. destruct H as (t0 & Hin & Ht0).
    apply existsb_exists. exists t0. split; [exact Hin |].
    apply Nat.leb_le in Ht0. apply Nat.leb_le. lia. }
  destruct (existsb (fun t0 => now + 1000 <=? t0) times) eqn:Es;
    destruct (existsb (fun t0 => now + 4000 <=? t0) times) eqn:Eh;
    try (specialize (Hmono eq_refl); discriminate Hmono);
    unfold advance; cbn [showTimeout hideTimeout visible orb andb negb];
    rewrite ?E14;
    destruct (now + 1000 <=? t) eqn:E1; destruct (now + 4000 <=? t) eqn:E4;
    cbn [showTimeout hideTimeout visible orb andb negb fireShow fireHide];
    reflexivity.
Qed.

(** X25. The overlay is visible from one second to four seconds after it
    mounted: whenever the timers have been run at any times, it is visible
    exactly if one of these times is at least 1000 ms and none is 4000 ms or
    more after the mount. *)
Theorem overlay_visible_from_one_to_four_seconds :
  forall (now : nat) (times : list nat),
    visible (advanceAll times (mount now))
    = existsb (fun t => now + 1000 <=? t) times
      && negb (existsb (fun t => now + 4000 <=? t) times).
Proof.
  intros now times. rewrite advanceAll_mount. reflexivity.
Qed.

(** X26. Unmounting cancels what is left of the schedule: the overlay keeps
    the visibility it had when it was unmounted, whatever the clock shows
    afterwards; in particular one unmounted within the first second is never
    shown. *)
Theorem unmounted_overlay_keeps_its_visibility :
  forall (now : nat) (before after : list nat),
    visible (advanceAll after (unmount (advanceAll before (mount now))))
    = existsb (fun t => now + 1000 <=? t) before
      && negb (existsb (fun t => now + 4000 <=? t) before).
Proof.
  intros now before after. rewrite advanceAll_mount. cbn zeta.
  set (o := unmount _).
  assert (Hfix : advanceAll after o = o).
  { induction after as [| t after IH] using rev_ind; [reflexivity |].
    rewrite advanceAll_snoc, IH. reflexivity. }
  rewrite Hfix. reflexivity.
Qed.

End OverlayFacts.
